(** * contract_sense: domain classifier, risk configuration, analysis schema
      and browser storage

    A shallow embedding of
    - [detectContractDomain] and the [domainConfig] table of the Gemini
      client ([client/src/lib/gemini.ts]),
    - the record that [analyzeContract] builds from the model's response,
      its [catch], [fetchApiKey] and [getAI],
    - the zod schemas [clauseSchema] and [contractAnalysisSchema]
      ([shared/schema.ts]),
    - [storeAnalysis] and the read side [useStoredAnalysis] and
      [useAnalysisList], and the [mutationFn] of [useFileUpload]
      ([client/src/hooks/use-contract-analysis.ts]),
    - [processFile], [processPDF], [validateFileSize] and
      [validateFileType] ([client/src/lib/file-processing.ts]),
    - the title and the error toast of the upload dialog, the highlighting
      of the contract viewer, the order of the clause explorer, the colours
      of the risk summary and the export of the dashboard.

    A JavaScript string is modelled by a [string], one [ascii] for each of
    its UTF-16 code units (code units above 255 are outside the model); a
    number by [number] below (a finite double is kept as the rational it
    denotes); an object by the association list of its own properties. *)

From Stdlib Require Import QArith Ascii.
From stdpp Require Import base option list strings pretty gmap sorting.

Close Scope Q_scope.
Open Scope string_scope.
Set Warnings "-register-all".
Set Default Proof Using "Type".

(** ** Regular expressions of the shape [/\b(t1|t2|...|tn)\b/] *)

Module Regex.

(** [\w] of a RegExp without the [u] and [i] flags: [[A-Za-z0-9_]]. *)
Definition isWordChar (c : ascii) : bool :=
  let n := N_of_ascii c in
  ((48 <=? n) && (n <=? 57) || (65 <=? n) && (n <=? 90)
   || (n =? 95) || (97 <=? n) && (n <=? 122))%N.

Definition wordBefore (prev : option ascii) : bool :=
  from_option isWordChar false prev.

Definition wordAt (s : string) : bool :=
  match s with
  | String c _ => isWordChar c
  | EmptyString => false
  end.

(** [\b] holds between [prev] and the head of [s] when exactly one of the
    two sides is a word character; the ends of the input count as
    non-word. *)
Definition atBoundary (prev : option ascii) (s : string) : bool :=
  xorb (wordBefore prev) (wordAt s).

(** Consume the literal [kw] at the front of [s]: the last character
    read (or [prev] when nothing was read) and the rest of the input. *)
Fixpoint consume (kw : string) (prev : option ascii) (s : string)
  : option (option ascii * string) :=
  match kw with
  | EmptyString => Some (prev, s)
  | String k kw' =>
      match s with
      | String c s' => if Ascii.eqb k c then consume kw' (Some c) s' else None
      | EmptyString => None
      end
  end.

(** A match that starts exactly here: [\b], one alternative (the matcher
    backtracks over all of them), [\b]. *)
Definition matchAt (alts : list string) (prev : option ascii) (s : string) : bool :=
  atBoundary prev s &&
  existsb (fun kw => match consume kw prev s with
                     | Some (p, r) => atBoundary p r
                     | None => false
                     end) alts.

Fixpoint searchFrom (alts : list string) (prev : option ascii) (s : string) : bool :=
  matchAt alts prev s ||
  match s with
  | String c s' => searchFrom alts (Some c) s'
  | EmptyString => false
  end.

(** [s.match(/\b(alts)\b/)] is not [null]. *)
Definition matches (alts : list string) (s : string) : bool :=
  searchFrom alts None s.

(** The last character of [s], or [prev] for the empty string. *)
Fixpoint lastChar (prev : option ascii) (s : string) : option ascii :=
  match s with
  | EmptyString => prev
  | String c s' => lastChar (Some c) s'
  end.

End Regex.

(** ** The domain classifier *)

Definition financeTerms : list string :=
  ["loan"; "credit"; "mortgage"; "finance"; "bank"; "investment"; "securities";
   "trading"; "hedge fund"; "private equity"; "derivatives"; "swap"; "bond";
   "debt"; "financing agreement"].

Definition realEstateTerms : list string :=
  ["real estate"; "property"; "lease"; "rental"; "landlord"; "tenant";
   "purchase agreement"; "sale agreement"; "property management";
   "commercial lease"; "residential"].

Definition insuranceTerms : list string :=
  ["insurance"; "policy"; "coverage"; "premium"; "claim"; "liability insurance";
   "health insurance"; "life insurance"; "underwriting"].

Definition employmentTerms : list string :=
  ["employment"; "employee"; "employer"; "job"; "salary"; "benefits";
   "non-compete"; "non-disclosure"; "termination"; "hiring"; "hr";
   "human resources"].

Definition technologyTerms : list string :=
  ["software"; "technology"; "saas"; "api"; "development"; "programming";
   "data"; "cloud"; "hosting"; "license"; "intellectual property"; "code"].

Definition healthcareTerms : list string :=
  ["healthcare"; "medical"; "patient"; "doctor"; "hospital"; "pharmaceutical";
   "clinical"; "hipaa"; "medical device"; "treatment"].

Definition constructionTerms : list string :=
  ["construction"; "building"; "contractor"; "engineering"; "architect";
   "project"; "materials"; "labor"; "subcontractor"].

Definition vendorTerms : list string :=
  ["vendor"; "supplier"; "procurement"; "purchase order"; "supply"; "delivery";
   "goods"; "materials"; "distribution"].

Definition professionalTerms : list string :=
  ["consulting"; "professional services"; "advisory"; "legal services";
   "accounting"; "audit"; "tax"].

Section Classifier.

(** [String.prototype.toLowerCase], a built-in of the host: the classifier
    is modelled for any such function. *)
Variable toLowerCase : string → string.

Definition detectContractDomain (contractText title : string) : string :=
  let text := toLowerCase (contractText +:+ " " +:+ title) in
  if Regex.matches financeTerms text then "finance"
  else if Regex.matches realEstateTerms text then "real_estate"
  else if Regex.matches insuranceTerms text then "insurance"
  else if Regex.matches employmentTerms text then "employment"
  else if Regex.matches technologyTerms text then "technology"
  else if Regex.matches healthcareTerms text then "healthcare"
  else if Regex.matches constructionTerms text then "construction"
  else if Regex.matches vendorTerms text then "vendor"
  else if Regex.matches professionalTerms text then "professional"
  else "general".

End Classifier.

(** [toLowerCase] on the strings of the model, whose code units are below
    256: the built-in maps [A-Z] to [a-z] and the capital letters of Latin-1
    (U+00C0 to U+00DE, the multiplication sign U+00D7 apart) to their small
    letters 32 places up, and leaves every other code unit alone. *)
Definition lowerCodeUnit (c : ascii) : ascii :=
  let n := N_of_ascii c in
  if ((65 <=? n) && (n <=? 90)
      || (192 <=? n) && (n <=? 222) && negb (n =? 215))%N
  then ascii_of_N (n + 32) else c.

Fixpoint toLowerCaseLatin1 (s : string) : string :=
  match s with
  | EmptyString => EmptyString
  | String c s' => String (lowerCodeUnit c) (toLowerCaseLatin1 s')
  end.

(** The keyword groups in the order of the [if] cascade. *)
Definition domainPatterns : list (string * list string) :=
  [("finance", financeTerms); ("real_estate", realEstateTerms);
   ("insurance", insuranceTerms); ("employment", employmentTerms);
   ("technology", technologyTerms); ("healthcare", healthcareTerms);
   ("construction", constructionTerms); ("vendor", vendorTerms);
   ("professional", professionalTerms)].

(** The first group, in that order, with a term in [text]; ["general"] when
    there is none. *)
Definition firstMatchingDomain (text : string) : string :=
  from_option fst "general"
    (List.find (λ g, Regex.matches g.2 text) domainPatterns).

(** ** The risk configuration table *)

Record RiskThresholds := { low : Z; medium : Z; high : Z }.

Record DomainConfig := {
  baseRisk : string;
  penaltyMultiplier : Q;
  riskThresholds : RiskThresholds;
  description : string
}.

(** The object literal [domainConfig] of [analyzeContract]; the decimal
    literals of [penaltyMultiplier] are kept as rationals. *)
Definition domainConfig : gmap string DomainConfig :=
  list_to_map [
    ("finance", {|
       baseRisk := "medium-high";
       penaltyMultiplier := 1.2%Q;
       riskThresholds := {| low := 30; medium := 60; high := 80 |};
       description := "Finance contracts require careful attention to regulatory compliance and financial exposure, while recognizing standard industry practices." |});
    ("real_estate", {|
       baseRisk := "medium-high";
       penaltyMultiplier := 1.1%Q;
       riskThresholds := {| low := 30; medium := 60; high := 80 |};
       description := "Real estate contracts involve significant assets but often follow established industry standards and practices." |});
    ("insurance", {|
       baseRisk := "medium-high";
       penaltyMultiplier := 1.1%Q;
       riskThresholds := {| low := 30; medium := 60; high := 80 |};
       description := "Insurance contracts involve risk transfer mechanisms that are often standardized within the industry." |});
    ("healthcare", {|
       baseRisk := "medium";
       penaltyMultiplier := 1.0%Q;
       riskThresholds := {| low := 25; medium := 55; high := 75 |};
       description := "Healthcare contracts balance compliance requirements with practical operational needs." |});
    ("employment", {|
       baseRisk := "low-medium";
       penaltyMultiplier := 0.8%Q;
       riskThresholds := {| low := 20; medium := 50; high := 70 |};
       description := "Employment contracts should be evaluated considering typical employment law protections and industry standards." |});
    ("technology", {|
       baseRisk := "medium";
       penaltyMultiplier := 0.9%Q;
       riskThresholds := {| low := 25; medium := 55; high := 75 |};
       description := "Technology contracts should balance innovation needs with reasonable IP and service protections." |});
    ("construction", {|
       baseRisk := "medium";
       penaltyMultiplier := 1.0%Q;
       riskThresholds := {| low := 25; medium := 55; high := 75 |};
       description := "Construction contracts involve project complexities but often follow established industry practices." |});
    ("vendor", {|
       baseRisk := "low-medium";
       penaltyMultiplier := 0.7%Q;
       riskThresholds := {| low := 20; medium := 45; high := 65 |};
       description := "Vendor contracts are typically straightforward business arrangements with standard commercial terms." |});
    ("professional", {|
       baseRisk := "low-medium";
       penaltyMultiplier := 0.8%Q;
       riskThresholds := {| low := 20; medium := 50; high := 70 |};
       description := "Professional service contracts are generally lower-risk with established service delivery patterns." |});
    ("general", {|
       baseRisk := "medium";
       penaltyMultiplier := 0.9%Q;
       riskThresholds := {| low := 25; medium := 50; high := 70 |};
       description := "General business contracts evaluated with balanced risk assessment considering common business practices." |})
  ].

(** [domainConfig[domain as keyof typeof domainConfig]]: [None] stands for
    [undefined]. *)
Definition resolve (domain : string) : option DomainConfig :=
  domainConfig !! domain.

(** The ten keys of [typeof domainConfig], the tags the classifier can
    return. *)
Inductive DomainTag :=
| finance | real_estate | insurance | healthcare | employment
| technology | construction | vendor | professional | general.

Definition tagName (d : DomainTag) : string :=
  match d with
  | finance => "finance"
  | real_estate => "real_estate"
  | insurance => "insurance"
  | healthcare => "healthcare"
  | employment => "employment"
  | technology => "technology"
  | construction => "construction"
  | vendor => "vendor"
  | professional => "professional"
  | general => "general"
  end.

Definition thresholdsOrdered (t : RiskThresholds) : Prop :=
  (0 ≤ low t ∧ low t < medium t ∧ medium t < high t ∧ high t ≤ 100)%Z.

(** ** JavaScript values *)

(** A number: [NaN], an infinity, or a finite double kept as the rational it
    denotes (so [-0] is not told apart from [0]). *)
Inductive number :=
| NaN
| Infinity (negative : bool)
| Finite (q : Q).

Definition isFinite (n : number) : bool :=
  match n with Finite _ => true | _ => false end.

(** [a < b] on numbers; false whenever an operand is [NaN]. *)
Definition num_lt (a b : number) : bool :=
  match a, b with
  | NaN, _ | _, NaN => false
  | Infinity true, Infinity true => false
  | Infinity true, _ => true
  | _, Infinity true => false
  | Infinity false, _ => false
  | _, Infinity false => true
  | Finite x, Finite y => negb (Qle_bool y x)
  end.

(** The values that reach the schema and the storage: primitives, [Date]
    objects (the time value in milliseconds, [None] for an invalid date),
    arrays, and plain objects as their own properties in order (the names
    of the properties of an object are distinct). *)
Inductive value :=
| VUndefined
| VNull
| VBool (b : bool)
| VNum (n : number)
| VStr (s : string)
| VDate (t : option Z)
| VArr (items : list value)
| VObj (props : list (string * value)).

Fixpoint lookupProp (k : string) (props : list (string * value)) : option value :=
  match props with
  | [] => None
  | (k', v) :: rest => if String.eqb k k' then Some v else lookupProp k rest
  end.

(** [props[k]] on a plain object: [undefined] when there is no such own
    property. *)
Definition getProp (k : string) (props : list (string * value)) : value :=
  default VUndefined (lookupProp k props).

(** [v[k]] / [v.k]. *)
Definition get (k : string) (v : value) : value :=
  match v with
  | VObj props => getProp k props
  | _ => VUndefined
  end.

(** [obj[k] = x]: an existing property keeps its place, a new one goes
    last (an integer-like name would go before the others; no property is
    read by its position here). *)
Fixpoint setProp (k : string) (x : value) (props : list (string * value))
  : list (string * value) :=
  match props with
  | [] => [(k, x)]
  | (k', v) :: rest =>
      if String.eqb k k' then (k', x) :: rest else (k', v) :: setProp k x rest
  end.

(** ** zod *)

Module z.

Inductive pathItem :=
| Key (k : string)
| Index (i : nat).

Inductive issueCode :=
| invalid_type
| invalid_enum_value
| too_small
| too_big
| invalid_date.

Record issue := Issue { path : list pathItem; code : issueCode }.

(** [safeParse]'s verdict: the parsed data, or the issues found. *)
Inductive result (A : Type) :=
| Valid (data : A)
| Invalid (issues : list issue).
Arguments Valid {A} data.
Arguments Invalid {A} issues.

Inductive numberCheck :=
| Min (bound : Q)
| Max (bound : Q).

(** The schema builders the repository uses: [z.string()], [z.number()]
    with its [.min(_)] and [.max(_)] checks in the order they were
    chained, [z.enum([...])], [z.date()], [z.array(_)] and [z.object({...})]
    with its shape in declaration order. *)
Inductive schema :=
| string_
| number_ (checks : list numberCheck)
| enum (values : list string)
| date
| array (element : schema)
| object (shape : list (string * schema)).

(** One check of a number schema: both bounds are inclusive. *)
Definition runCheck (p : list pathItem) (n : number) (c : numberCheck) : list issue :=
  match c with
  | Min b => if num_lt n (Finite b) then [Issue p too_small] else []
  | Max b => if num_lt (Finite b) n then [Issue p too_big] else []
  end.

Definition issuesOf {A} (r : result A) : list issue :=
  match r with
  | Valid _ => []
  | Invalid errs => errs
  end.

(** Merge the verdicts of the items of an array or of the fields of an
    object: every issue is kept, in order; the data is returned only when
    there is none. *)
Fixpoint merge {A} (rs : list (result A)) : result (list A) :=
  match rs with
  | [] => Valid []
  | r :: rs' =>
      match r, merge rs' with
      | Valid x, Valid xs => Valid (x :: xs)
      | _, m => Invalid (issuesOf r ++ issuesOf m)
      end
  end.

Definition withKeys {A} (keys : list string) (r : result (list A))
  : result (list (string * A)) :=
  match r with
  | Valid xs => Valid (zip keys xs)
  | Invalid errs => Invalid errs
  end.

(** [schema.safeParse(v)] at path [p], as zod 3 defines it. A number
    schema accepts any number but [NaN] that passes its checks. Unknown keys
    of an object are stripped (the default of [z.object]); a missing key
    reads as [undefined], which none of these schemas accepts. The issues of
    all items and fields are collected. *)
Fixpoint parse (s : schema) (p : list pathItem) (v : value) {struct s} : result value :=
  match s with
  | string_ =>
      match v with
      | VStr _ => Valid v
      | _ => Invalid [Issue p invalid_type]
      end
  | number_ checks =>
      match v with
      | VNum NaN => Invalid [Issue p invalid_type]
      | VNum n =>
          match flat_map (runCheck p n) checks with
          | [] => Valid v
          | errs => Invalid errs
          end
      | _ => Invalid [Issue p invalid_type]
      end
  | enum values =>
      match v with
      | VStr x =>
          if existsb (String.eqb x) values then Valid v
          else Invalid [Issue p invalid_enum_value]
      | _ => Invalid [Issue p invalid_type]
      end
  | date =>
      match v with
      | VDate (Some _) => Valid v
      | VDate None => Invalid [Issue p invalid_date]
      | _ => Invalid [Issue p invalid_type]
      end
  | array element =>
      match v with
      | VArr items =>
          match merge (imap (λ i x, parse element (p ++ [Index i]) x) items) with
          | Valid xs => Valid (VArr xs)
          | Invalid errs => Invalid errs
          end
      | _ => Invalid [Issue p invalid_type]
      end
  | object shape =>
      match v with
      | VObj props =>
          match withKeys (shape.*1)
                  (merge (map (λ '(k, sk), parse sk (p ++ [Key k]) (getProp k props))
                              shape)) with
          | Valid fields => Valid (VObj fields)
          | Invalid errs => Invalid errs
          end
      | _ => Invalid [Issue p invalid_type]
      end
  end.

(** The keys of every object shape are distinct, as they are in any
    object literal. *)
Fixpoint wellFormed (s : schema) : bool :=
  match s with
  | array element => wellFormed element
  | object shape =>
      bool_decide (NoDup shape.*1) && forallb (λ '(_, sk), wellFormed sk) shape
  | _ => true
  end.

End z.

(** ** The schemas of [shared/schema.ts] *)

Definition riskLevels : list string := ["low"; "medium"; "high"].

Definition clauseSchema : z.schema :=
  z.object [
    ("id", z.string_);
    ("title", z.string_);
    ("content", z.string_);
    ("riskLevel", z.enum riskLevels);
    ("riskScore", z.number_ [z.Min 0; z.Max 100]);
    ("explanation", z.string_);
    ("suggestions", z.array z.string_);
    ("startIndex", z.number_ []);
    ("endIndex", z.number_ [])
  ].

Definition keyIssueSchema : z.schema :=
  z.object [
    ("id", z.string_);
    ("title", z.string_);
    ("description", z.string_);
    ("riskLevel", z.enum riskLevels);
    ("clause", z.string_);
    ("suggestion", z.string_)
  ].

Definition missingProtectionSchema : z.schema :=
  z.object [
    ("id", z.string_);
    ("title", z.string_);
    ("description", z.string_);
    ("importance", z.enum ["critical"; "important"; "recommended"]);
    ("sampleClause", z.string_)
  ].

Definition riskBreakdownSchema : z.schema :=
  z.object [
    ("payment", z.number_ [z.Min 0; z.Max 100]);
    ("liability", z.number_ [z.Min 0; z.Max 100]);
    ("termination", z.number_ [z.Min 0; z.Max 100]);
    ("confidentiality", z.number_ [z.Min 0; z.Max 100]);
    ("intellectual_property", z.number_ [z.Min 0; z.Max 100])
  ].

Definition contractAnalysisSchema : z.schema :=
  z.object [
    ("id", z.string_);
    ("title", z.string_);
    ("content", z.string_);
    ("riskScore", z.number_ [z.Min 0; z.Max 100]);
    ("clauses", z.array clauseSchema);
    ("keyIssues", z.array keyIssueSchema);
    ("missingProtections", z.array missingProtectionSchema);
    ("riskBreakdown", riskBreakdownSchema);
    ("plainLanguageSummary", z.string_);
    ("confidence", z.number_ [z.Min 0; z.Max 1]);
    ("analysisDate", z.date)
  ].

(** Validation of a candidate analysis: [contractAnalysisSchema.safeParse]. *)
Definition validate (candidate : value) : z.result value :=
  z.parse contractAnalysisSchema [] candidate.

(** ** The inferred types [Clause] and [ContractAnalysis] *)

Inductive RiskLevel := Low | Medium | High.

Definition riskLevelName (r : RiskLevel) : string :=
  match r with Low => "low" | Medium => "medium" | High => "high" end.

Inductive Importance := Critical | Important | Recommended.

Definition importanceName (i : Importance) : string :=
  match i with
  | Critical => "critical"
  | Important => "important"
  | Recommended => "recommended"
  end.

Module Clause.
Record t := {
  id : string;
  title : string;
  content : string;
  riskLevel : RiskLevel;
  riskScore : number;
  explanation : string;
  suggestions : list string;
  startIndex : number;
  endIndex : number
}.

Definition toValue (c : t) : value :=
  VObj [
    ("id", VStr (id c));
    ("title", VStr (title c));
    ("content", VStr (content c));
    ("riskLevel", VStr (riskLevelName (riskLevel c)));
    ("riskScore", VNum (riskScore c));
    ("explanation", VStr (explanation c));
    ("suggestions", VArr (VStr <$> suggestions c));
    ("startIndex", VNum (startIndex c));
    ("endIndex", VNum (endIndex c))
  ].
End Clause.

Module KeyIssue.
Record t := {
  id : string;
  title : string;
  description : string;
  riskLevel : RiskLevel;
  clause : string;
  suggestion : string
}.

Definition toValue (k : t) : value :=
  VObj [
    ("id", VStr (id k));
    ("title", VStr (title k));
    ("description", VStr (description k));
    ("riskLevel", VStr (riskLevelName (riskLevel k)));
    ("clause", VStr (clause k));
    ("suggestion", VStr (suggestion k))
  ].
End KeyIssue.

Module MissingProtection.
Record t := {
  id : string;
  title : string;
  description : string;
  importance : Importance;
  sampleClause : string
}.

Definition toValue (m : t) : value :=
  VObj [
    ("id", VStr (id m));
    ("title", VStr (title m));
    ("description", VStr (description m));
    ("importance", VStr (importanceName (importance m)));
    ("sampleClause", VStr (sampleClause m))
  ].
End MissingProtection.

Module RiskBreakdown.
Record t := {
  payment : number;
  liability : number;
  termination : number;
  confidentiality : number;
  intellectual_property : number
}.

Definition toValue (r : t) : value :=
  VObj [
    ("payment", VNum (payment r));
    ("liability", VNum (liability r));
    ("termination", VNum (termination r));
    ("confidentiality", VNum (confidentiality r));
    ("intellectual_property", VNum (intellectual_property r))
  ].
End RiskBreakdown.

Module ContractAnalysis.
Record t := {
  id : string;
  title : string;
  content : string;
  riskScore : number;
  clauses : list Clause.t;
  keyIssues : list KeyIssue.t;
  missingProtections : list MissingProtection.t;
  riskBreakdown : RiskBreakdown.t;
  plainLanguageSummary : string;
  confidence : number;
  analysisDate : option Z
}.

(** The object a record of this type is at run time; [stamp] is the value
    of its [analysisDate] property. *)
Definition toValueWith (stamp : value) (a : t) : value :=
  VObj [
    ("id", VStr (id a));
    ("title", VStr (title a));
    ("content", VStr (content a));
    ("riskScore", VNum (riskScore a));
    ("clauses", VArr (Clause.toValue <$> clauses a));
    ("keyIssues", VArr (KeyIssue.toValue <$> keyIssues a));
    ("missingProtections", VArr (MissingProtection.toValue <$> missingProtections a));
    ("riskBreakdown", RiskBreakdown.toValue (riskBreakdown a));
    ("plainLanguageSummary", VStr (plainLanguageSummary a));
    ("confidence", VNum (confidence a));
    ("analysisDate", stamp)
  ].

Definition toValue (a : t) : value :=
  toValueWith (VDate (analysisDate a)) a.
End ContractAnalysis.

(** [0 <= n <= hi] as the [.min(0).max(hi)] checks decide it. *)
Definition inRange (hi : Q) (n : number) : bool :=
  match n with
  | Finite q => Qle_bool 0 q && Qle_bool q hi
  | _ => false
  end.

Definition notNaN (n : number) : bool :=
  match n with NaN => false | _ => true end.

Definition clauseOk (c : Clause.t) : bool :=
  inRange 100 (Clause.riskScore c) &&
  notNaN (Clause.startIndex c) && notNaN (Clause.endIndex c).

Definition breakdownOk (r : RiskBreakdown.t) : bool :=
  inRange 100 (RiskBreakdown.payment r) &&
  inRange 100 (RiskBreakdown.liability r) &&
  inRange 100 (RiskBreakdown.termination r) &&
  inRange 100 (RiskBreakdown.confidentiality r) &&
  inRange 100 (RiskBreakdown.intellectual_property r).

(** What the schema asks of a record that already has the inferred type. *)
Definition analysisOk (a : ContractAnalysis.t) : bool :=
  inRange 100 (ContractAnalysis.riskScore a) &&
  forallb clauseOk (ContractAnalysis.clauses a) &&
  breakdownOk (ContractAnalysis.riskBreakdown a) &&
  inRange 1 (ContractAnalysis.confidence a) &&
  bool_decide (is_Some (ContractAnalysis.analysisDate a)).

(** ** The record built by [analyzeContract] *)

(** The own enumerable properties that an object spread [...v] copies. *)
Definition ownProps (v : value) : list (string * value) :=
  match v with
  | VObj props => props
  | VArr items => imap (λ i x, (pretty i, x)) items
  | VStr s => imap (λ i c, (pretty i, VStr (String c ""))) (String.list_ascii_of_string s)
  | _ => []
  end.

(** The object literal returned by [analyzeContract]:
    [{ id: crypto.randomUUID(), title, content: contractText,
       ...analysisData, analysisDate: new Date() }],
    with the fresh UUID and the current time as inputs. *)
Definition analyzeContract_return
    (uuid : string) (now : Z) (title contractText : string) (analysisData : value)
  : value :=
  VObj (setProp "analysisDate" (VDate (Some now))
          (foldl (λ acc kv, setProp kv.1 kv.2 acc)
             [("id", VStr uuid); ("title", VStr title); ("content", VStr contractText)]
             (ownProps analysisData))).

(** ** JSON and [localStorage] *)

(** A JSON document; the members of an object have distinct names (where a
    text repeats a name, the parser keeps the last member). *)
Inductive json :=
| JNull
| JBool (b : bool)
| JNumber (q : Q)
| JString (s : string)
| JArray (items : list json)
| JObject (members : list (string * json)).

(** A string held by [localStorage] or handed to [JSON.parse]: a JSON text,
    modelled by the document it denotes, or a string that is not a JSON
    text. *)
Inductive text :=
| JSONText (doc : json)
| OtherText (s : string).

(** A string is falsy exactly when it is empty. *)
Definition truthy (t : text) : bool :=
  match t with
  | OtherText "" => false
  | _ => true
  end.

(** The value [JSON.parse] builds from a document. *)
Fixpoint build (j : json) : value :=
  match j with
  | JNull => VNull
  | JBool b => VBool b
  | JNumber q => VNum (Finite q)
  | JString s => VStr s
  | JArray items => VArr (map build items)
  | JObject members => VObj (map (λ kv, (kv.1, build kv.2)) members)
  end.

(** [JSON.parse(t)]: [None] for the [SyntaxError] thrown on a string that is
    not a JSON text. *)
Definition JSON_parse (t : text) : option value :=
  match t with
  | JSONText doc => Some (build doc)
  | OtherText _ => None
  end.

(** The storage in which [key] holds the string of [x]: [x] is converted
    to a string, and [undefined] (here [None]) becomes the string
    ["undefined"]. *)
Definition written (key : string) (x : option text) (st : gmap string text)
  : gmap string text :=
  <[key := default (OtherText "undefined") x]> st.

(** [localStorage.getItem(key)], [None] for [null]. *)
Definition getItem (key : string) (st : gmap string text) : option text :=
  st !! key.

(** [x || fallback] on the result of [getItem]. *)
Definition orElse (x : option text) (fallback : text) : text :=
  match x with
  | Some t => if truthy t then t else fallback
  | None => fallback
  end.

(** [x === s] for a value [x] that came out of [JSON.parse] and a
    string [s]. *)
Definition strictEqualsString (x : value) (s : string) : bool :=
  match x with
  | VStr s' => String.eqb s' s
  | _ => false
  end.

Inductive completion :=
| Returned
| ThrewSyntaxError
| ThrewTypeError
| ThrewQuotaExceededError.

Section Storage.

(** [Date.prototype.toISOString] on a valid time value, a built-in of the
    host. *)
Variable toISOString : Z → string.

(** The document of a value ([SerializeJSONProperty]): [None] where the
    value is not serialised. A [Date] is replaced by its [toJSON()], a
    non-finite number by [null], an [undefined] array item by [null]; an
    [undefined] property is left out. *)
Fixpoint serialize (v : value) : option json :=
  match v with
  | VUndefined => None
  | VNull => Some JNull
  | VBool b => Some (JBool b)
  | VNum (Finite q) => Some (JNumber q)
  | VNum _ => Some JNull
  | VStr s => Some (JString s)
  | VDate (Some t) => Some (JString (toISOString t))
  | VDate None => Some JNull
  | VArr items => Some (JArray (map (λ x, default JNull (serialize x)) items))
  | VObj props =>
      Some (JObject (omap (λ kv, pair kv.1 <$> serialize kv.2) props))
  end.

(** [JSON.stringify(v)]: [None] where it returns [undefined]. *)
Definition JSON_stringify (v : value) : option text :=
  JSONText <$> serialize v.

(** [JSON.parse(JSON.stringify(v))]. *)
Definition roundTrip (v : value) : option value :=
  JSON_stringify v ≫= JSON_parse.

(** The quota of the storage, which is the browser's: whether the storage
    may hold these items. *)
Variable withinQuota : gmap string text → bool.

(** [localStorage.setItem(key, x)]: the storage with the item written, or
    [None] for the [QuotaExceededError] that is thrown, the storage being
    left as it was, when the items would be over the quota. *)
Definition setItem (key : string) (x : option text) (st : gmap string text)
  : option (gmap string text) :=
  if withinQuota (written key x st) then Some (written key x st) else None.

(** [storeAnalysis(analysis)] on the storage [st]: how the call completes
    and the storage it leaves. [existingIds.filter] throws when the
    parsed item is not an array; nothing catches what [setItem] throws. *)
Definition storeAnalysis (analysis : ContractAnalysis.t) (st : gmap string text)
  : completion * gmap string text :=
  let id := ContractAnalysis.id analysis in
  match setItem ("analysis-" +:+ id)
          (JSON_stringify (ContractAnalysis.toValue analysis)) st with
  | None => (ThrewQuotaExceededError, st)
  | Some st1 =>
      match JSON_parse (orElse (getItem "analysis-ids" st1) (JSONText (JArray []))) with
      | None => (ThrewSyntaxError, st1)
      | Some (VArr existingIds) =>
          let updatedIds :=
            VStr id :: filter (λ x, strictEqualsString x id = false) existingIds in
          match setItem "analysis-ids" (JSON_stringify (VArr (take 10 updatedIds))) st1 with
          | None => (ThrewQuotaExceededError, st1)
          | Some st2 => (Returned, st2)
          end
      | Some _ => (ThrewTypeError, st1)
      end
  end.

(** The storage once [storeAnalysis] has written the analysis, and the
    storage once the list [ids] is written. *)
Definition withAnalysis (analysis : ContractAnalysis.t) (st : gmap string text)
  : gmap string text :=
  written ("analysis-" +:+ ContractAnalysis.id analysis)
    (JSON_stringify (ContractAnalysis.toValue analysis)) st.

Definition withIds (ids : list string) (st : gmap string text) : gmap string text :=
  written "analysis-ids" (Some (JSONText (JArray (JString <$> ids)))) st.

(** The [queryFn] of [useStoredAnalysis]: [None] when [JSON.parse]
    throws. *)
Definition useStoredAnalysis (analysisId : option string) (st : gmap string text)
  : option value :=
  match analysisId with
  | None | Some "" => Some VNull
  | Some id =>
      match getItem ("analysis-" +:+ id) st with
      | Some stored => if truthy stored then JSON_parse stored else Some VNull
      | None => Some VNull
      end
  end.

(** The [queryFn] of [useAnalysisList]. *)
Definition useAnalysisList (st : gmap string text) : option value :=
  JSON_parse (orElse (getItem "analysis-ids" st) (JSONText (JArray []))).

(** The storage after the calls of [storeAnalysis] on the analyses of
    [log], oldest first, starting from [st], whether they return or
    throw. *)
Definition storeAll (log : list ContractAnalysis.t) (st : gmap string text)
  : gmap string text :=
  foldl (λ acc a, (storeAnalysis a acc).2) st log.

End Storage.

(** The values that hold no [undefined], no [Date] and no non-finite
    number. *)
Fixpoint jsonSafe (v : value) : bool :=
  match v with
  | VUndefined | VDate _ => false
  | VNull | VBool _ | VStr _ => true
  | VNum n => isFinite n
  | VArr items => forallb jsonSafe items
  | VObj props => forallb (λ '(_, x), jsonSafe x) props
  end.

Definition spanFinite (c : Clause.t) : bool :=
  isFinite (Clause.startIndex c) && isFinite (Clause.endIndex c).

(** The item ['analysis-ids'] holds the array of the strings [ids]. *)
Definition holdsIds (ids : list string) (st : gmap string text) : Prop :=
  orElse (getItem "analysis-ids" st) (JSONText (JArray []))
  = JSONText (JArray (JString <$> ids)).

(** The list of ids once [id] is put first: [id], then the first nine of the
    other ids. *)
Definition latestIds (id : string) (ids : list string) : list string :=
  id :: take 9 (filter (λ s, s ≠ id) ids).

(** A storage that lists the ids ["b2"] and ["a1"]. *)
Definition exampleStorage : gmap string text :=
  {[ "analysis-ids" := JSONText (JArray [JString "b2"; JString "a1"]) ]}.

(** Every item but the list is the text of a JSON object. *)
Definition itemsAreObjects (st : gmap string text) : Prop :=
  ∀ k t, k ≠ "analysis-ids" → getItem k st = Some t →
         ∃ members, t = JSONText (JObject members).

(** Two quotas: none, and a bound on the number of items. *)
Definition unlimited : gmap string text → bool := λ _, true.

Definition atMostItems (n : nat) : gmap string text → bool :=
  λ st, bool_decide (size st ≤ n)%nat.

(** What the dashboard expects of the list: the most recent id first, no id
    twice, ten ids at most. *)
Definition idsInvariant (latest : string) (st : gmap string text) : Prop :=
  ∃ older, holdsIds (latest :: older) st ∧ NoDup (latest :: older) ∧
           (length (latest :: older) ≤ 10)%nat.

(** The score fields of a candidate: where each one is, its upper bound,
    and what the candidate holds there. *)
Definition breakdownCategories : list string :=
  ["payment"; "liability"; "termination"; "confidentiality"; "intellectual_property"].

Definition scoreFields (v : value) : list (list z.pathItem * Q * value) :=
  [([z.Key "riskScore"], 100%Q, get "riskScore" v);
   ([z.Key "confidence"], 1%Q, get "confidence" v)]
  ++ map (λ k, ([z.Key "riskBreakdown"; z.Key k], 100%Q, get k (get "riskBreakdown" v)))
         breakdownCategories
  ++ match get "clauses" v with
     | VArr cs =>
         imap (λ i c, ([z.Key "clauses"; z.Index i; z.Key "riskScore"], 100%Q,
                       get "riskScore" c)) cs
     | _ => []
     end.

(** ** A sample analysis *)

Definition exampleClause : Clause.t := {|
  Clause.id := "clause_1";
  Clause.title := "Payment Terms";
  Clause.content := "Payment is due within 90 days.";
  Clause.riskLevel := Medium;
  Clause.riskScore := Finite 55;
  Clause.explanation := "Long payment period.";
  Clause.suggestions := ["Negotiate 30 days."];
  Clause.startIndex := Finite 100;
  Clause.endIndex := Finite 130
|}.

Definition exampleAnalysis : ContractAnalysis.t := {|
  ContractAnalysis.id := "a1";
  ContractAnalysis.title := "Loan";
  ContractAnalysis.content := "This loan agreement carries a 15% interest rate...";
  ContractAnalysis.riskScore := Finite 42;
  ContractAnalysis.clauses := [exampleClause];
  ContractAnalysis.keyIssues := [{|
    KeyIssue.id := "issue_1";
    KeyIssue.title := "Late payment";
    KeyIssue.description := "Cash flow exposure.";
    KeyIssue.riskLevel := High;
    KeyIssue.clause := "Payment Terms";
    KeyIssue.suggestion := "Shorten the payment period." |}];
  ContractAnalysis.missingProtections := [{|
    MissingProtection.id := "missing_1";
    MissingProtection.title := "Liability cap";
    MissingProtection.description := "No cap on liability.";
    MissingProtection.importance := Critical;
    MissingProtection.sampleClause := "Liability is limited to the fees paid." |}];
  ContractAnalysis.riskBreakdown := {|
    RiskBreakdown.payment := Finite 60;
    RiskBreakdown.liability := Finite 70;
    RiskBreakdown.termination := Finite 30;
    RiskBreakdown.confidentiality := Finite 20;
    RiskBreakdown.intellectual_property := Finite 10 |};
  ContractAnalysis.plainLanguageSummary := "A standard loan with slow payment terms.";
  ContractAnalysis.confidence := Finite 0.85;
  ContractAnalysis.analysisDate := Some 1700000000000%Z
|}.

(** The same analysis as a candidate that carries a property the schema
    does not know. *)
Definition exampleCandidate : value :=
  VObj (ownProps (ContractAnalysis.toValue exampleAnalysis) ++ [("model", VStr "gemini-2.5-flash")]).

(** The sample analysis with a sixth category in its [riskBreakdown], and
    with [intellectual_property] missing from it. *)
Definition exampleBreakdown : list (string * value) :=
  ownProps (RiskBreakdown.toValue (ContractAnalysis.riskBreakdown exampleAnalysis)).

Definition exampleSixCategories : value :=
  VObj (setProp "riskBreakdown"
          (VObj (setProp "compliance" (VNum (Finite 50)) exampleBreakdown))
          (ownProps (ContractAnalysis.toValue exampleAnalysis))).

Definition exampleFourCategories : value :=
  VObj (setProp "riskBreakdown"
          (VObj (take 4 exampleBreakdown))
          (ownProps (ContractAnalysis.toValue exampleAnalysis))).

(** A clause with another span and content, and an analysis with other
    clauses. *)
Definition setSpan (start end_ : number) (text : string) (c : Clause.t) : Clause.t := {|
  Clause.id := Clause.id c;
  Clause.title := Clause.title c;
  Clause.content := text;
  Clause.riskLevel := Clause.riskLevel c;
  Clause.riskScore := Clause.riskScore c;
  Clause.explanation := Clause.explanation c;
  Clause.suggestions := Clause.suggestions c;
  Clause.startIndex := start;
  Clause.endIndex := end_
|}.

Definition setClauses (cs : list Clause.t) (a : ContractAnalysis.t)
  : ContractAnalysis.t := {|
  ContractAnalysis.id := ContractAnalysis.id a;
  ContractAnalysis.title := ContractAnalysis.title a;
  ContractAnalysis.content := ContractAnalysis.content a;
  ContractAnalysis.riskScore := ContractAnalysis.riskScore a;
  ContractAnalysis.clauses := cs;
  ContractAnalysis.keyIssues := ContractAnalysis.keyIssues a;
  ContractAnalysis.missingProtections := ContractAnalysis.missingProtections a;
  ContractAnalysis.riskBreakdown := ContractAnalysis.riskBreakdown a;
  ContractAnalysis.plainLanguageSummary := ContractAnalysis.plainLanguageSummary a;
  ContractAnalysis.confidence := ContractAnalysis.confidence a;
  ContractAnalysis.analysisDate := ContractAnalysis.analysisDate a
|}.

(** The sample analysis with a clause whose span runs backwards and whose
    content is not in the contract text. *)
Definition exampleReversedClause : Clause.t :=
  setSpan (Finite 10) (Finite 5) "Text that the contract does not contain."
          exampleClause.

Definition exampleReversedSpan : ContractAnalysis.t :=
  setClauses [exampleReversedClause] exampleAnalysis.

(** [typeof x === "number"] and not [NaN]; [typeof x === "string"]. *)
Definition isNumber (x : value) : bool :=
  match x with VNum n => notNaN n | _ => false end.

Definition isString (x : value) : bool :=
  match x with VStr _ => true | _ => false end.

(** An analysis with another id. *)
Definition setId (id : string) (a : ContractAnalysis.t) : ContractAnalysis.t := {|
  ContractAnalysis.id := id;
  ContractAnalysis.title := ContractAnalysis.title a;
  ContractAnalysis.content := ContractAnalysis.content a;
  ContractAnalysis.riskScore := ContractAnalysis.riskScore a;
  ContractAnalysis.clauses := ContractAnalysis.clauses a;
  ContractAnalysis.keyIssues := ContractAnalysis.keyIssues a;
  ContractAnalysis.missingProtections := ContractAnalysis.missingProtections a;
  ContractAnalysis.riskBreakdown := ContractAnalysis.riskBreakdown a;
  ContractAnalysis.plainLanguageSummary := ContractAnalysis.plainLanguageSummary a;
  ContractAnalysis.confidence := ContractAnalysis.confidence a;
  ContractAnalysis.analysisDate := ContractAnalysis.analysisDate a
|}.


(** The clauses with the span and the content of each replaced by those
    that [span] gives for its place in the list. *)
Definition setSpans (span : nat → number * number * string) (cs : list Clause.t)
  : list Clause.t :=
  imap (λ i c, setSpan (span i).1.1 (span i).1.2 (span i).2 c) cs.

(** [toISOString] at the date of the sample analysis. *)
Definition exampleToISOString (t : Z) : string := "2023-11-14T22:13:20.000Z".

(** ** The response of the model *)

(** The interface [GeminiAnalysisResponse]. *)
Module GeminiAnalysisResponse.
Record t := {
  riskScore : number;
  clauses : list Clause.t;
  keyIssues : list KeyIssue.t;
  missingProtections : list MissingProtection.t;
  riskBreakdown : RiskBreakdown.t;
  plainLanguageSummary : string;
  confidence : number
}.

Definition toValue (r : t) : value :=
  VObj [
    ("riskScore", VNum (riskScore r));
    ("clauses", VArr (Clause.toValue <$> clauses r));
    ("keyIssues", VArr (KeyIssue.toValue <$> keyIssues r));
    ("missingProtections", VArr (MissingProtection.toValue <$> missingProtections r));
    ("riskBreakdown", RiskBreakdown.toValue (riskBreakdown r));
    ("plainLanguageSummary", VStr (plainLanguageSummary r));
    ("confidence", VNum (confidence r))
  ].
End GeminiAnalysisResponse.

(** The record of type [ContractAnalysis] made of a response of that type,
    the fresh id, the title, the contract text and the time of the call. *)
Definition analysisOfResponse (uuid : string) (now : Z) (title contractText : string)
    (r : GeminiAnalysisResponse.t) : ContractAnalysis.t := {|
  ContractAnalysis.id := uuid;
  ContractAnalysis.title := title;
  ContractAnalysis.content := contractText;
  ContractAnalysis.riskScore := GeminiAnalysisResponse.riskScore r;
  ContractAnalysis.clauses := GeminiAnalysisResponse.clauses r;
  ContractAnalysis.keyIssues := GeminiAnalysisResponse.keyIssues r;
  ContractAnalysis.missingProtections := GeminiAnalysisResponse.missingProtections r;
  ContractAnalysis.riskBreakdown := GeminiAnalysisResponse.riskBreakdown r;
  ContractAnalysis.plainLanguageSummary := GeminiAnalysisResponse.plainLanguageSummary r;
  ContractAnalysis.confidence := GeminiAnalysisResponse.confidence r;
  ContractAnalysis.analysisDate := Some now
|}.

(** A response that carries a title and a content of its own, and a
    property the interface does not have. *)
Definition exampleResponse : value :=
  VObj [("title", VStr "Untitled"); ("content", VStr "(omitted)");
        ("riskScore", VNum (Finite 250)); ("note", VStr "draft")].

(** ** The demo contract of the dashboard *)

(** The double quote, as a string. *)
Definition dq : string := String (ascii_of_N 34) EmptyString.

(** The text that [handleDemoAnalysis] sends to [analyzeContract], under
    the title ['Demo Professional Consulting Agreement']. *)
Definition demoContract : string :=
  "PROFESSIONAL CONSULTING AGREEMENT

This Professional Consulting Agreement (" +:+ dq +:+
  "Agreement" +:+ dq +:+
  ") is entered into on [DATE] between TechCorp Inc. (" +:+ dq +:+
  "Client" +:+ dq +:+
  ") and Strategic Business Advisors LLC (" +:+ dq +:+
  "Consultant" +:+ dq +:+
  ").

1. SCOPE OF SERVICES
Consultant will provide strategic business advisory services, market analysis, and operational recommendations to Client for a period of 6 months.

2. PAYMENT TERMS
Client shall pay Consultant $15,000 monthly within 30 days of invoice receipt. Late payments will incur a 1.5% monthly service charge.

3. LIABILITY AND WARRANTIES
Consultant's total liability under this agreement shall not exceed the total fees paid. Consultant provides services on an " +:+ dq +:+
  "as-is" +:+ dq +:+
  " basis with no express or implied warranties.

4. TERMINATION
Either party may terminate this agreement with 30 days written notice. Client will pay for all services performed through the termination date.

5. CONFIDENTIALITY
Both parties agree to maintain confidentiality of all proprietary information shared during the engagement. This obligation survives termination.

6. INTELLECTUAL PROPERTY
All deliverables and work product created by Consultant become the exclusive property of Client upon payment.

7. GOVERNING LAW
This agreement shall be governed by the laws of [State], and any disputes will be resolved through binding arbitration.".

(** A term of one word: not empty, and without a space. *)
Fixpoint hasSpace (s : string) : bool :=
  match s with
  | EmptyString => false
  | String c s' => Ascii.eqb c " " || hasSpace s'
  end.

Definition oneWord (kw : string) : Prop := kw ≠ "" ∧ hasSpace kw = false.

(** ** File processing *)

(** White space, for [\s] and for [trim], among the code units of the
    model: tab to carriage return, space, no-break space. *)
Definition isWhiteSpace (c : ascii) : bool :=
  let n := N_of_ascii c in
  ((9 <=? n) && (n <=? 13) || (n =? 32) || (n =? 160))%N.

(** [s.split(sep)] for a separator of one character: the pieces between
    the separators; never empty, [[""]] for the empty string. *)
Fixpoint splitOn (sep : ascii) (s : string) : list string :=
  match s with
  | EmptyString => [EmptyString]
  | String c s' =>
      if Ascii.eqb c sep then EmptyString :: splitOn sep s'
      else match splitOn sep s' with
           | piece :: pieces => String c piece :: pieces
           | [] => [String c EmptyString]
           end
  end.

Definition startsWithWhiteSpace (s : string) : bool :=
  match s with
  | String c _ => isWhiteSpace c
  | EmptyString => false
  end.

(** [s.split(/\s+/)]: the pieces between the maximal runs of white space,
    with an empty piece before a leading run and after a trailing one. *)
Fixpoint splitWhiteSpace (s : string) : list string :=
  match s with
  | EmptyString => [EmptyString]
  | String c s' =>
      if isWhiteSpace c then
        if startsWithWhiteSpace s' then splitWhiteSpace s'
        else EmptyString :: splitWhiteSpace s'
      else match splitWhiteSpace s' with
           | piece :: pieces => String c piece :: pieces
           | [] => [String c EmptyString]
           end
  end.

(** [content.split(/\s+/).filter(word => word.length > 0).length]. *)
Definition countWords (content : string) : nat :=
  length (filter (λ word, 0 < String.length word) (splitWhiteSpace content)).

Fixpoint trimStart (s : string) : string :=
  match s with
  | String c s' => if isWhiteSpace c then trimStart s' else s
  | EmptyString => EmptyString
  end.

Fixpoint trimEnd (s : string) : string :=
  match s with
  | EmptyString => EmptyString
  | String c s' =>
      match trimEnd s' with
      | EmptyString => if isWhiteSpace c then EmptyString else String c EmptyString
      | rest => String c rest
      end
  end.

(** [s.trim()]. *)
Definition trim (s : string) : string := trimEnd (trimStart s).

(** [hay.includes(needle)]. *)
Fixpoint includes (needle hay : string) : bool :=
  String.prefix needle hay ||
  match hay with
  | String _ hay' => includes needle hay'
  | EmptyString => false
  end.

(** The line feed, as a string. *)
Definition lf : string := String (ascii_of_N 10) EmptyString.

Inductive FileType := Pdf | Docx.

Definition fileTypeName (t : FileType) : string :=
  match t with Pdf => "pdf" | Docx => "docx" end.

(** [extension.toUpperCase()] for the two extensions. *)
Definition fileTypeUpperName (t : FileType) : string :=
  match t with Pdf => "PDF" | Docx => "DOCX" end.

(** What the code reads of a [File]. *)
Module File.
Record t := { name : string; type : string; size : N }.
End File.

Module ProcessedFile.
Record t := {
  content : string;
  filename : string;
  fileType : FileType;
  pageCount : option nat;
  wordCount : nat
}.
End ProcessedFile.

(** What pdf.js makes of the bytes of a file: the loading fails (with the
    message of the error, if it is an [Error]), or there is a document;
    the text content of a page may fail too, and an item of it has a [str]
    or has none. *)
Inductive pdfDocument :=
| LoadError (message : option string)
| Document (pages : list (option (list (option string)))).

Inductive pdfError :=
| PdfTechnicalIssues
| PdfProcessingFailed.

Definition pdfErrorMessage (e : pdfError) : string :=
  match e with
  | PdfTechnicalIssues =>
      "PDF processing is currently having technical issues. Please try converting your PDF to DOCX format and uploading that instead."
  | PdfProcessingFailed =>
      "PDF processing failed. The file might be corrupted, password-protected, or contain only images. Please try converting to DOCX format."
  end.

(** The text pushed for page [i]. *)
Definition pageText (i : nat) (page : option (list (option string))) : string :=
  match page with
  | Some items => String.concat " " (omap id items)
  | None => "[Page " +:+ pretty i +:+ " content could not be extracted]"
  end.

(** The [try] block of [processPDF]: its result, or the message of what
    it throws. *)
Definition processPDF_try (doc : pdfDocument) : string * nat + option string :=
  match doc with
  | LoadError message => inr message
  | Document pages =>
      let pageCount := length pages in
      let textContent := imap (λ i page, pageText (S i) page) pages in
      if (String.length (trim (String.concat "" textContent)) =? 0)%nat then
        inr (Some "No readable text found in PDF. The file may contain only images or scanned content.")
      else inl (String.concat (lf +:+ lf) textContent, pageCount)
  end.

Definition processPDF (doc : pdfDocument) : string * nat + pdfError :=
  match processPDF_try doc with
  | inl result => inl result
  | inr error =>
      if match error with
         | Some message => includes "worker" message
         | None => false
         end
      then inr PdfTechnicalIssues
      else inr PdfProcessingFailed
  end.

(** The errors [processFile] ends with: three of its own, or what
    [mammoth.extractRawText] threw. *)
Inductive processError :=
| UnsupportedFileType
| PdfProcessingIssues
| NoReadableText (t : FileType)
| ExtractionError (thrown : string).

Definition processErrorMessage (e : processError) : string :=
  match e with
  | UnsupportedFileType => "Unsupported file type. Please upload a PDF or DOCX file."
  | PdfProcessingIssues =>
      "PDF processing is currently experiencing issues. For best results, please convert your PDF to DOCX format and upload that instead. DOCX files provide more reliable text extraction."
  | NoReadableText t =>
      "No readable text found in the " +:+ fileTypeUpperName t +:+
      " file. Please ensure the document contains extractable text content."
  | ExtractionError thrown => thrown
  end.

Inductive uploadError :=
| FileSizeExceeded (maxSizeMB : N)
| InvalidFileType
| ProcessingError (e : processError).

Definition uploadErrorMessage (e : uploadError) : string :=
  match e with
  | FileSizeExceeded maxSizeMB =>
      "File size exceeds " +:+ pretty maxSizeMB +:+ "MB limit. Please upload a smaller file."
  | InvalidFileType => "Invalid file type. Please upload a PDF or DOCX file."
  | ProcessingError e => processErrorMessage e
  end.

Section FileProcessing.

Variable toLowerCase : string → string.

(** [name.toLowerCase().split('.').pop()]. *)
Definition fileExtension (name : string) : option string :=
  last (splitOn "." (toLowerCase name)).

(** [processFile(file)], given what pdf.js and mammoth make of the bytes of
    the file. *)
Definition processFile (pdfjs : pdfDocument) (mammoth : string + string) (file : File.t)
  : ProcessedFile.t + processError :=
  let filename := File.name file in
  match fileExtension filename with
  | Some extension =>
      if String.eqb extension "" || negb (existsb (String.eqb extension) ["pdf"; "docx"])
      then inr UnsupportedFileType
      else
        let fileType := if String.eqb extension "pdf" then Pdf else Docx in
        let extracted :=
          if String.eqb extension "pdf" then
            match processPDF pdfjs with
            | inl (content, pageCount) => inl (content, Some pageCount)
            | inr _ => inr PdfProcessingIssues
            end
          else
            match mammoth with
            | inl content => inl (content, None)
            | inr thrown => inr (ExtractionError thrown)
            end in
        match extracted with
        | inl (content, pageCount) =>
            let wordCount := countWords content in
            if (wordCount =? 0)%nat then inr (NoReadableText fileType)
            else inl {| ProcessedFile.content := content;
                        ProcessedFile.filename := filename;
                        ProcessedFile.fileType := fileType;
                        ProcessedFile.pageCount := pageCount;
                        ProcessedFile.wordCount := wordCount |}
        | inr e => inr e
        end
  | None => inr UnsupportedFileType
  end.

(** [validateFileSize(file, maxSizeMB)], for a whole number of megabytes:
    the error thrown, if any. *)
Definition validateFileSize (maxSizeMB : N) (file : File.t) : option uploadError :=
  let maxSizeBytes := (maxSizeMB * 1024 * 1024)%N in
  if (maxSizeBytes <? File.size file)%N then Some (FileSizeExceeded maxSizeMB) else None.

Definition allowedTypes : list string :=
  ["application/pdf";
   "application/vnd.openxmlformats-officedocument.wordprocessingml.document"].

Definition allowedExtensions : list string := ["pdf"; "docx"].

(** [validateFileType(file)]: the error thrown, if any. *)
Definition validateFileType (file : File.t) : option uploadError :=
  let extension := fileExtension (File.name file) in
  if negb (existsb (String.eqb (File.type file)) allowedTypes)
     && negb (existsb (String.eqb (default "" extension)) allowedExtensions)
  then Some InvalidFileType else None.

(** The [mutationFn] of [useFileUpload], where [validateFileSize] has its
    default of 10 megabytes. *)
Definition useFileUpload (pdfjs : pdfDocument) (mammoth : string + string) (file : File.t)
  : ProcessedFile.t + uploadError :=
  match validateFileSize 10 file with
  | Some e => inr e
  | None =>
      match validateFileType file with
      | Some e => inr e
      | None =>
          match processFile pdfjs mammoth file with
          | inl processed => inl processed
          | inr e => inr (ProcessingError e)
          end
      end
  end.

End FileProcessing.

(** [filename.replace(/\.[^/.]+$/, '')], the title the upload dialog gives
    to [analyzeContract]: the name without the first ['.'] that is followed,
    up to the end, by one or more characters other than ['/'] and ['.']. *)
Fixpoint isExtensionTail (s : string) : bool :=
  match s with
  | EmptyString => true
  | String c s' => negb (Ascii.eqb c "/") && negb (Ascii.eqb c ".") && isExtensionTail s'
  end.

Fixpoint titleOfFilename (filename : string) : string :=
  match filename with
  | EmptyString => EmptyString
  | String c rest =>
      if Ascii.eqb c "." && negb (String.eqb rest "") && isExtensionTail rest
      then EmptyString
      else String c (titleOfFilename rest)
  end.

(** [title.replace(/[^a-z0-9]/gi, '_')] and the name of the exported
    file. *)
Definition isAlphaNumeric (c : ascii) : bool :=
  let n := N_of_ascii c in
  ((48 <=? n) && (n <=? 57) || (65 <=? n) && (n <=? 90) || (97 <=? n) && (n <=? 122))%N.

Fixpoint replaceNonAlphaNumeric (s : string) : string :=
  match s with
  | EmptyString => EmptyString
  | String c s' =>
      String (if isAlphaNumeric c then c else "_"%char) (replaceNonAlphaNumeric s')
  end.

Definition exportFilename (title : string) : string :=
  replaceNonAlphaNumeric title +:+ "_analysis.json".

(** Whether [c] occurs in [s]; whether [s] has white space only. *)
Fixpoint hasChar (c : ascii) (s : string) : bool :=
  match s with
  | EmptyString => false
  | String x s' => Ascii.eqb x c || hasChar c s'
  end.

Fixpoint isBlank (s : string) : bool :=
  match s with
  | EmptyString => true
  | String c s' => isWhiteSpace c && isBlank s'
  end.

Definition startsWord (s : string) : bool :=
  match s with
  | String c _ => negb (isWhiteSpace c)
  | EmptyString => false
  end.

Definition setType (type : string) (file : File.t) : File.t :=
  {| File.name := File.name file; File.type := type; File.size := File.size file |}.

(** A word: not empty, without white space. *)
Fixpoint noWhiteSpace (s : string) : bool :=
  match s with
  | EmptyString => true
  | String c s' => negb (isWhiteSpace c) && noWhiteSpace s'
  end.

Definition isWord (s : string) : bool :=
  negb (String.eqb s "") && noWhiteSpace s.

Definition examplePdfFile : File.t :=
  {| File.name := "Lease.Final.PDF"; File.type := ""; File.size := 2048 |}.

Definition examplePdf : pdfDocument :=
  Document [Some [Some "Lease"; None; Some "agreement"]; None; Some []].

(** ** Sorting and the contract viewer *)

(** The sign of the number [a - b], as [Array.prototype.sort] reads the
    result of a comparator: [Gt] for a positive difference, [Lt] for a
    negative one, [Eq] for zero and for NaN. *)
Definition minusSign (a b : number) : comparison :=
  match a, b with
  | Finite p, Finite q => Qcompare p q
  | NaN, _ | _, NaN => Eq
  | Infinity s, Infinity t =>
      if Bool.eqb s t then Eq else if s then Lt else Gt
  | Infinity s, Finite _ => if s then Lt else Gt
  | Finite _, Infinity t => if t then Gt else Lt
  end.

(** [[...l].sort(comparator)]: the sort is stable, so for a consistent
    comparator the result is the one of the insertion sort. *)
Fixpoint insertBy {A} (comparator : A → A → comparison) (x : A) (l : list A) : list A :=
  match l with
  | [] => [x]
  | y :: l' =>
      match comparator x y with
      | Gt => y :: insertBy comparator x l'
      | _ => x :: l
      end
  end.

Definition sortBy {A} (comparator : A → A → comparison) (l : list A) : list A :=
  foldr (insertBy comparator) [] l.

(** [ToIntegerOrInfinity] of an index, clamped between 0 and the length,
    as [substring] does. *)
Definition toIndex (n : number) (len : nat) : nat :=
  match n with
  | NaN => 0
  | Infinity negative => if negative then 0 else len
  | Finite q => Z.to_nat (Z.min (Z.max (Z.quot (Qnum q) (Zpos (Qden q))) 0) (Z.of_nat len))
  end.

(** [s.substring(start, end)] and [s.substring(start)]. *)
Definition substring (s : string) (start end_ : number) : string :=
  let a := toIndex start (String.length s) in
  let b := toIndex end_ (String.length s) in
  String.substring (a `min` b) ((a `max` b) - (a `min` b)) s.

Definition substringFrom (s : string) (start : number) : string :=
  let a := toIndex start (String.length s) in
  String.substring a (String.length s - a) s.

(** [n + offset] for an offset that is an integer; the sum is the exact
    one, which is the sum of the doubles when [n] is an integer too and
    both are below 2^53. *)
Definition plusOffset (n : number) (offset : Z) : number :=
  match n with
  | Finite q => Finite (q + inject_Z offset)
  | _ => n
  end.

(** [getRiskColor] of the contract viewer. *)
Definition viewerRiskColor (level : RiskLevel) : string :=
  match level with
  | High => "bg-red-100 text-red-800 border-red-200 dark:bg-red-900/30 dark:text-red-300 dark:border-red-800"
  | Medium => "bg-yellow-100 text-yellow-800 border-yellow-200 dark:bg-yellow-900/30 dark:text-yellow-300 dark:border-yellow-800"
  | Low => "bg-green-100 text-green-800 border-green-200 dark:bg-green-900/30 dark:text-green-300 dark:border-green-800"
  end.

(** The template of [wrappedClause]. *)
Definition wrapClause (selectedClause : option string) (clause : Clause.t)
    (clauseText : string) : string :=
  let riskColorClass := default "undefined" (head (splitOn " " (viewerRiskColor (Clause.riskLevel clause)))) in
  "<span " +:+ lf +:+
  "        class=" +:+ dq +:+ "clause-highlight " +:+ riskColorClass +:+
  " px-1 py-0.5 rounded cursor-pointer transition-all hover:opacity-80 " +:+
  (if bool_decide (selectedClause = Some (Clause.id clause)) then "ring-2 ring-blue-500" else "") +:+
  dq +:+ " " +:+ lf +:+
  "        data-clause-id=" +:+ dq +:+ Clause.id clause +:+ dq +:+ lf +:+
  "        data-risk=" +:+ dq +:+ riskLevelName (Clause.riskLevel clause) +:+ dq +:+ lf +:+
  "        title=" +:+ dq +:+ Clause.explanation clause +:+ dq +:+ lf +:+
  "      >" +:+ clauseText +:+ "</span>".

(** One turn of the [forEach] of [highlightedContent], on the content and
    the offset. *)
Definition highlightClause (selectedClause : option string)
    (state : string * Z) (clause : Clause.t) : string * Z :=
  let '(content, offset) := state in
  let startIndex := plusOffset (Clause.startIndex clause) offset in
  let endIndex := plusOffset (Clause.endIndex clause) offset in
  let beforeText := substring content (Finite 0) startIndex in
  let clauseText := substring content startIndex endIndex in
  let afterText := substringFrom content endIndex in
  let wrappedClause := wrapClause selectedClause clause clauseText in
  (beforeText +:+ wrappedClause +:+ afterText,
   (offset + (Z.of_nat (String.length wrappedClause) - Z.of_nat (String.length clauseText)))%Z).

(** [highlightedContent] of the contract viewer, for an empty search
    term. *)
Definition highlightedContent (content : string) (clauses : list Clause.t)
    (selectedClause : option string) : string :=
  let sortedClauses :=
    sortBy (λ a b, minusSign (Clause.startIndex a) (Clause.startIndex b)) clauses in
  (foldl (highlightClause selectedClause) (content, 0%Z) sortedClauses).1.

(** [sortedClauses] of the clause explorer. *)
Definition explorerClauses (clauses : list Clause.t) : list Clause.t :=
  sortBy (λ a b, minusSign (Clause.riskScore b) (Clause.riskScore a)) clauses.

(** A text cut into the pieces that clauses mark: each piece is the text
    before a clause, the clause, and the text of the clause. *)
Definition segment : Type := string * Clause.t * string.

Fixpoint plainText (segments : list segment) (rest : string) : string :=
  match segments with
  | [] => rest
  | (gap, _, text) :: segments' => gap +:+ text +:+ plainText segments' rest
  end.

Fixpoint markedText (selectedClause : option string) (segments : list segment)
    (rest : string) : string :=
  match segments with
  | [] => rest
  | (gap, clause, text) :: segments' =>
      gap +:+ wrapClause selectedClause clause text
      +:+ markedText selectedClause segments' rest
  end.

(** The clauses of the segments have the indices of their texts, counted
    from [pos], and no text is empty. *)
Fixpoint placed (pos : nat) (segments : list segment) : Prop :=
  match segments with
  | [] => True
  | (gap, clause, text) :: segments' =>
      let startIndex := pos + String.length gap in
      let endIndex := startIndex + String.length text in
      text ≠ ""
      ∧ Clause.startIndex clause = Finite (inject_Z (Z.of_nat startIndex))
      ∧ Clause.endIndex clause = Finite (inject_Z (Z.of_nat endIndex))
      ∧ placed endIndex segments'
  end.

Definition clauseAt (startIndex endIndex : Z) (id : string) : Clause.t := {|
  Clause.id := id;
  Clause.title := "Payment Terms";
  Clause.content := "";
  Clause.riskLevel := Medium;
  Clause.riskScore := Finite 55;
  Clause.explanation := "Long payment period.";
  Clause.suggestions := [];
  Clause.startIndex := Finite (inject_Z startIndex);
  Clause.endIndex := Finite (inject_Z endIndex)
|}.

Definition exampleSegments : list segment :=
  [("", clauseAt 0 15 "c1", "Pay in 90 days.");
   (" ", clauseAt 16 34 "c2", "Terminate at will.")].

Definition scoredClause (riskScore : number) (id : string) : Clause.t := {|
  Clause.id := id;
  Clause.title := "Payment Terms";
  Clause.content := "";
  Clause.riskLevel := Medium;
  Clause.riskScore := riskScore;
  Clause.explanation := "Long payment period.";
  Clause.suggestions := [];
  Clause.startIndex := Finite 0;
  Clause.endIndex := Finite 0
|}.

Definition exampleScoredClauses : list Clause.t :=
  [scoredClause (Finite 10) "a"; scoredClause (Finite 80) "b";
   scoredClause (Finite 10) "c"; scoredClause (Finite 55) "d"].

(** ** The API key and the errors of the analysis *)

(** What a [catch] receives: an [Error] with its message, or another value,
    with what [String] makes of it. *)
Inductive thrown :=
| ErrorWith (message : string)
| NotAnError (asString : string).

(** [!!v]. *)
Definition toBoolean (v : value) : bool :=
  match v with
  | VUndefined | VNull => false
  | VBool b => b
  | VNum NaN => false
  | VNum (Infinity _) => true
  | VNum (Finite q) => negb (Qeq_bool q 0)
  | VStr s => negb (String.eqb s "")
  | VDate _ | VArr _ | VObj _ => true
  end.

(** How the request of [/api/config] ends in the [try] block of
    [fetchApiKey]: something throws ([fetch], [response.json()] or the
    reading of the key), the response is not ok, or there is a
    configuration with its [geminiApiKey] ([VUndefined] when it has
    none). *)
Inductive configOutcome :=
| ConfigThrew (error : thrown)
| ConfigNotOk (status : N) (statusText : string)
| ConfigJson (geminiApiKey : value).

Definition fetchApiKey_try (outcome : configOutcome) : value + thrown :=
  match outcome with
  | ConfigThrew error => inr error
  | ConfigNotOk status statusText =>
      inr (ErrorWith ("Config API returned " +:+ pretty status +:+ ": " +:+ statusText))
  | ConfigJson geminiApiKey =>
      if toBoolean geminiApiKey then inl geminiApiKey
      else inr (ErrorWith "Gemini API key not found in configuration")
  end.

(** [fetchApiKey()]: the key, or the message of the error; [buildTimeKey]
    is the value of the expression of line 27, [None] when reading it
    throws. *)
Definition fetchApiKey (outcome : configOutcome) (buildTimeKey : option value)
  : value + string :=
  match fetchApiKey_try outcome with
  | inl key => inl key
  | inr error =>
      let msg := match error with
                 | ErrorWith message => message
                 | NotAnError asString => asString
                 end in
      let rejected :=
        inr ("Config API error: " +:+ msg +:+
             ". On Vercel ensure you deploy the repository root so /api functions (api/config) are available, or set VITE_GEMINI_API_KEY at build time.") in
      match buildTimeKey with
      | Some key => if toBoolean key then inl key else rejected
      | None => rejected
      end
  end.

(** The two variables of the module: the instance, known by its key, and
    the promise of the key, known by how it settled. *)
Record aiModule := {
  aiInstance : option value;
  apiKeyPromise : option (value + string)
}.

Definition initialModule : aiModule :=
  {| aiInstance := None; apiKeyPromise := None |}.

(** [getAI()], one call after the other; [fetched] is what [fetchApiKey]
    gives if it is called now. *)
Definition getAI (fetched : value + string) (m : aiModule)
  : (value + string) * aiModule :=
  match aiInstance m with
  | Some instance => (inl instance, m)
  | None =>
      let promise := default fetched (apiKeyPromise m) in
      match promise with
      | inl apiKey =>
          (inl apiKey, {| aiInstance := Some apiKey; apiKeyPromise := Some promise |})
      | inr message =>
          (inr message, {| aiInstance := None; apiKeyPromise := Some promise |})
      end
  end.

(** The [catch] of [analyzeContract]: the message of the error it throws. *)
Definition analyzeContract_catch (error : thrown) : string :=
  match error with
  | ErrorWith message =>
      if includes "500" message then
        "Gemini API is currently experiencing issues. This might be due to API quota limits, incorrect configuration, or temporary service issues. Please check your Gemini API key in Replit Secrets and try again later."
      else "Failed to analyze contract: " +:+ message
  | NotAnError _ => "Failed to analyze contract: Unknown error"
  end.

(** [analyzeContract(contractText, title)]: [generated] is how
    [generateContent] ends, with the text of the response if it has one,
    and [syntaxError] the message of the error of [JSON.parse]. *)
Definition analyzeContract (fetched : value + string) (m : aiModule)
    (generated : option text + thrown) (syntaxError : string)
    (uuid : string) (now : Z) (contractText title : string)
  : (value + string) * aiModule :=
  let '(ai, m') := getAI fetched m in
  let outcome :=
    match ai with
    | inr message => inr (ErrorWith message)
    | inl _ =>
        match generated with
        | inr error => inr error
        | inl rawJson =>
            if from_option truthy false rawJson then
              match rawJson ≫= JSON_parse with
              | Some analysisData =>
                  inl (analyzeContract_return uuid now title contractText analysisData)
              | None => inr (ErrorWith syntaxError)
              end
            else inr (ErrorWith "Empty response from Gemini API")
        end
    end in
  (match outcome with
   | inl analysis => inl analysis
   | inr error => inr (analyzeContract_catch error)
   end, m').

(** The description of the toast of the upload dialog for what its [catch]
    receives. *)
Definition uploadToast (error : thrown) : string :=
  let errorMessage :=
    match error with
    | ErrorWith message => message
    | NotAnError _ => "An unknown error occurred"
    end in
  if includes "API key" errorMessage
  then "Please ensure your Gemini API key is properly configured in Replit Secrets."
  else errorMessage.

(** Calls of [analyzeContract] one after the other, each with what the
    configuration request and the model would give at that time; the
    toasts of the calls that fail. *)
Fixpoint analysisToasts (m : aiModule)
    (calls : list ((value + string) * (option text + thrown))) (syntaxError : string)
    (uuid : string) (now : Z) (contractText title : string) : list (option string) :=
  match calls with
  | [] => []
  | (fetched, generated) :: calls' =>
      let '(result, m') :=
        analyzeContract fetched m generated syntaxError uuid now contractText title in
      match result with
      | inl _ => None
      | inr message => Some (uploadToast (ErrorWith message))
      end :: analysisToasts m' calls' syntaxError uuid now contractText title
  end.

Fixpoint getAIs (m : aiModule) (fetched : list (value + string)) : list (value + string) :=
  match fetched with
  | [] => []
  | f :: fetched' => let '(result, m') := getAI f m in result :: getAIs m' fetched'
  end.

Definition replitAdvice : string :=
  "Please ensure your Gemini API key is properly configured in Replit Secrets.".

(** ** Risk levels of the prompt and colours of the risk summary *)

(** [a >= b] on numbers; false whenever an operand is [NaN]. *)
Definition num_ge (a b : number) : bool :=
  notNaN a && notNaN b && negb (num_lt a b).

Inductive summaryColor := Red | Yellow | Green.

(** The colour of the overall score and of the bars of the risk breakdown:
    [value >= 70 ? red : value >= 40 ? yellow : green]. *)
Definition scoreColor (value : number) : summaryColor :=
  if num_ge value (Finite 70) then Red
  else if num_ge value (Finite 40) then Yellow
  else Green.

Definition levelColor (level : RiskLevel) : summaryColor :=
  match level with High => Red | Medium => Yellow | Low => Green end.

(** The three ranges of RISK LEVEL ASSIGNMENT in the prompt, with their
    bounds as the template computes them. *)
Definition riskLevelAssignment (t : RiskThresholds) : list (Z * Z * RiskLevel) :=
  [(0, low t, Low); (low t + 1, medium t, Medium); (medium t + 1, 100, High)]%Z.

(** The levels of the ranges that hold a score. *)
Definition assignedLevels (t : RiskThresholds) (score : Z) : list RiskLevel :=
  (filter (λ range, range.1.1 ≤ score ≤ range.1.2)%Z (riskLevelAssignment t)).*2.

(** ** The exported report *)

(** [v.k] where the code reads a property of what may be [null] or
    [undefined]: [None] stands for the [TypeError]. *)
Definition readProp (k : string) (v : value) : option value :=
  match v with
  | VUndefined | VNull => None
  | _ => Some (get k v)
  end.

(** The object made of each clause in [handleExportAnalysis]. *)
Definition exportClause (clause : value) : option value :=
  match clause with
  | VUndefined | VNull => None
  | _ =>
      Some (VObj [("title", get "title" clause);
                  ("content", get "content" clause);
                  ("riskLevel", get "riskLevel" clause);
                  ("riskScore", get "riskScore" clause);
                  ("explanation", get "explanation" clause);
                  ("suggestions", get "suggestions" clause)])
  end.

(** [exportData] of [handleExportAnalysis] for an analysis that is not
    falsy; [None] when [analysis.clauses.map] or the reading of a clause
    throws. *)
Definition exportData (analysis : value) : option value :=
  match get "clauses" analysis with
  | VArr clauses =>
      exported ← mapM exportClause clauses;
      Some (VObj [("contractTitle", get "title" analysis);
                  ("analysisDate", get "analysisDate" analysis);
                  ("riskScore", get "riskScore" analysis);
                  ("confidence", get "confidence" analysis);
                  ("riskBreakdown", get "riskBreakdown" analysis);
                  ("keyIssues", get "keyIssues" analysis);
                  ("missingProtections", get "missingProtections" analysis);
                  ("plainLanguageSummary", get "plainLanguageSummary" analysis);
                  ("clauses", VArr exported)])
  | _ => None
  end.

(** * Properties *)

(** ** The matcher *)

Section RegexFacts.
Import Regex.

Lemma consume_spec kw prev s p r :
  consume kw prev s = Some (p, r) ↔ s = kw +:+ r ∧ p = lastChar prev kw.
Proof.
  revert prev s. induction kw as [|k kw IH]; intros prev s; simpl.
  - split; [intros [= -> ->]; done | intros [-> ->]; done].
  - destruct s as [|c s].
    { split; [done|]. intros [Hs _]. simpl in Hs. discriminate Hs. }
    destruct (Ascii.eqb_spec k c) as [->|Hne].
    + rewrite IH. split; [intros [-> ->]; done|].
      intros [Hs ->]. simpl in Hs. injection Hs as ->. done.
    + split; [done|]. intros [Hs _]. simpl in Hs. injection Hs as ? _. done.
Qed.

Lemma matchAt_spec alts prev s :
  matchAt alts prev s = true ↔
  ∃ kw post, s = kw +:+ post ∧ kw ∈ alts ∧
             atBoundary prev s = true ∧
             atBoundary (lastChar prev kw) post = true.
Proof.
  unfold matchAt. rewrite andb_true_iff, existsb_exists. split.
  - intros [Hb (kw & Hin & Hm)].
    destruct (consume kw prev s) as [[p r]|] eqn:Hc; [|done].
    apply consume_spec in Hc as [-> ->].
    exists kw, r. rewrite list_elem_of_In. done.
  - intros (kw & post & -> & Hin & Hb & He). split; [done|].
    exists kw. rewrite <- list_elem_of_In. split; [done|].
    assert (consume kw prev (kw +:+ post) = Some (lastChar prev kw, post)) as ->
      by (apply consume_spec; done).
    done.
Qed.

Lemma searchFrom_spec alts prev s :
  searchFrom alts prev s = true ↔
  ∃ pre kw post, s = pre +:+ kw +:+ post ∧ kw ∈ alts ∧
                 atBoundary (lastChar prev pre) (kw +:+ post) = true ∧
                 atBoundary (lastChar prev (pre +:+ kw)) post = true.
Proof.
  revert prev. induction s as [|c s IH]; intros prev; simpl;
    rewrite orb_true_iff, matchAt_spec.
  - split.
    + intros [(kw & post & Hs & Hin & Hb & He)|[=]].
      exists "", kw, post. simpl. rewrite <- Hs. done.
    + intros (pre & kw & post & Hs & Hin & Hb & He). left.
      destruct pre as [|c' pre]; [|discriminate Hs]. simpl in *.
      exists kw, post. rewrite Hs. done.
  - rewrite IH. split.
    + intros [(kw & post & Hs & Hin & Hb & He)|(pre & kw & post & Hs & Hin & Hb & He)].
      * exists "", kw, post. simpl. rewrite <- Hs. done.
      * exists (String c pre), kw, post. simpl. rewrite Hs. done.
    + intros (pre & kw & post & Hs & Hin & Hb & He).
      destruct pre as [|c' pre]; simpl in *.
      * left. exists kw, post. rewrite Hs. done.
      * injection Hs as -> ->. right. exists pre, kw, post. done.
Qed.

(** [/\b(alts)\b/] matches [s] exactly when [s] holds one of the
    alternatives between two word boundaries. *)
Lemma matches_spec alts s :
  matches alts s = true ↔
  ∃ pre kw post, s = pre +:+ kw +:+ post ∧ kw ∈ alts ∧
                 atBoundary (lastChar None pre) (kw +:+ post) = true ∧
                 atBoundary (lastChar None (pre +:+ kw)) post = true.
Proof. apply searchFrom_spec. Qed.

End RegexFacts.

Example detect_loan :
  detectContractDomain toLowerCaseLatin1
    "This loan agreement carries a 15% interest rate..." "Loan" = "finance".
Proof. vm_compute. reflexivity. Qed.

Example detect_loan_software :
  detectContractDomain toLowerCaseLatin1
    "A LOAN to buy software licences." "Untitled" = "finance".
Proof. vm_compute. reflexivity. Qed.

Example detect_plural_is_not_a_match :
  detectContractDomain toLowerCaseLatin1 "loans" "" = "general".
Proof. vm_compute. reflexivity. Qed.

Example detect_none :
  detectContractDomain toLowerCaseLatin1 "Lorem ipsum." "Untitled" = "general".
Proof. vm_compute. reflexivity. Qed.

(** ** The classifier *)

Lemma find_first_match {A} (f : A → bool) (pre post : list A) (x : A) :
  Forall (λ y, f y = false) pre → f x = true →
  List.find f (pre ++ x :: post)%list = Some x.
Proof.
  induction 1 as [|y pre Hy _ IH]; intros Hx; simpl.
  - by rewrite Hx.
  - rewrite Hy. auto.
Qed.

Lemma find_no_match {A} (f : A → bool) (l : list A) :
  Forall (λ y, f y = false) l → List.find f l = None.
Proof. induction 1 as [|y l Hy _ IH]; simpl; [done | by rewrite Hy]. Qed.

Lemma detectContractDomain_eq_firstMatchingDomain toLowerCase text title :
  detectContractDomain toLowerCase text title =
  firstMatchingDomain (toLowerCase (text +:+ " " +:+ title)).
Proof.
  unfold detectContractDomain, firstMatchingDomain, domainPatterns.
  cbn -[Regex.matches financeTerms realEstateTerms insuranceTerms employmentTerms
        technologyTerms healthcareTerms constructionTerms vendorTerms
        professionalTerms String.append].
  repeat (destruct (Regex.matches _ _); [reflexivity|]). reflexivity.
Qed.

Lemma detectContractDomain_is_tag toLowerCase text title :
  ∃ d : DomainTag, detectContractDomain toLowerCase text title = tagName d.
Proof.
  unfold detectContractDomain.
  set (lowered := toLowerCase _).
  destruct (Regex.matches financeTerms lowered); [by exists finance|].
  destruct (Regex.matches realEstateTerms lowered); [by exists real_estate|].
  destruct (Regex.matches insuranceTerms lowered); [by exists insurance|].
  destruct (Regex.matches employmentTerms lowered); [by exists employment|].
  destruct (Regex.matches technologyTerms lowered); [by exists technology|].
  destruct (Regex.matches healthcareTerms lowered); [by exists healthcare|].
  destruct (Regex.matches constructionTerms lowered); [by exists construction|].
  destruct (Regex.matches vendorTerms lowered); [by exists vendor|].
  destruct (Regex.matches professionalTerms lowered); [by exists professional|].
  by exists general.
Qed.

(** C1, as stated, fails: the classifier does not lower-case the plain
    concatenation of text and title. With text ["lo"] and title ["an"] the
    concatenation is the finance term ["loan"], yet the code classifies
    ["lo an"], which holds no term at all. *)
Lemma detectContractDomain_not_plain_concatenation :
  detectContractDomain toLowerCaseLatin1 "lo" "an" = "general" ∧
  firstMatchingDomain (toLowerCaseLatin1 ("lo" +:+ "an")) = "finance".
Proof. split; vm_compute; reflexivity. Qed.

(** C1, amended: [detectContractDomain] lower-cases text, one space and
    title joined in that order, and returns the first domain, in the order
    finance, real_estate, insurance, employment, technology, healthcare,
    construction, vendor, professional, whose keyword group matches: a group
    that matches wins as soon as no earlier group does, whatever the later
    ones do; ["general"] is returned when no group matches; the result is
    always one of the ten tags; and a text in which the finance group
    matches is classified as finance even when the technology group matches
    too. *)
Theorem detectContractDomain_first_match (toLowerCase : string → string) text title :
  let lowered := toLowerCase (text +:+ " " +:+ title) in
  let result := detectContractDomain toLowerCase text title in
  domainPatterns.*1 =
    ["finance"; "real_estate"; "insurance"; "employment"; "technology";
     "healthcare"; "construction"; "vendor"; "professional"]
  ∧ result = firstMatchingDomain lowered
  ∧ (∀ earlier d terms later,
        domainPatterns = (earlier ++ (d, terms) :: later)%list →
        Forall (λ g, Regex.matches g.2 lowered = false) earlier →
        Regex.matches terms lowered = true →
        result = d)
  ∧ (Forall (λ g, Regex.matches g.2 lowered = false) domainPatterns →
     result = "general")
  ∧ (∃ d : DomainTag, result = tagName d)
  ∧ (Regex.matches financeTerms lowered = true → result = "finance").
Proof.
  intros lowered result.
  assert (result = firstMatchingDomain lowered) as Hres
    by apply detectContractDomain_eq_firstMatchingDomain.
  split; [reflexivity|]. split; [exact Hres|]. repeat split.
  - intros earlier d terms later Hsplit Hearlier Hhere.
    rewrite Hres. unfold firstMatchingDomain. rewrite Hsplit.
    by rewrite (find_first_match (λ g, Regex.matches g.2 lowered) earlier later (d, terms)).
  - intros Hnone. rewrite Hres. unfold firstMatchingDomain.
    by rewrite find_no_match.
  - apply detectContractDomain_is_tag.
  - intros Hfin. subst result. unfold detectContractDomain. fold lowered.
    by rewrite Hfin.
Qed.

(** ** The configuration table *)

Ltac pick_tag :=
  first [ by exists finance | by exists real_estate | by exists insurance
        | by exists healthcare | by exists employment | by exists technology
        | by exists construction | by exists vendor | by exists professional
        | by exists general ].

Lemma resolve_tag (d : DomainTag) :
  ∃ cfg, resolve (tagName d) = Some cfg ∧ thresholdsOrdered (riskThresholds cfg).
Proof.
  destruct d; (eexists; split; [vm_compute; reflexivity|]);
    unfold thresholdsOrdered; simpl; lia.
Qed.

(** C3: the configuration table has an entry for each of the ten domain
    tags, and for no other key, so the lookup succeeds for whatever tag the
    classifier returns; and the thresholds of every entry satisfy
    [0 <= low < medium < high <= 100]. *)
Theorem domainConfig_exhaustive_and_ordered :
  (∀ d : DomainTag,
      ∃ cfg, resolve (tagName d) = Some cfg ∧
             thresholdsOrdered (riskThresholds cfg))
  ∧ (∀ key, is_Some (resolve key) ↔ ∃ d : DomainTag, key = tagName d)
  ∧ (∀ (toLowerCase : string → string) text title,
        ∃ cfg, resolve (detectContractDomain toLowerCase text title) = Some cfg ∧
               thresholdsOrdered (riskThresholds cfg)).
Proof.
  split; [exact resolve_tag|]. split.
  - intros key. split.
    + unfold resolve, domainConfig.
      rewrite <- elem_of_dom, dom_list_to_map_L, elem_of_list_to_set.
      cbn [fmap list_fmap fst].
      rewrite !elem_of_cons, elem_of_nil.
      intros Hkey. decompose [or] Hkey; try done; subst key; pick_tag.
    + intros [d ->]. destruct (resolve_tag d) as (cfg & -> & _). by eexists.
  - intros toLowerCase text title.
    destruct (detectContractDomain_is_tag toLowerCase text title) as [d ->].
    apply resolve_tag.
Qed.

(** C6: the entries the specification quotes. [resolve "finance"] has
    multiplier 1.2 and thresholds 30/60/80, [resolve "vendor"] 0.7 and
    20/45/65, [resolve "general"] 0.9 and 25/50/70. *)
Theorem resolve_named_entries :
  (∃ cfg, resolve "finance" = Some cfg ∧
          penaltyMultiplier cfg = 1.2%Q ∧
          riskThresholds cfg = {| low := 30; medium := 60; high := 80 |})
  ∧ (∃ cfg, resolve "vendor" = Some cfg ∧
            penaltyMultiplier cfg = 0.7%Q ∧
            riskThresholds cfg = {| low := 20; medium := 45; high := 65 |})
  ∧ (∃ cfg, resolve "general" = Some cfg ∧
            penaltyMultiplier cfg = 0.9%Q ∧
            riskThresholds cfg = {| low := 25; medium := 50; high := 70 |}).
Proof.
  repeat split; (eexists; split; [vm_compute; reflexivity|]); split; reflexivity.
Qed.

(** ** zod's parser *)

Section ZodFacts.
Import z.

(** Induction over schemas, with the hypothesis for every field of an
    object shape. *)
Lemma schema_nested_ind (P : schema → Prop) :
  P string_ →
  (∀ checks, P (number_ checks)) →
  (∀ values, P (enum values)) →
  P date →
  (∀ element, P element → P (array element)) →
  (∀ shape, Forall (λ kv, P kv.2) shape → P (object shape)) →
  ∀ s, P s.
Proof.
  intros Hstr Hnum Henum Hdate Harr Hobj.
  fix IH 1. intros [| checks | values | | element | shape].
  - exact Hstr.
  - apply Hnum.
  - apply Henum.
  - exact Hdate.
  - apply Harr, IH.
  - apply Hobj. induction shape as [|[k sk] shape IHshape].
    + constructor.
    + constructor; [apply IH | exact IHshape].
Qed.

Lemma merge_Valid {A} (rs : list (result A)) xs :
  merge rs = Valid xs ↔ rs = Valid <$> xs.
Proof.
  revert xs. induction rs as [|r rs IH]; intros xs; simpl.
  - split; [intros [= <-]; done | by destruct xs].
  - destruct r as [x|errs].
    + destruct (merge rs) as [ys|errs'] eqn:Hm.
      * split.
        -- intros [= <-]. simpl. f_equal. by apply IH.
        -- destruct xs as [|x' xs]; [done|]. intros [= <- Hrs].
           apply IH in Hrs as [= <-]. done.
      * split; [done|]. destruct xs as [|x' xs]; [done|].
        intros [= <- Hrs]. apply IH in Hrs. done.
    + split; [done | by destruct xs].
Qed.

Lemma issuesOf_merge {A} (rs : list (result A)) :
  issuesOf (merge rs) = concat (issuesOf <$> rs).
Proof.
  induction rs as [|r rs IH]; [done|].
  rewrite fmap_cons. cbn [concat merge]. rewrite <- IH.
  destruct r as [x|errs]; [|done].
  by destruct (merge rs).
Qed.

Lemma issuesOf_Invalid {A} (r : result A) i :
  i ∈ issuesOf r → ∃ errs, r = Invalid errs ∧ i ∈ errs.
Proof.
  destruct r as [x|errs]; simpl; [by intros ?%elem_of_nil|]. by exists errs.
Qed.

Lemma issuesOf_object shape p props :
  issuesOf (parse (object shape) p (VObj props)) =
  concat ((λ kv, issuesOf (parse kv.2 (p ++ [Key kv.1]) (getProp kv.1 props)))
            <$> shape).
Proof.
  simpl.
  set (rs := map _ shape).
  assert (concat ((λ kv, issuesOf (parse kv.2 (p ++ [Key kv.1]) (getProp kv.1 props)))
            <$> shape) = issuesOf (merge rs)) as ->.
  { rewrite issuesOf_merge. subst rs. f_equal.
    induction shape as [|[k sk] shape IH]; [done|].
    rewrite !fmap_cons. cbn [map]. by rewrite IH. }
  by destruct (merge rs).
Qed.

Lemma issuesOf_array element p items :
  issuesOf (parse (array element) p (VArr items)) =
  concat (imap (λ i x, issuesOf (parse element (p ++ [Index i]) x)) items).
Proof.
  simpl.
  set (rs := imap _ items).
  assert (concat (imap (λ i x, issuesOf (parse element (p ++ [Index i]) x)) items)
          = issuesOf (merge rs)) as ->.
  { rewrite issuesOf_merge. subst rs. f_equal.
    by rewrite fmap_imap. }
  by destruct (merge rs).
Qed.

Lemma map_is_fmap {A B} (f : A → B) (l : list A) : map f l = f <$> l.
Proof. reflexivity. Qed.

Lemma getProp_zip (keys : list string) (xs : list value) i k x :
  NoDup keys → keys !! i = Some k → xs !! i = Some x →
  getProp k (zip keys xs) = x.
Proof.
  unfold getProp. intros Hnd. revert xs i.
  induction Hnd as [|k' keys Hnotin Hnd IH]; intros xs i Hk Hx; [done|].
  destruct xs as [|x' xs]; [done|]. destruct i as [|i]; simpl in *.
  - injection Hk as ->. injection Hx as ->. by rewrite String.eqb_refl.
  - destruct (String.eqb_spec k k') as [->|_]; [|by eapply IH].
    destruct Hnotin. by eapply list_elem_of_lookup_2.
Qed.

Lemma runChecks_path p p' n checks :
  flat_map (runCheck p n) checks = [] → flat_map (runCheck p' n) checks = [].
Proof.
  induction checks as [|c checks IH]; cbn [flat_map]; [done|].
  intros [Hc Hrest]%app_eq_nil. rewrite (IH Hrest), app_nil_r.
  destruct c as [b|b]; cbn [runCheck] in *.
  - by destruct (num_lt n (Finite b)).
  - by destruct (num_lt (Finite b) n).
Qed.

Lemma parse_array_Valid element p v r :
  parse (array element) p v = Valid r ↔
  ∃ items xs, v = VArr items ∧ r = VArr xs ∧
              imap (λ i x, parse element (p ++ [Index i]) x) items = Valid <$> xs.
Proof.
  split.
  - destruct v; try done. simpl.
    destruct (merge _) as [xs|] eqn:Hm; [|done]. intros [= <-].
    apply merge_Valid in Hm. eauto.
  - intros (items & xs & -> & -> & Hm). simpl.
    apply merge_Valid in Hm. by rewrite Hm.
Qed.

Lemma parse_object_Valid shape p v r :
  parse (object shape) p v = Valid r ↔
  ∃ props xs, v = VObj props ∧ r = VObj (zip shape.*1 xs) ∧
              (λ kv, parse kv.2 (p ++ [Key kv.1]) (getProp kv.1 props)) <$> shape
              = Valid <$> xs.
Proof.
  assert (∀ props,
    map (λ '(k, sk), parse sk (p ++ [Key k]) (getProp k props)) shape =
    (λ kv, parse kv.2 (p ++ [Key kv.1]) (getProp kv.1 props)) <$> shape) as Hmap.
  { intros props. rewrite map_is_fmap. apply list_fmap_ext. by intros ? [??]. }
  split.
  - destruct v; try done. simpl. rewrite Hmap.
    destruct (merge _) as [xs|] eqn:Hm; [|done]. simpl. intros [= <-].
    apply merge_Valid in Hm. eauto.
  - intros (props & xs & -> & -> & Hm). simpl. rewrite Hmap.
    apply merge_Valid in Hm. by rewrite Hm.
Qed.

(** Re-parsing accepted data accepts it and returns it unchanged. *)
Lemma parse_idempotent s :
  wellFormed s = true →
  ∀ p v r, parse s p v = Valid r → ∀ p', parse s p' r = Valid r.
Proof.
  induction s as [| checks | values | | element IH | shape IH]
    using schema_nested_ind; intros Hwf p v r Hparse p'.
  - destruct v; try done. by injection Hparse as <-.
  - destruct v as [| | | n | | | |]; try done. destruct n; try done; simpl in *.
    + destruct (flat_map _ checks) eqn:Hchecks; [|done]. injection Hparse as <-.
      simpl. by rewrite (runChecks_path _ p' _ _ Hchecks).
    + destruct (flat_map _ checks) eqn:Hchecks; [|done]. injection Hparse as <-.
      simpl. by rewrite (runChecks_path _ p' _ _ Hchecks).
  - destruct v; try done. simpl in *.
    destruct (existsb _ values) eqn:Hin; [|done]. injection Hparse as <-.
    simpl. by rewrite Hin.
  - destruct v as [| | | | | [t|] | |]; try done. by injection Hparse as <-.
  - apply parse_array_Valid in Hparse as (items & xs & -> & -> & Hitems).
    apply parse_array_Valid. exists xs, xs. split; [done|]. split; [done|].
    apply list_eq. intros i.
    apply (f_equal (λ l, l !! i)) in Hitems.
    rewrite list_lookup_imap, list_lookup_fmap in Hitems.
    rewrite list_lookup_imap, list_lookup_fmap.
    destruct (xs !! i) as [x|] eqn:Hx; [|done].
    destruct (items !! i) as [y|]; [|done]. simpl in *.
    injection Hitems as Hy. f_equal. by eapply IH.
  - simpl in Hwf. apply andb_true_iff in Hwf as [Hnd Hwf].
    apply bool_decide_eq_true in Hnd.
    apply parse_object_Valid in Hparse as (props & xs & -> & -> & Hfields).
    apply parse_object_Valid. exists (zip shape.*1 xs), xs.
    split; [done|]. split; [done|].
    apply list_eq. intros i.
    apply (f_equal (λ l, l !! i)) in Hfields.
    rewrite !list_lookup_fmap in Hfields. rewrite !list_lookup_fmap.
    destruct (shape !! i) as [[k sk]|] eqn:Hi; [|done].
    destruct (xs !! i) as [x|] eqn:Hx; [|done]. simpl in *.
    injection Hfields as Hfield. f_equal.
    rewrite (getProp_zip shape.*1 xs i k x); [| done | | done].
    + rewrite Forall_lookup in IH. eapply (IH i (k, sk) Hi); [|done].
      rewrite forallb_forall in Hwf.
      apply (Hwf (k, sk)), list_elem_of_In. by eapply list_elem_of_lookup_2.
    + by rewrite list_lookup_fmap, Hi.
Qed.

Lemma elem_of_concat_lookup {A} (ls : list (list A)) i l x :
  ls !! i = Some l → x ∈ l → x ∈ concat ls.
Proof.
  revert i. induction ls as [|l' ls IH]; intros i Hi Hx; [done|].
  simpl. apply elem_of_app. destruct i as [|i]; simpl in Hi.
  - injection Hi as ->. by left.
  - right. by eapply IH.
Qed.

(** An issue of a field is an issue of the object. *)
Lemma object_field_issue shape p props i k sk iss :
  shape !! i = Some (k, sk) →
  iss ∈ issuesOf (parse sk (p ++ [Key k]) (getProp k props)) →
  iss ∈ issuesOf (parse (object shape) p (VObj props)).
Proof.
  intros Hi Hiss. rewrite issuesOf_object.
  eapply elem_of_concat_lookup; [|exact Hiss].
  by rewrite list_lookup_fmap, Hi.
Qed.

(** An issue of an item is an issue of the array. *)
Lemma array_item_issue element p items i x iss :
  items !! i = Some x →
  iss ∈ issuesOf (parse element (p ++ [Index i]) x) →
  iss ∈ issuesOf (parse (array element) p (VArr items)).
Proof.
  intros Hi Hiss. rewrite issuesOf_array.
  eapply elem_of_concat_lookup; [|exact Hiss].
  by rewrite list_lookup_imap, Hi.
Qed.

(** The data of an accepted object holds, under each key of the shape, the
    data of that field. *)
Lemma parse_object_field shape p v r i k sk :
  NoDup shape.*1 →
  parse (object shape) p v = Valid r →
  shape !! i = Some (k, sk) →
  parse sk (p ++ [Key k]) (get k v) = Valid (get k r).
Proof.
  intros Hnd (props & xs & -> & -> & Hfields)%parse_object_Valid Hi.
  apply (f_equal (λ l, l !! i)) in Hfields.
  rewrite !list_lookup_fmap, Hi in Hfields. simpl in Hfields.
  destruct (xs !! i) as [x|] eqn:Hx; [|done]. injection Hfields as Hfield.
  cbn [get]. rewrite Hfield. f_equal.
  symmetry. apply (getProp_zip _ _ i); [done | | done].
  by rewrite list_lookup_fmap, Hi.
Qed.

Lemma parse_number_Valid checks p x y :
  parse (number_ checks) p x = Valid y → y = x.
Proof.
  destruct x as [| | | n | | | |]; try done. destruct n; try done; simpl;
    destruct (flat_map _ checks); congruence.
Qed.

Lemma parse_score_issue hi p n :
  inRange hi n = false →
  ∃ c, Issue p c ∈ issuesOf (parse (number_ [Min 0; Max hi]) p (VNum n)).
Proof.
  destruct n as [|[]|q]; simpl.
  - intros _. exists invalid_type. apply list_elem_of_here.
  - intros _. exists too_small. apply list_elem_of_here.
  - intros _. exists too_big. apply list_elem_of_here.
  - destruct (Qle_bool 0 q), (Qle_bool q hi); simpl; try done; intros _.
    + exists too_big. apply list_elem_of_here.
    + exists too_small. apply list_elem_of_here.
    + exists too_small. apply list_elem_of_here.
Qed.

Lemma parse_score_Valid hi p x y :
  parse (number_ [Min 0; Max hi]) p x = Valid y →
  ∃ n, x = VNum n ∧ y = VNum n ∧ inRange hi n = true.
Proof.
  destruct x as [| | | n | | | |]; try done. destruct n as [|[]|q]; try done.
  simpl. destruct (Qle_bool 0 q) eqn:Hlo, (Qle_bool q hi) eqn:Hhi; simpl; try done.
  intros [= <-]. exists (Finite q). simpl. by rewrite Hlo, Hhi.
Qed.

(** The verdict on an object depends only on what it holds under the keys
    of the shape. *)
Lemma parse_object_ext shape p props props' :
  (∀ k sk, (k, sk) ∈ shape →
           parse sk (p ++ [Key k]) (getProp k props)
           = parse sk (p ++ [Key k]) (getProp k props')) →
  parse (object shape) p (VObj props) = parse (object shape) p (VObj props').
Proof.
  intros Hext. cbn [parse].
  assert (map (λ '(k, sk), parse sk (p ++ [Key k]) (getProp k props)) shape
          = map (λ '(k, sk), parse sk (p ++ [Key k]) (getProp k props')) shape) as ->;
    [|done].
  apply map_ext_in. intros [k sk] Hin. by apply Hext, list_elem_of_In.
Qed.

Lemma parse_score_ok hi p n :
  inRange hi n = true →
  parse (number_ [Min 0; Max hi]) p (VNum n) = Valid (VNum n).
Proof.
  destruct n as [|[]|q]; try done. simpl.
  by destruct (Qle_bool 0 q), (Qle_bool q hi).
Qed.

Lemma parse_number_ok p n :
  notNaN n = true → parse (number_ []) p (VNum n) = Valid (VNum n).
Proof. by destruct n. Qed.

Lemma parse_number_invalid_type checks p x :
  isNumber x = false → parse (number_ checks) p x = Invalid [Issue p invalid_type].
Proof. destruct x as [| | | n | | | |]; try done. by destruct n. Qed.

Lemma parse_string_invalid_type p x :
  isString x = false → parse string_ p x = Invalid [Issue p invalid_type].
Proof. by destruct x. Qed.

(** An array whose items are all accepted unchanged is accepted
    unchanged. *)
Lemma parse_array_fmap_ok {A} (f : A → value) element p (l : list A) :
  (∀ x p', x ∈ l → parse element p' (f x) = Valid (f x)) →
  parse (array element) p (VArr (f <$> l)) = Valid (VArr (f <$> l)).
Proof.
  intros Hitems. apply parse_array_Valid. exists (f <$> l), (f <$> l).
  split; [done|]. split; [done|].
  apply list_eq. intros i.
  rewrite list_lookup_imap, !list_lookup_fmap.
  destruct (l !! i) as [x|] eqn:Hi; [|done]. simpl. f_equal.
  apply Hitems. by eapply list_elem_of_lookup_2.
Qed.

End ZodFacts.

(** ** Validation *)

Lemma contractAnalysisSchema_wellFormed : z.wellFormed contractAnalysisSchema = true.
Proof. vm_compute. reflexivity. Qed.

Example validate_exampleCandidate :
  validate exampleCandidate = z.Valid (ContractAnalysis.toValue exampleAnalysis).
Proof. vm_compute. reflexivity. Qed.

(** The parse of the schema is idempotent. A record that it has accepted
    is accepted again, and the second result is that very record: no
    field, [id] and [analysisDate] included, is changed. *)
Lemma validate_idempotent candidate accepted :
  validate candidate = z.Valid accepted →
  validate accepted = z.Valid accepted.
Proof.
  intros Haccepted.
  exact (parse_idempotent contractAnalysisSchema contractAnalysisSchema_wellFormed
           [] candidate accepted Haccepted []).
Qed.

(** The sample candidate is accepted, so its accepted record is accepted
    again as it is. *)
Lemma validate_idempotent_witness :
  validate (ContractAnalysis.toValue exampleAnalysis)
  = z.Valid (ContractAnalysis.toValue exampleAnalysis).
Proof.
  apply (validate_idempotent exampleCandidate). vm_compute. reflexivity.
Defined.

Lemma contractAnalysisSchema_keys_NoDup :
  ∀ shape, contractAnalysisSchema = z.object shape → NoDup shape.*1.
Proof. intros shape [= <-]. apply (bool_decide_eq_true_1 _). vm_compute. reflexivity. Qed.

Lemma clauseSchema_keys_NoDup :
  ∀ shape, clauseSchema = z.object shape → NoDup shape.*1.
Proof. intros shape [= <-]. apply (bool_decide_eq_true_1 _). vm_compute. reflexivity. Qed.

Lemma riskBreakdownSchema_keys_NoDup :
  ∀ shape, riskBreakdownSchema = z.object shape → NoDup shape.*1.
Proof. intros shape [= <-]. apply (bool_decide_eq_true_1 _). vm_compute. reflexivity. Qed.

Lemma fmap_Some_eq {A B C} (f : A → C) (g : B → C) a b :
  f <$> Some a = g <$> Some b → f a = g b.
Proof. by intros [= ?]. Qed.

Lemma get_VNum_object k v n : get k v = VNum n → ∃ props, v = VObj props.
Proof. destruct v; try done. eauto. Qed.

(** An out-of-range top-level score is reported at its key. *)
Lemma validate_top_score_issue v i k hi n :
  (∃ shape, contractAnalysisSchema = z.object shape ∧
            shape !! i = Some (k, z.number_ [z.Min 0; z.Max hi])) →
  get k v = VNum n → inRange hi n = false →
  ∃ c, z.Issue [z.Key k] c ∈ z.issuesOf (validate v).
Proof.
  intros (shape & Hschema & Hi) Hget Hout.
  destruct (get_VNum_object _ _ _ Hget) as [props ->]. simpl in Hget.
  destruct (parse_score_issue hi [z.Key k] n Hout) as [c Hc].
  exists c. unfold validate. rewrite Hschema.
  eapply object_field_issue; [exact Hi|]. by rewrite Hget.
Qed.

(** The keys of [riskBreakdownSchema] are the five categories. *)
Lemma breakdownCategories_lookup k :
  k ∈ breakdownCategories →
  ∃ j shape, riskBreakdownSchema = z.object shape ∧
             shape !! j = Some (k, z.number_ [z.Min 0; z.Max 100]).
Proof.
  unfold breakdownCategories. rewrite !elem_of_cons, elem_of_nil.
  intros [->|[->|[->|[->|[->|[]]]]]];
    [exists 0 | exists 1 | exists 2 | exists 3 | exists 4];
    eexists; split; reflexivity.
Qed.

(** An issue of a category of [riskBreakdown] is an issue of the
    candidate. *)
Lemma validate_breakdown_field_issue v rb k iss :
  get "riskBreakdown" v = VObj rb → k ∈ breakdownCategories →
  iss ∈ z.issuesOf (z.parse (z.number_ [z.Min 0; z.Max 100])
                      [z.Key "riskBreakdown"; z.Key k] (getProp k rb)) →
  iss ∈ z.issuesOf (validate v).
Proof.
  intros Hrb Hk Hiss.
  assert (∃ props, v = VObj props) as [props ->] by (destruct v; try done; eauto).
  simpl in Hrb.
  destruct (breakdownCategories_lookup k Hk) as (j & shape & Hschema & Hj).
  unfold validate, contractAnalysisSchema.
  eapply (object_field_issue _ _ _ 7); [reflexivity|]. rewrite Hrb, Hschema.
  eapply object_field_issue; [exact Hj|]. exact Hiss.
Qed.

(** An out-of-range sub-score of [riskBreakdown] is reported at its key. *)
Lemma validate_breakdown_issue v k n :
  k ∈ breakdownCategories →
  get k (get "riskBreakdown" v) = VNum n → inRange 100 n = false →
  ∃ c, z.Issue [z.Key "riskBreakdown"; z.Key k] c ∈ z.issuesOf (validate v).
Proof.
  intros Hk Hget Hout.
  destruct (get_VNum_object _ _ _ Hget) as [rb Hrb]. rewrite Hrb in Hget.
  simpl in Hget.
  destruct (parse_score_issue 100 [z.Key "riskBreakdown"; z.Key k] n Hout) as [c Hc].
  exists c. eapply validate_breakdown_field_issue; [done..|]. by rewrite Hget.
Qed.

(** An out-of-range clause score is reported at the clause's index. *)
Lemma validate_clause_issue v cs i c n :
  get "clauses" v = VArr cs → cs !! i = Some c →
  get "riskScore" c = VNum n → inRange 100 n = false →
  ∃ code, z.Issue [z.Key "clauses"; z.Index i; z.Key "riskScore"] code
            ∈ z.issuesOf (validate v).
Proof.
  intros Hcs Hi Hget Hout.
  destruct (get_VNum_object _ _ _ Hget) as [cprops ->]. simpl in Hget.
  assert (∃ props, v = VObj props) as [props ->] by (destruct v; try done; eauto).
  simpl in Hcs.
  destruct (parse_score_issue 100 [z.Key "clauses"; z.Index i; z.Key "riskScore"] n Hout)
    as [code Hcode].
  exists code. unfold validate, contractAnalysisSchema.
  eapply (object_field_issue _ _ _ 4); [reflexivity|]. rewrite Hcs.
  eapply array_item_issue; [exact Hi|]. unfold clauseSchema.
  eapply (object_field_issue _ _ _ 4); [reflexivity|]. by rewrite Hget.
Qed.

(** The accepted record holds the candidate's own scores. *)
Lemma validate_keeps_scores v r :
  validate v = z.Valid r → scoreFields r = scoreFields v.
Proof.
  unfold validate, contractAnalysisSchema. intros Hvalid.
  pose proof (contractAnalysisSchema_keys_NoDup _ eq_refl) as Hnd.
  pose proof (parse_object_field _ _ _ _ 3 _ _ Hnd Hvalid eq_refl) as Hscore.
  pose proof (parse_object_field _ _ _ _ 4 _ _ Hnd Hvalid eq_refl) as Hclauses.
  pose proof (parse_object_field _ _ _ _ 7 _ _ Hnd Hvalid eq_refl) as Hbreakdown.
  pose proof (parse_object_field _ _ _ _ 9 _ _ Hnd Hvalid eq_refl) as Hconfidence.
  apply parse_number_Valid in Hscore, Hconfidence.
  pose proof (riskBreakdownSchema_keys_NoDup _ eq_refl) as Hnd'.
  unfold riskBreakdownSchema in Hbreakdown.
  pose proof (parse_object_field _ _ _ _ 0 _ _ Hnd' Hbreakdown eq_refl) as Hb0.
  pose proof (parse_object_field _ _ _ _ 1 _ _ Hnd' Hbreakdown eq_refl) as Hb1.
  pose proof (parse_object_field _ _ _ _ 2 _ _ Hnd' Hbreakdown eq_refl) as Hb2.
  pose proof (parse_object_field _ _ _ _ 3 _ _ Hnd' Hbreakdown eq_refl) as Hb3.
  pose proof (parse_object_field _ _ _ _ 4 _ _ Hnd' Hbreakdown eq_refl) as Hb4.
  apply parse_number_Valid in Hb0, Hb1, Hb2, Hb3, Hb4.
  apply parse_array_Valid in Hclauses as (items & xs & Hitems & Hxs & Hrel).
  unfold scoreFields, breakdownCategories. cbn [map].
  rewrite Hscore, Hconfidence, Hb0, Hb1, Hb2, Hb3, Hb4, Hitems, Hxs.
  f_equal. f_equal. apply list_eq. intros i.
  apply (f_equal (λ l, l !! i)) in Hrel.
  rewrite list_lookup_imap, list_lookup_fmap in Hrel.
  rewrite !list_lookup_imap.
  destruct (items !! i) as [c|], (xs !! i) as [c'|]; try done.
  apply fmap_Some_eq in Hrel as Hc.
  cbn [fmap option_fmap option_map]. do 2 f_equal.
  pose proof (clauseSchema_keys_NoDup _ eq_refl) as Hndc.
  unfold clauseSchema in Hc.
  pose proof (parse_object_field _ _ _ _ 4 _ _ Hndc Hc eq_refl) as Hcs.
  by apply parse_number_Valid in Hcs.
Qed.

(** Every score of an accepted candidate is a number within its range. *)
Lemma validate_scores_in_range v r p hi x :
  validate v = z.Valid r → (p, hi, x) ∈ scoreFields v →
  ∃ n, x = VNum n ∧ inRange hi n = true.
Proof.
  unfold validate, contractAnalysisSchema. intros Hvalid Hin.
  pose proof (contractAnalysisSchema_keys_NoDup _ eq_refl) as Hnd.
  pose proof (parse_object_field _ _ _ _ 3 _ _ Hnd Hvalid eq_refl) as Hscore.
  pose proof (parse_object_field _ _ _ _ 4 _ _ Hnd Hvalid eq_refl) as Hclauses.
  pose proof (parse_object_field _ _ _ _ 7 _ _ Hnd Hvalid eq_refl) as Hbreakdown.
  pose proof (parse_object_field _ _ _ _ 9 _ _ Hnd Hvalid eq_refl) as Hconfidence.
  unfold scoreFields in Hin.
  rewrite !elem_of_app, !elem_of_cons, elem_of_nil in Hin.
  destruct Hin as [[Hin|[Hin|[]]]|[Hin|Hin]].
  - injection Hin as -> -> ->.
    apply parse_score_Valid in Hscore as (n & Hn & _ & Hrange). by exists n.
  - injection Hin as -> -> ->.
    apply parse_score_Valid in Hconfidence as (n & Hn & _ & Hrange). by exists n.
  - rewrite map_is_fmap in Hin.
    apply list_elem_of_fmap in Hin as (k & [= -> -> ->] & Hk).
    pose proof (riskBreakdownSchema_keys_NoDup _ eq_refl) as Hnd'.
    unfold riskBreakdownSchema in Hbreakdown.
    unfold breakdownCategories in Hk. rewrite !elem_of_cons, elem_of_nil in Hk.
    destruct Hk as [->|[->|[->|[->|[->|[]]]]]].
    + pose proof (parse_object_field _ _ _ _ 0 _ _ Hnd' Hbreakdown eq_refl) as Hb.
      apply parse_score_Valid in Hb as (n & Hn & _ & Hrange). by exists n.
    + pose proof (parse_object_field _ _ _ _ 1 _ _ Hnd' Hbreakdown eq_refl) as Hb.
      apply parse_score_Valid in Hb as (n & Hn & _ & Hrange). by exists n.
    + pose proof (parse_object_field _ _ _ _ 2 _ _ Hnd' Hbreakdown eq_refl) as Hb.
      apply parse_score_Valid in Hb as (n & Hn & _ & Hrange). by exists n.
    + pose proof (parse_object_field _ _ _ _ 3 _ _ Hnd' Hbreakdown eq_refl) as Hb.
      apply parse_score_Valid in Hb as (n & Hn & _ & Hrange). by exists n.
    + pose proof (parse_object_field _ _ _ _ 4 _ _ Hnd' Hbreakdown eq_refl) as Hb.
      apply parse_score_Valid in Hb as (n & Hn & _ & Hrange). by exists n.
  - apply parse_array_Valid in Hclauses as (items & xs & Hitems & Hxs & Hrel).
    rewrite Hitems in Hin.
    apply elem_of_lookup_imap in Hin as (i & c & [= -> -> ->] & Hi).
    apply (f_equal (λ l, l !! i)) in Hrel.
    rewrite list_lookup_imap, list_lookup_fmap, Hi in Hrel.
    destruct (xs !! i) as [c'|]; [|done]. apply fmap_Some_eq in Hrel as Hc.
    pose proof (clauseSchema_keys_NoDup _ eq_refl) as Hndc.
    unfold clauseSchema in Hc.
    pose proof (parse_object_field _ _ _ _ 4 _ _ Hndc Hc eq_refl) as Hcs.
    apply parse_score_Valid in Hcs as (n & Hn & _ & Hrange). by exists n.
Qed.

Example validate_riskScore_150 :
  validate (VObj (setProp "riskScore" (VNum (Finite 150))
                    (ownProps (ContractAnalysis.toValue exampleAnalysis))))
  = z.Invalid [z.Issue [z.Key "riskScore"] z.too_big].
Proof. vm_compute. reflexivity. Qed.

Example validate_confidence_negative :
  validate (VObj (setProp "confidence" (VNum (Finite (-0.1)))
                    (ownProps (ContractAnalysis.toValue exampleAnalysis))))
  = z.Invalid [z.Issue [z.Key "confidence"] z.too_small].
Proof. vm_compute. reflexivity. Qed.

Example validate_clause_riskScore_NaN :
  validate (VObj (setProp "clauses"
                    (VArr [VObj (setProp "riskScore" (VNum NaN)
                                   (ownProps (Clause.toValue exampleClause)))])
                    (ownProps (ContractAnalysis.toValue exampleAnalysis))))
  = z.Invalid [z.Issue [z.Key "clauses"; z.Index 0; z.Key "riskScore"] z.invalid_type].
Proof. vm_compute. reflexivity. Qed.

(** C4: a candidate with a score field outside its range (the top-level
    [riskScore], a clause's [riskScore] or a sub-score of [riskBreakdown]
    outside [0,100], or [confidence] outside [0,1]) is rejected, with an
    issue at the path of that field; and a candidate that is accepted keeps
    its own scores: none is replaced by another value. *)
Theorem validate_rejects_out_of_range v :
  (∀ p hi n,
      (p, hi, VNum n) ∈ scoreFields v → inRange hi n = false →
      ∃ issues code, validate v = z.Invalid issues ∧ z.Issue p code ∈ issues)
  ∧ (∀ r, validate v = z.Valid r →
          scoreFields r = scoreFields v ∧
          ∀ p hi x, (p, hi, x) ∈ scoreFields v →
                    ∃ n, x = VNum n ∧ inRange hi n = true).
Proof.
  assert (∀ p hi n,
      (p, hi, VNum n) ∈ scoreFields v → inRange hi n = false →
      ∃ issues code, validate v = z.Invalid issues ∧ z.Issue p code ∈ issues) as Hreject.
  { intros p hi n Hin Hout.
    assert (∃ code, z.Issue p code ∈ z.issuesOf (validate v)) as [code Hcode].
    { unfold scoreFields in Hin.
      rewrite !elem_of_app, !elem_of_cons, elem_of_nil in Hin.
      destruct Hin as [[Hin|[Hin|[]]]|[Hin|Hin]].
      - injection Hin as -> -> Hget.
        apply (validate_top_score_issue v 3 "riskScore" 100 n); [|done..].
        eexists. split; reflexivity.
      - injection Hin as -> -> Hget.
        apply (validate_top_score_issue v 9 "confidence" 1 n); [|done..].
        eexists. split; reflexivity.
      - rewrite map_is_fmap in Hin.
        apply list_elem_of_fmap in Hin as (k & [= -> -> Hget] & Hk).
        by apply (validate_breakdown_issue v k n).
      - destruct (get "clauses" v) as [| | | | | |cs|] eqn:Hcs;
          try by apply elem_of_nil in Hin.
        apply elem_of_lookup_imap in Hin as (i & c & [= -> -> Hget] & Hi).
        by apply (validate_clause_issue v cs i c n). }
    apply issuesOf_Invalid in Hcode as (issues & Hinvalid & Hcode). eauto. }
  split; [exact Hreject|].
  intros r Hvalid. split; [by apply validate_keeps_scores|].
  intros p hi x Hin. by eapply validate_scores_in_range.
Qed.

Lemma getProp_setProp_eq k x props : getProp k (setProp k x props) = x.
Proof.
  unfold getProp. induction props as [|[k' v] props IH]; simpl.
  - by rewrite String.eqb_refl.
  - destruct (String.eqb_spec k k') as [->|Hne]; simpl.
    + by rewrite String.eqb_refl.
    + by destruct (String.eqb_spec k k').
Qed.

Lemma getProp_setProp_ne k k' x props :
  k ≠ k' → getProp k' (setProp k x props) = getProp k' props.
Proof.
  unfold getProp. intros Hne. induction props as [|[k'' v] props IH]; simpl.
  - by destruct (String.eqb_spec k' k) as [->|_].
  - destruct (String.eqb_spec k k'') as [->|Hne']; simpl.
    + by destruct (String.eqb_spec k' k'') as [->|_].
    + destruct (String.eqb_spec k' k''); [done | exact IH].
Qed.

(** A property of [riskBreakdown] that is not one of the five categories
    has no part in the verdict. *)
Lemma validate_ignores_other_categories props rb k x :
  k ∉ breakdownCategories →
  validate (VObj (setProp "riskBreakdown" (VObj (setProp k x rb)) props))
  = validate (VObj (setProp "riskBreakdown" (VObj rb) props)).
Proof.
  intros Hk. unfold validate, contractAnalysisSchema.
  apply parse_object_ext. intros key sk Hin.
  rewrite !elem_of_cons, elem_of_nil in Hin.
  repeat (destruct Hin as [Hin|Hin];
          [injection Hin as -> ->; try by rewrite !getProp_setProp_ne|]);
    [|done].
  rewrite !getProp_setProp_eq. unfold riskBreakdownSchema.
  apply parse_object_ext. intros c sc Hc.
  rewrite getProp_setProp_ne; [done|]. intros <-. apply Hk.
  unfold breakdownCategories.
  rewrite !elem_of_cons, elem_of_nil in Hc. rewrite !elem_of_cons, elem_of_nil.
  destruct Hc as [Hc|[Hc|[Hc|[Hc|[Hc|[]]]]]]; injection Hc as -> _; tauto.
Qed.

Example validate_exampleFourCategories :
  z.issuesOf (validate exampleFourCategories)
  = [z.Issue [z.Key "riskBreakdown"; z.Key "intellectual_property"] z.invalid_type].
Proof. vm_compute. reflexivity. Qed.

(** C5, as stated, fails: a sixth category in [riskBreakdown] does not make
    validation reject the candidate; it is accepted, and the accepted record
    is the sample analysis with its five categories. *)
Lemma validate_accepts_sixth_category :
  get "compliance" (get "riskBreakdown" exampleSixCategories) = VNum (Finite 50) ∧
  validate exampleSixCategories = z.Valid (ContractAnalysis.toValue exampleAnalysis).
Proof. split; vm_compute; reflexivity. Qed.

(** C5, amended: a candidate whose [riskBreakdown] lacks one of the five
    categories payment, liability, termination, confidentiality and
    intellectual_property is rejected with an [invalid_type] issue at that
    category; properties of [riskBreakdown] beyond the five are not
    rejected: they have no part in the verdict, and the [riskBreakdown] of an
    accepted record consists of exactly the five categories, with the
    candidate's values. *)
Theorem validate_riskBreakdown_categories v :
  (∀ rb k,
      get "riskBreakdown" v = VObj rb → k ∈ breakdownCategories →
      lookupProp k rb = None →
      ∃ issues, validate v = z.Invalid issues ∧
                z.Issue [z.Key "riskBreakdown"; z.Key k] z.invalid_type ∈ issues)
  ∧ (∀ props rb k x,
        v = VObj (setProp "riskBreakdown" (VObj rb) props) →
        k ∉ breakdownCategories →
        validate (VObj (setProp "riskBreakdown" (VObj (setProp k x rb)) props))
        = validate v)
  ∧ (∀ r, validate v = z.Valid r →
          ∃ fields, get "riskBreakdown" r = VObj fields ∧
                    fields.*1 = breakdownCategories ∧
                    ∀ k, k ∈ breakdownCategories →
                         getProp k fields = get k (get "riskBreakdown" v)).
Proof.
  repeat split.
  - intros rb k Hrb Hk Hmissing.
    apply issuesOf_Invalid.
    eapply validate_breakdown_field_issue; [done..|].
    unfold getProp. rewrite Hmissing. apply list_elem_of_here.
  - intros props rb k x -> Hk. by apply validate_ignores_other_categories.
  - unfold validate, contractAnalysisSchema. intros r Hvalid.
    pose proof (contractAnalysisSchema_keys_NoDup _ eq_refl) as Hnd.
    pose proof (parse_object_field _ _ _ _ 7 _ _ Hnd Hvalid eq_refl) as Hbreakdown.
    pose proof (riskBreakdownSchema_keys_NoDup _ eq_refl) as Hnd'.
    unfold riskBreakdownSchema in Hbreakdown.
    pose proof Hbreakdown as (rb & xs & Hrb & Hfields & Hrel)%parse_object_Valid.
    exists (zip breakdownCategories xs). split; [exact Hfields|]. split.
    + apply fst_zip. apply (f_equal length) in Hrel.
      rewrite !length_fmap in Hrel. by rewrite <- Hrel.
    + intros k Hk.
      destruct (breakdownCategories_lookup k Hk) as (j & shape & [= <-] & Hj).
      pose proof (parse_object_field _ _ _ _ j _ _ Hnd' Hbreakdown Hj) as Hb.
      apply parse_number_Valid in Hb. by rewrite Hfields in Hb.
Qed.

(** ** Records of the inferred types *)

Lemma Clause_toValue_Valid c p :
  clauseOk c = true →
  z.parse clauseSchema p (Clause.toValue c) = z.Valid (Clause.toValue c).
Proof.
  unfold clauseOk. rewrite !andb_true_iff. intros [[Hscore Hstart] Hend].
  destruct c as [id title content level score explanation suggestions s e].
  cbn [Clause.riskScore Clause.startIndex Clause.endIndex] in *.
  apply parse_object_Valid.
  exists (ownProps (Clause.toValue
            (Clause.Build_t id title content level score explanation suggestions s e))),
         [VStr id; VStr title; VStr content; VStr (riskLevelName level); VNum score;
          VStr explanation; VArr (VStr <$> suggestions); VNum s; VNum e].
  split; [reflexivity|]. split; [reflexivity|].
  cbn [fmap list_fmap].
  repeat (apply (f_equal2 cons); [|]); try reflexivity.
  - by destruct level.
  - exact (parse_score_ok _ _ _ Hscore).
  - exact (parse_array_fmap_ok VStr z.string_ _ suggestions (λ _ _ _, eq_refl)).
  - exact (parse_number_ok _ _ Hstart).
  - exact (parse_number_ok _ _ Hend).
Qed.

Lemma KeyIssue_toValue_Valid k p :
  z.parse keyIssueSchema p (KeyIssue.toValue k) = z.Valid (KeyIssue.toValue k).
Proof.
  destruct k as [id title description level clause suggestion].
  apply parse_object_Valid.
  exists (ownProps (KeyIssue.toValue
            (KeyIssue.Build_t id title description level clause suggestion))),
         [VStr id; VStr title; VStr description; VStr (riskLevelName level);
          VStr clause; VStr suggestion].
  split; [reflexivity|]. split; [reflexivity|].
  cbn [fmap list_fmap].
  repeat (apply (f_equal2 cons); [|]); try reflexivity.
  by destruct level.
Qed.

Lemma MissingProtection_toValue_Valid m p :
  z.parse missingProtectionSchema p (MissingProtection.toValue m)
  = z.Valid (MissingProtection.toValue m).
Proof.
  destruct m as [id title description importance sample].
  apply parse_object_Valid.
  exists (ownProps (MissingProtection.toValue
            (MissingProtection.Build_t id title description importance sample))),
         [VStr id; VStr title; VStr description; VStr (importanceName importance);
          VStr sample].
  split; [reflexivity|]. split; [reflexivity|].
  cbn [fmap list_fmap].
  repeat (apply (f_equal2 cons); [|]); try reflexivity.
  by destruct importance.
Qed.

Lemma RiskBreakdown_toValue_Valid r p :
  breakdownOk r = true →
  z.parse riskBreakdownSchema p (RiskBreakdown.toValue r)
  = z.Valid (RiskBreakdown.toValue r).
Proof.
  unfold breakdownOk. rewrite !andb_true_iff. intros [[[[H1 H2] H3] H4] H5].
  destruct r as [n1 n2 n3 n4 n5].
  cbn [RiskBreakdown.payment RiskBreakdown.liability RiskBreakdown.termination
       RiskBreakdown.confidentiality RiskBreakdown.intellectual_property] in *.
  apply parse_object_Valid.
  exists (ownProps (RiskBreakdown.toValue (RiskBreakdown.Build_t n1 n2 n3 n4 n5))),
         [VNum n1; VNum n2; VNum n3; VNum n4; VNum n5].
  split; [reflexivity|]. split; [reflexivity|].
  cbn [fmap list_fmap].
  repeat (apply (f_equal2 cons); [|]); try reflexivity.
  - exact (parse_score_ok _ _ _ H1).
  - exact (parse_score_ok _ _ _ H2).
  - exact (parse_score_ok _ _ _ H3).
  - exact (parse_score_ok _ _ _ H4).
  - exact (parse_score_ok _ _ _ H5).
Qed.

(** A record of type [ContractAnalysis] whose scores are in range, whose
    clause indices are not [NaN] and whose date is valid is accepted as it
    is. *)
Lemma ContractAnalysis_toValue_Valid a :
  analysisOk a = true →
  validate (ContractAnalysis.toValue a) = z.Valid (ContractAnalysis.toValue a).
Proof.
  unfold analysisOk. rewrite !andb_true_iff.
  intros [[[[Hscore Hclauses] Hbreakdown] Hconfidence] Hdate].
  apply bool_decide_eq_true in Hdate as [t Hdate].
  destruct a as [id title content score clauses issues missing breakdown summary
                   confidence date].
  cbn [ContractAnalysis.riskScore ContractAnalysis.clauses
       ContractAnalysis.riskBreakdown ContractAnalysis.confidence
       ContractAnalysis.analysisDate] in *.
  subst date. unfold validate. apply parse_object_Valid.
  exists (ownProps (ContractAnalysis.toValue
            (ContractAnalysis.Build_t id title content score clauses issues missing
               breakdown summary confidence (Some t)))),
         [VStr id; VStr title; VStr content; VNum score;
          VArr (Clause.toValue <$> clauses);
          VArr (KeyIssue.toValue <$> issues);
          VArr (MissingProtection.toValue <$> missing);
          RiskBreakdown.toValue breakdown; VStr summary; VNum confidence;
          VDate (Some t)].
  split; [reflexivity|]. split; [reflexivity|].
  cbn [fmap list_fmap].
  repeat (apply (f_equal2 cons); [|]); try reflexivity.
  - exact (parse_score_ok _ _ _ Hscore).
  - apply (parse_array_fmap_ok Clause.toValue). intros c p' Hc.
    apply Clause_toValue_Valid.
    rewrite forallb_forall in Hclauses. by apply Hclauses, list_elem_of_In.
  - apply (parse_array_fmap_ok KeyIssue.toValue). intros k p' _.
    apply KeyIssue_toValue_Valid.
  - apply (parse_array_fmap_ok MissingProtection.toValue). intros m p' _.
    apply MissingProtection_toValue_Valid.
  - by apply RiskBreakdown_toValue_Valid.
  - exact (parse_score_ok _ _ _ Hconfidence).
Qed.

Lemma parse_number_notNaN checks p n y :
  z.parse (z.number_ checks) p (VNum n) = z.Valid y → notNaN n = true.
Proof. by destruct n. Qed.

Lemma Clause_toValue_accepted c p r :
  z.parse clauseSchema p (Clause.toValue c) = z.Valid r → clauseOk c = true.
Proof.
  unfold clauseSchema. intros Hvalid.
  pose proof (clauseSchema_keys_NoDup _ eq_refl) as Hnd.
  pose proof (parse_object_field _ _ _ _ 4 _ _ Hnd Hvalid eq_refl) as Hscore.
  pose proof (parse_object_field _ _ _ _ 7 _ _ Hnd Hvalid eq_refl) as Hstart.
  pose proof (parse_object_field _ _ _ _ 8 _ _ Hnd Hvalid eq_refl) as Hend.
  change (get "riskScore" (Clause.toValue c)) with (VNum (Clause.riskScore c)) in Hscore.
  change (get "startIndex" (Clause.toValue c)) with (VNum (Clause.startIndex c)) in Hstart.
  change (get "endIndex" (Clause.toValue c)) with (VNum (Clause.endIndex c)) in Hend.
  apply parse_score_Valid in Hscore as (n & [= <-] & _ & Hscore).
  apply parse_number_notNaN in Hstart, Hend.
  unfold clauseOk. by rewrite Hscore, Hstart, Hend.
Qed.

Lemma RiskBreakdown_toValue_accepted b p r :
  z.parse riskBreakdownSchema p (RiskBreakdown.toValue b) = z.Valid r →
  breakdownOk b = true.
Proof.
  unfold riskBreakdownSchema. intros Hvalid.
  pose proof (riskBreakdownSchema_keys_NoDup _ eq_refl) as Hnd.
  pose proof (parse_object_field _ _ _ _ 0 _ _ Hnd Hvalid eq_refl) as H0.
  pose proof (parse_object_field _ _ _ _ 1 _ _ Hnd Hvalid eq_refl) as H1.
  pose proof (parse_object_field _ _ _ _ 2 _ _ Hnd Hvalid eq_refl) as H2.
  pose proof (parse_object_field _ _ _ _ 3 _ _ Hnd Hvalid eq_refl) as H3.
  pose proof (parse_object_field _ _ _ _ 4 _ _ Hnd Hvalid eq_refl) as H4.
  change (get "payment" (RiskBreakdown.toValue b))
    with (VNum (RiskBreakdown.payment b)) in H0.
  change (get "liability" (RiskBreakdown.toValue b))
    with (VNum (RiskBreakdown.liability b)) in H1.
  change (get "termination" (RiskBreakdown.toValue b))
    with (VNum (RiskBreakdown.termination b)) in H2.
  change (get "confidentiality" (RiskBreakdown.toValue b))
    with (VNum (RiskBreakdown.confidentiality b)) in H3.
  change (get "intellectual_property" (RiskBreakdown.toValue b))
    with (VNum (RiskBreakdown.intellectual_property b)) in H4.
  apply parse_score_Valid in H0 as (? & [= <-] & _ & H0).
  apply parse_score_Valid in H1 as (? & [= <-] & _ & H1).
  apply parse_score_Valid in H2 as (? & [= <-] & _ & H2).
  apply parse_score_Valid in H3 as (? & [= <-] & _ & H3).
  apply parse_score_Valid in H4 as (? & [= <-] & _ & H4).
  unfold breakdownOk. by rewrite H0, H1, H2, H3, H4.
Qed.

(** Conversely, a record of type [ContractAnalysis] that is accepted has
    its scores in range, clause indices other than [NaN] and a valid
    date. *)
Lemma ContractAnalysis_toValue_accepted a r :
  validate (ContractAnalysis.toValue a) = z.Valid r → analysisOk a = true.
Proof.
  unfold validate, contractAnalysisSchema. intros Hvalid.
  pose proof (contractAnalysisSchema_keys_NoDup _ eq_refl) as Hnd.
  pose proof (parse_object_field _ _ _ _ 3 _ _ Hnd Hvalid eq_refl) as Hscore.
  pose proof (parse_object_field _ _ _ _ 4 _ _ Hnd Hvalid eq_refl) as Hclauses.
  pose proof (parse_object_field _ _ _ _ 7 _ _ Hnd Hvalid eq_refl) as Hbreakdown.
  pose proof (parse_object_field _ _ _ _ 9 _ _ Hnd Hvalid eq_refl) as Hconfidence.
  pose proof (parse_object_field _ _ _ _ 10 _ _ Hnd Hvalid eq_refl) as Hdate.
  change (get "riskScore" (ContractAnalysis.toValue a))
    with (VNum (ContractAnalysis.riskScore a)) in Hscore.
  change (get "clauses" (ContractAnalysis.toValue a))
    with (VArr (Clause.toValue <$> ContractAnalysis.clauses a)) in Hclauses.
  change (get "riskBreakdown" (ContractAnalysis.toValue a))
    with (RiskBreakdown.toValue (ContractAnalysis.riskBreakdown a)) in Hbreakdown.
  change (get "confidence" (ContractAnalysis.toValue a))
    with (VNum (ContractAnalysis.confidence a)) in Hconfidence.
  change (get "analysisDate" (ContractAnalysis.toValue a))
    with (VDate (ContractAnalysis.analysisDate a)) in Hdate.
  apply parse_score_Valid in Hscore as (? & [= <-] & _ & Hscore).
  apply parse_score_Valid in Hconfidence as (? & [= <-] & _ & Hconfidence).
  apply RiskBreakdown_toValue_accepted in Hbreakdown.
  unfold analysisOk. rewrite Hscore, Hbreakdown, Hconfidence.
  assert (forallb clauseOk (ContractAnalysis.clauses a) = true) as ->.
  { apply parse_array_Valid in Hclauses as (items & xs & [= <-] & _ & Hrel).
    apply forallb_forall. intros c Hc%list_elem_of_In.
    apply list_elem_of_lookup in Hc as [i Hi].
    apply (f_equal (λ l, l !! i)) in Hrel.
    rewrite list_lookup_imap, !list_lookup_fmap, Hi in Hrel.
    destruct (xs !! i) as [c'|]; [|done]. apply fmap_Some_eq in Hrel.
    by eapply Clause_toValue_accepted. }
  destruct (ContractAnalysis.analysisDate a) as [t|]; [|done].
  cbn [andb]. apply bool_decide_eq_true. by eexists.
Qed.

(** A clause field of the wrong type is reported at the clause's index. *)
Lemma validate_clause_field_issue v cs i cprops j k sk iss :
  get "clauses" v = VArr cs → cs !! i = Some (VObj cprops) →
  (∃ shape, clauseSchema = z.object shape ∧ shape !! j = Some (k, sk)) →
  iss ∈ z.issuesOf (z.parse sk [z.Key "clauses"; z.Index i; z.Key k] (getProp k cprops)) →
  iss ∈ z.issuesOf (validate v).
Proof.
  intros Hcs Hi (shape & Hschema & Hj) Hiss.
  assert (∃ props, v = VObj props) as [props ->] by (destruct v; try done; eauto).
  simpl in Hcs.
  unfold validate, contractAnalysisSchema.
  eapply (object_field_issue _ _ _ 4); [reflexivity|]. rewrite Hcs.
  eapply array_item_issue; [exact Hi|]. rewrite Hschema.
  eapply object_field_issue; [exact Hj|]. exact Hiss.
Qed.

Example validate_startIndex_string :
  validate (VObj (setProp "clauses"
                    (VArr [VObj (setProp "startIndex" (VStr "100")
                                   (ownProps (Clause.toValue exampleClause)))])
                    (ownProps (ContractAnalysis.toValue exampleAnalysis))))
  = z.Invalid [z.Issue [z.Key "clauses"; z.Index 0; z.Key "startIndex"] z.invalid_type].
Proof. vm_compute. reflexivity. Qed.

(** C2, as stated, fails: a clause whose [startIndex] 10 is not below its
    [endIndex] 5, and whose content is not in the contract text, does not
    make validation reject the candidate. *)
Lemma validate_accepts_reversed_span :
  Clause.startIndex exampleReversedClause = Finite 10 ∧
  Clause.endIndex exampleReversedClause = Finite 5 ∧
  ContractAnalysis.clauses exampleReversedSpan = [exampleReversedClause] ∧
  validate (ContractAnalysis.toValue exampleReversedSpan)
  = z.Valid (ContractAnalysis.toValue exampleReversedSpan).
Proof. repeat split; vm_compute; reflexivity. Qed.

(** C2, amended: of a clause's [startIndex], [endIndex] and [content],
    validation checks the types only. A candidate with a clause whose
    [startIndex] or [endIndex] is not a number (or is [NaN]), or whose
    [content] is not a string, is rejected with an [invalid_type] issue
    naming the clause and the field. No order between [startIndex] and
    [endIndex], no bound by the length of the top-level content and no
    equality with a substring of it is checked: a record of type
    [ContractAnalysis] that is accepted stays accepted when, clause by
    clause, the two indices are replaced by any numbers that are not [NaN]
    (the infinite ones included) and the content by any string; it is
    rejected as soon as one of the new indices is [NaN]. *)
Theorem validate_clause_span_types_only :
  (∀ v cs i cprops k,
      get "clauses" v = VArr cs → cs !! i = Some (VObj cprops) →
      (k = "startIndex" ∨ k = "endIndex") ∧ isNumber (getProp k cprops) = false
      ∨ k = "content" ∧ isString (getProp k cprops) = false →
      ∃ issues, validate v = z.Invalid issues ∧
                z.Issue [z.Key "clauses"; z.Index i; z.Key k] z.invalid_type ∈ issues)
  ∧ (∀ (a : ContractAnalysis.t) (span : nat → number * number * string),
        validate (ContractAnalysis.toValue a) = z.Valid (ContractAnalysis.toValue a) →
        let a' := setClauses (setSpans span (ContractAnalysis.clauses a)) a in
        ((∀ i, (i < length (ContractAnalysis.clauses a))%nat →
               notNaN (span i).1.1 = true ∧ notNaN (span i).1.2 = true) →
         validate (ContractAnalysis.toValue a') = z.Valid (ContractAnalysis.toValue a'))
        ∧ (∀ i, (i < length (ContractAnalysis.clauses a))%nat →
                notNaN (span i).1.1 = false ∨ notNaN (span i).1.2 = false →
                ∃ issues, validate (ContractAnalysis.toValue a') = z.Invalid issues)).
Proof.
  split.
  - intros v cs i cprops k Hcs Hi Hbad. apply issuesOf_Invalid.
    destruct Hbad as [[[->| ->] Hnum]|[-> Hstr]].
    + eapply (validate_clause_field_issue _ _ _ _ 7); [done..| |].
      { eexists. split; reflexivity. }
      rewrite parse_number_invalid_type by done. apply list_elem_of_here.
    + eapply (validate_clause_field_issue _ _ _ _ 8); [done..| |].
      { eexists. split; reflexivity. }
      rewrite parse_number_invalid_type by done. apply list_elem_of_here.
    + eapply (validate_clause_field_issue _ _ _ _ 2); [done..| |].
      { eexists. split; reflexivity. }
      rewrite parse_string_invalid_type by done. apply list_elem_of_here.
  - intros a span Hok%ContractAnalysis_toValue_accepted a'. split.
    + intros Hspan. apply ContractAnalysis_toValue_Valid.
      revert Hok. unfold analysisOk. subst a'. cbn -[forallb bool_decide setSpans].
      rewrite !andb_true_iff. intros [[[[Hscore Hclauses] Hbreakdown] Hconfidence] Hdate].
      repeat split; try done.
      rewrite forallb_forall in Hclauses. apply forallb_forall.
      intros c' Hin%list_elem_of_In. unfold setSpans in Hin.
      apply elem_of_lookup_imap in Hin as (i & c & -> & Hi).
      pose proof (lookup_lt_Some _ _ _ Hi) as Hlt.
      apply list_elem_of_lookup_2, list_elem_of_In, Hclauses in Hi.
      revert Hi. unfold clauseOk. cbn. rewrite !andb_true_iff.
      intros [[Hc _] _]. destruct (Hspan i Hlt) as [-> ->]. by rewrite Hc.
    + intros i Hlt Hnan.
      destruct (validate (ContractAnalysis.toValue a')) as [r|issues] eqn:Hvalid;
        [|by exists issues].
      exfalso. apply ContractAnalysis_toValue_accepted in Hvalid.
      revert Hvalid. unfold analysisOk. subst a'. cbn -[forallb bool_decide setSpans].
      rewrite !andb_true_iff. intros [[[[_ Hclauses] _] _] _].
      rewrite forallb_forall in Hclauses.
      destruct (lookup_lt_is_Some_2 _ _ Hlt) as [c Hc].
      assert (setSpans span (ContractAnalysis.clauses a) !! i
              = Some (setSpan (span i).1.1 (span i).1.2 (span i).2 c)) as Hi.
      { unfold setSpans. by rewrite list_lookup_imap, Hc. }
      apply list_elem_of_lookup_2, list_elem_of_In, Hclauses in Hi.
      revert Hi. unfold clauseOk. cbn. rewrite !andb_true_iff.
      intros [[_ Hs] He]. destruct Hnan; congruence.
Qed.

Example validate_accepts_other_spans :
  validate (ContractAnalysis.toValue
              (setClauses
                 (setSpans (λ i, if Nat.eqb i 0 then (Infinity true, Finite (-3 # 2), "</span>")
                                 else (Finite 5, Infinity false, EmptyString))
                    (ContractAnalysis.clauses exampleAnalysis))
                 exampleAnalysis))
  = z.Valid (ContractAnalysis.toValue
               (setClauses
                  (setSpans (λ i, if Nat.eqb i 0 then (Infinity true, Finite (-3 # 2), "</span>")
                                 else (Finite 5, Infinity false, EmptyString))
                     (ContractAnalysis.clauses exampleAnalysis))
                  exampleAnalysis)).
Proof. vm_compute. reflexivity. Qed.

(** ** The record built by [analyzeContract] *)

Lemma lookupProp_not_in k (props : list (string * value)) :
  k ∉ props.*1 → lookupProp k props = None.
Proof.
  induction props as [|[k' v] props IH]; [done|]. rewrite fmap_cons, not_elem_of_cons.
  intros [Hne Hnotin]. simpl. destruct (String.eqb_spec k k'); [done | auto].
Qed.

(** After [{...base, ...props}], a key holds what [props] holds under it,
    and what [base] holds when [props] has no such key. *)
Lemma getProp_spread k (base props : list (string * value)) :
  NoDup props.*1 →
  getProp k (foldl (λ acc kv, setProp kv.1 kv.2 acc) base props)
  = default (getProp k base) (lookupProp k props).
Proof.
  intros Hnd. revert base.
  induction props as [|[k' v] props IH]; intros base; [done|].
  rewrite fmap_cons in Hnd. apply NoDup_cons in Hnd as [Hnotin Hnd].
  cbn [foldl fst snd]. rewrite (IH Hnd). cbn [lookupProp].
  destruct (String.eqb_spec k k') as [->|Hne].
  - by rewrite getProp_setProp_eq, lookupProp_not_in.
  - by rewrite getProp_setProp_ne.
Qed.

Lemma getProp_spread_absent k (base props : list (string * value)) :
  lookupProp k props = None →
  getProp k (foldl (λ acc kv, setProp kv.1 kv.2 acc) base props) = getProp k base.
Proof.
  revert base. induction props as [|[k' v] props IH]; intros base; [done|].
  cbn [foldl fst snd lookupProp].
  destruct (String.eqb_spec k k') as [->|Hne]; [done|].
  intros Habsent. by rewrite (IH _ Habsent), getProp_setProp_ne.
Qed.

(** C9, as stated, fails: a candidate that carries an id and an
    [analysisDate] does not keep its [analysisDate]. The sample analysis,
    dated 1700000000000, comes out of [analyzeContract] with its own id but
    dated with the time of the call, and the result conforms to the
    schema. *)
Lemma analyzeContract_return_restamps_date :
  let candidate := ContractAnalysis.toValue exampleAnalysis in
  let r := analyzeContract_return "0b0e3c0a-5d1e-4b8e-9d55-3f1f0c7a2e11" 1800000000000
             "Loan" "This loan agreement carries a 15% interest rate..." candidate in
  get "id" candidate = VStr "a1" ∧
  get "analysisDate" candidate = VDate (Some 1700000000000%Z) ∧
  validate r = z.Valid r ∧
  get "id" r = VStr "a1" ∧
  get "analysisDate" r = VDate (Some 1800000000000%Z).
Proof. repeat split; vm_compute; reflexivity. Qed.

(** C9, amended: the schema check stamps nothing: it rejects a candidate
    without a string [id] or a valid [analysisDate], and an accepted record
    has the candidate's own [id] and [analysisDate]. The stamping is done by
    [analyzeContract] when it builds the record from the model's response:
    the record gets the fresh UUID as its [id] only if the response has no
    [id] of its own, otherwise it keeps the response's [id]; its
    [analysisDate] is the time of the call in every case, also when the
    response carried an [analysisDate]. *)
Theorem analyzeContract_return_stamps uuid now title contractText analysisData :
  let r := analyzeContract_return uuid now title contractText analysisData in
  get "analysisDate" r = VDate (Some now)
  ∧ (lookupProp "id" (ownProps analysisData) = None → get "id" r = VStr uuid)
  ∧ (∀ x, NoDup (ownProps analysisData).*1 →
          lookupProp "id" (ownProps analysisData) = Some x → get "id" r = x)
  ∧ (∀ v accepted,
        validate v = z.Valid accepted →
        get "id" accepted = get "id" v ∧
        get "analysisDate" accepted = get "analysisDate" v ∧
        isString (get "id" v) = true ∧
        ∃ t, get "analysisDate" v = VDate (Some t)).
Proof.
  intros r. subst r. unfold analyzeContract_return. cbn [get].
  split; [apply getProp_setProp_eq|]. split; [|split].
  - intros Habsent. rewrite getProp_setProp_ne by done.
    by rewrite getProp_spread_absent.
  - intros x Hnd Hid. rewrite getProp_setProp_ne by done.
    by rewrite getProp_spread, Hid.
  - unfold validate, contractAnalysisSchema. intros v accepted Hvalid.
    pose proof (contractAnalysisSchema_keys_NoDup _ eq_refl) as Hnd.
    pose proof (parse_object_field _ _ _ _ 0 _ _ Hnd Hvalid eq_refl) as Hid.
    pose proof (parse_object_field _ _ _ _ 10 _ _ Hnd Hvalid eq_refl) as Hdate.
    destruct (get "id" v) eqn:Hv; try done. injection Hid as <-.
    destruct (get "analysisDate" v) as [| | | | |[t|]| |] eqn:Hd; try done.
    injection Hdate as <-. eauto.
Qed.



(** ** JSON round trips *)

Section StorageFacts.
Variable toISOString : Z → string.

Lemma value_nested_ind (P : value → Prop) :
  P VUndefined → P VNull → (∀ b, P (VBool b)) → (∀ n, P (VNum n)) →
  (∀ s, P (VStr s)) → (∀ t, P (VDate t)) →
  (∀ items, Forall P items → P (VArr items)) →
  (∀ props, Forall (λ kv, P kv.2) props → P (VObj props)) →
  ∀ v, P v.
Proof.
  intros Hundef Hnull Hbool Hnum Hstr Hdate Harr Hobj.
  fix IH 1. intros [| | b | n | s | t | items | props].
  - exact Hundef.
  - exact Hnull.
  - apply Hbool.
  - apply Hnum.
  - apply Hstr.
  - apply Hdate.
  - apply Harr. induction items as [|x items IHitems].
    + constructor.
    + constructor; [apply IH | exact IHitems].
  - apply Hobj. induction props as [|[k x] props IHprops].
    + constructor.
    + constructor; [apply IH | exact IHprops].
Qed.

(** [JSON.parse(JSON.stringify(v))] is [v] for a value that holds no
    [undefined], no [Date] and no non-finite number. *)
Lemma serialize_safe v :
  jsonSafe v = true → ∃ doc, serialize toISOString v = Some doc ∧ build doc = v.
Proof.
  induction v as [| | b | n | s | t | items IH | props IH] using value_nested_ind;
    try done; intros Hsafe.
  - by exists JNull.
  - by exists (JBool b).
  - destruct n as [| |q]; try done. by exists (JNumber q).
  - by exists (JString s).
  - exists (JArray (map (λ x, default JNull (serialize toISOString x)) items)).
    split; [reflexivity|]. cbn [build]. f_equal.
    cbn [jsonSafe] in Hsafe. rewrite forallb_forall in Hsafe.
    induction IH as [|x items Hx _ IHitems]; [done|].
    cbn [map]. f_equal.
    + destruct Hx as (doc & -> & Hdoc); [apply Hsafe; by left | done].
    + apply IHitems. intros y Hy. apply Hsafe. by right.
  - exists (JObject (omap (λ kv, pair kv.1 <$> serialize toISOString kv.2) props)).
    split; [reflexivity|]. cbn [build]. f_equal.
    cbn [jsonSafe] in Hsafe. rewrite forallb_forall in Hsafe.
    induction IH as [|[k x] props Hx _ IHprops]; [done|].
    cbn [omap list_omap fst snd].
    destruct Hx as (doc & Hdoc & Hbuild); [apply (Hsafe (k, x)); by left|].
    cbn [snd] in Hdoc. rewrite Hdoc. cbn [fmap option_fmap option_map map fst snd].
    rewrite Hbuild. f_equal. apply IHprops. intros y Hy. apply Hsafe. by right.
Qed.

Lemma roundTrip_props (props : list (string * value)) :
  forallb (λ '(_, x), jsonSafe x) props = true →
  map (λ kv, (kv.1, build kv.2))
      (omap (λ kv, pair kv.1 <$> serialize toISOString kv.2) props)
  = props.
Proof.
  intros Hsafe. destruct (serialize_safe (VObj props) Hsafe) as (doc & Hdoc & Hbuild).
  cbn [serialize] in Hdoc. injection Hdoc as <-.
  cbn [build] in Hbuild. by injection Hbuild.
Qed.

Lemma inRange_isFinite hi n : inRange hi n = true → isFinite n = true.
Proof. by destruct n. Qed.

Lemma jsonSafe_strings (l : list string) : forallb jsonSafe (VStr <$> l) = true.
Proof. induction l as [|x l IH]; [done | exact IH]. Qed.

Lemma jsonSafe_fmap {A} (f : A → value) (l : list A) :
  (∀ x, x ∈ l → jsonSafe (f x) = true) → forallb jsonSafe (f <$> l) = true.
Proof.
  intros Hsafe. apply forallb_forall.
  intros y (x & -> & Hx)%list_elem_of_In%list_elem_of_fmap. auto.
Qed.

Lemma jsonSafe_Clause c :
  clauseOk c = true → spanFinite c = true → jsonSafe (Clause.toValue c) = true.
Proof.
  unfold clauseOk, spanFinite. rewrite !andb_true_iff.
  intros [[Hscore _] _] [Hstart Hend]. cbn.
  rewrite (inRange_isFinite _ _ Hscore), Hstart, Hend, jsonSafe_strings. done.
Qed.

Lemma jsonSafe_RiskBreakdown r :
  breakdownOk r = true → jsonSafe (RiskBreakdown.toValue r) = true.
Proof.
  unfold breakdownOk. rewrite !andb_true_iff. intros [[[[H1 H2] H3] H4] H5]. cbn.
  by rewrite (inRange_isFinite _ _ H1), (inRange_isFinite _ _ H2),
    (inRange_isFinite _ _ H3), (inRange_isFinite _ _ H4), (inRange_isFinite _ _ H5).
Qed.

(** The round trip of a valid analysis with finite clause indices: every
    property comes back as it was, except [analysisDate], which comes back
    as the string [toISOString] gives for the date. *)
Lemma roundTrip_analysis a :
  analysisOk a = true →
  forallb spanFinite (ContractAnalysis.clauses a) = true →
  ∃ t, ContractAnalysis.analysisDate a = Some t ∧
       roundTrip toISOString (ContractAnalysis.toValue a)
       = Some (ContractAnalysis.toValueWith (VStr (toISOString t)) a).
Proof.
  unfold analysisOk. rewrite !andb_true_iff.
  intros [[[[Hscore Hclauses] Hbreakdown] Hconfidence] Hdate] Hspans.
  apply bool_decide_eq_true in Hdate as [t Hdate].
  exists t. split; [done|].
  destruct a as [id title content score clauses issues missing breakdown summary
                   confidence date].
  cbn [ContractAnalysis.riskScore ContractAnalysis.clauses
       ContractAnalysis.riskBreakdown ContractAnalysis.confidence
       ContractAnalysis.analysisDate] in *.
  subst date.
  unfold roundTrip, JSON_stringify, ContractAnalysis.toValue, ContractAnalysis.toValueWith.
  cbn [ContractAnalysis.id ContractAnalysis.title ContractAnalysis.content
       ContractAnalysis.riskScore ContractAnalysis.clauses ContractAnalysis.keyIssues
       ContractAnalysis.missingProtections ContractAnalysis.riskBreakdown
       ContractAnalysis.plainLanguageSummary ContractAnalysis.confidence
       ContractAnalysis.analysisDate].
  set (kept := [("id", VStr id); ("title", VStr title); ("content", VStr content);
                ("riskScore", VNum score);
                ("clauses", VArr (Clause.toValue <$> clauses));
                ("keyIssues", VArr (KeyIssue.toValue <$> issues));
                ("missingProtections", VArr (MissingProtection.toValue <$> missing));
                ("riskBreakdown", RiskBreakdown.toValue breakdown);
                ("plainLanguageSummary", VStr summary);
                ("confidence", VNum confidence)]).
  change (serialize toISOString (VObj (kept ++ [("analysisDate", VDate (Some t))])) ≫=
            (λ doc, JSON_parse (JSONText doc))
          = Some (VObj (kept ++ [("analysisDate", VStr (toISOString t))]))).
  cbn [serialize]. rewrite omap_app.
  cbn [mbind option_bind JSON_parse build]. rewrite map_app, roundTrip_props; [done|].
  subst kept. cbn [forallb jsonSafe].
  rewrite (inRange_isFinite _ _ Hscore), (inRange_isFinite _ _ Hconfidence).
  rewrite jsonSafe_RiskBreakdown by done.
  rewrite !jsonSafe_fmap; [done | by intros [] _ | by intros [] _ |].
  intros c Hc%list_elem_of_In.
  rewrite forallb_forall in Hclauses, Hspans. apply jsonSafe_Clause; auto.
Qed.

End StorageFacts.

(** ** [storeAnalysis] *)

Section StoreAnalysisFacts.
Variable toISOString : Z → string.
Variable withinQuota : gmap string text → bool.

Lemma stringify_analysis a :
  ∃ members,
    JSON_stringify toISOString (ContractAnalysis.toValue a)
    = Some (JSONText (JObject members)).
Proof. by eexists. Qed.

Lemma analysis_key_is_ids id : "analysis-" +:+ id = "analysis-ids" → id = "ids".
Proof. intros [= Hid]. exact Hid. Qed.

Lemma withAnalysis_item a st :
  getItem ("analysis-" +:+ ContractAnalysis.id a) (withAnalysis toISOString a st)
  = JSON_stringify toISOString (ContractAnalysis.toValue a).
Proof.
  unfold withAnalysis, written, getItem. rewrite lookup_insert_eq.
  by destruct (stringify_analysis a) as [members ->].
Qed.

Lemma withAnalysis_other a st k :
  k ≠ "analysis-" +:+ ContractAnalysis.id a →
  getItem k (withAnalysis toISOString a st) = getItem k st.
Proof. intros Hk. unfold withAnalysis, written, getItem. by rewrite lookup_insert_ne. Qed.

Lemma written_other key x st k : k ≠ key → getItem k (written key x st) = getItem k st.
Proof. intros Hk. unfold written, getItem. by rewrite lookup_insert_ne. Qed.

Lemma written_keeps key x st k :
  is_Some (getItem k st) → is_Some (getItem k (written key x st)).
Proof. unfold written, getItem. rewrite lookup_insert. by case_decide. Qed.

Lemma storeAnalysis_over_quota a st :
  withinQuota (withAnalysis toISOString a st) = false →
  storeAnalysis toISOString withinQuota a st = (ThrewQuotaExceededError, st).
Proof.
  intros Hover. unfold storeAnalysis, setItem.
  fold (withAnalysis toISOString a st). by rewrite Hover.
Qed.

(** The storage a call leaves: the one it found when the analysis is over
    the quota; otherwise the one with the analysis, or that one with a
    list written, which happens only when the key of the analysis is not
    the key of the list. *)
Lemma storeAnalysis_storage a st :
  let r := storeAnalysis toISOString withinQuota a st in
  let st1 := withAnalysis toISOString a st in
  if withinQuota st1
  then r.2 = st1
       ∨ ∃ x, r.2 = written "analysis-ids" x st1
              ∧ "analysis-" +:+ ContractAnalysis.id a ≠ "analysis-ids"
  else r = (ThrewQuotaExceededError, st).
Proof.
  intros r st1. destruct (withinQuota st1) eqn:Hfits;
    [|by apply storeAnalysis_over_quota].
  subst r. unfold storeAnalysis, setItem. fold (withAnalysis toISOString a st).
  fold st1. rewrite Hfits.
  destruct (JSON_parse (orElse (getItem "analysis-ids" st1) (JSONText (JArray []))))
    as [[| | | | | |existing|]|] eqn:Hparse; try (by left).
  destruct (withinQuota (written "analysis-ids" _ st1)); [|by left].
  right. eexists. split; [done|]. intros Hkey.
  pose proof (withAnalysis_item a st) as Hitem. fold st1 in Hitem.
  rewrite Hkey in Hitem. rewrite Hitem in Hparse.
  by destruct (stringify_analysis a) as [members Hm]; rewrite Hm in Hparse.
Qed.

(** When the analysis is within the quota, its item is read back as the
    round trip of the analysis, however the call completes. *)
Lemma useStoredAnalysis_storeAnalysis a st :
  ContractAnalysis.id a ≠ "" →
  withinQuota (withAnalysis toISOString a st) = true →
  useStoredAnalysis (Some (ContractAnalysis.id a))
    (storeAnalysis toISOString withinQuota a st).2
  = roundTrip toISOString (ContractAnalysis.toValue a).
Proof.
  intros Hid Hfits. pose proof (storeAnalysis_storage a st) as Hst.
  cbv zeta in Hst. rewrite Hfits in Hst.
  assert (getItem ("analysis-" +:+ ContractAnalysis.id a)
            (storeAnalysis toISOString withinQuota a st).2
          = JSON_stringify toISOString (ContractAnalysis.toValue a)) as Hitem.
  { destruct Hst as [->|(x & -> & Hkey)].
    - apply withAnalysis_item.
    - rewrite written_other by done. apply withAnalysis_item. }
  unfold useStoredAnalysis. rewrite Hitem.
  destruct (stringify_analysis a) as [members Hm]. unfold roundTrip. rewrite Hm.
  by destruct (ContractAnalysis.id a).
Qed.

Lemma filter_other_ids id (ids : list string) :
  filter (λ x, strictEqualsString x id = false) (VStr <$> ids)
  = VStr <$> filter (λ s, s ≠ id) ids.
Proof.
  induction ids as [|s ids IH]; [done|].
  rewrite fmap_cons, !filter_cons, IH. cbn [strictEqualsString].
  destruct (String.eqb_spec s id) as [->|Hne].
  - rewrite decide_False by done. by rewrite decide_False by (by intros []).
  - rewrite decide_True by done. by rewrite decide_True by done.
Qed.

Lemma serialize_ids (ids : list string) :
  serialize toISOString (VArr (VStr <$> ids)) = Some (JArray (JString <$> ids)).
Proof.
  cbn [serialize]. do 2 f_equal.
  induction ids as [|s ids IH]; [done|]. cbn. f_equal. exact IH.
Qed.

Lemma build_ids (ids : list string) :
  build (JArray (JString <$> ids)) = VArr (VStr <$> ids).
Proof.
  cbn [build]. f_equal.
  induction ids as [|s ids IH]; [done|]. cbn. f_equal. exact IH.
Qed.

Lemma holdsIds_withAnalysis a st ids :
  ContractAnalysis.id a ≠ "ids" →
  holdsIds ids st → holdsIds ids (withAnalysis toISOString a st).
Proof.
  intros Hid Hids. unfold holdsIds. rewrite withAnalysis_other; [done|].
  intros Hkey. symmetry in Hkey. by apply Hid, analysis_key_is_ids.
Qed.

Lemma holdsIds_withIds ids st : holdsIds ids (withIds ids st).
Proof. unfold holdsIds, withIds, written, getItem. by rewrite lookup_insert_eq. Qed.

(** One call, for an id other than ["ids"], on a storage whose list holds
    [ids]: it returns when the analysis and then the new list are within
    the quota, and throws [QuotaExceededError] otherwise, leaving what it
    had written. *)
Lemma storeAnalysis_cases a st ids :
  ContractAnalysis.id a ≠ "ids" →
  holdsIds ids st →
  let st1 := withAnalysis toISOString a st in
  let st2 := withIds (latestIds (ContractAnalysis.id a) ids) st1 in
  storeAnalysis toISOString withinQuota a st
  = if withinQuota st1
    then if withinQuota st2 then (Returned, st2) else (ThrewQuotaExceededError, st1)
    else (ThrewQuotaExceededError, st).
Proof.
  intros Hid Hids st1 st2. destruct (withinQuota st1) eqn:Hfits;
    [|by apply storeAnalysis_over_quota].
  unfold storeAnalysis, setItem. fold (withAnalysis toISOString a st).
  fold st1. rewrite Hfits.
  pose proof (holdsIds_withAnalysis a st ids Hid Hids) as Hids1. fold st1 in Hids1.
  unfold holdsIds in Hids1. rewrite Hids1. cbn [JSON_parse].
  rewrite build_ids, filter_other_ids.
  change (take 10 (VStr ?id :: ?l)) with (VStr id :: take 9 l).
  rewrite <- fmap_take, <- fmap_cons. unfold JSON_stringify at 1 2.
  rewrite serialize_ids. cbn [fmap option_fmap option_map].
  change (written "analysis-ids" _ st1) with st2.
  by destruct (withinQuota st2).
Qed.

(** After such a call the list holds the new ids if the call returned, and
    the former ones if it threw. *)
Lemma storeAnalysis_ids a st ids :
  ContractAnalysis.id a ≠ "ids" →
  holdsIds ids st →
  let r := storeAnalysis toISOString withinQuota a st in
  (r.1 = Returned ∧ holdsIds (latestIds (ContractAnalysis.id a) ids) r.2)
  ∨ (r.1 = ThrewQuotaExceededError ∧ holdsIds ids r.2).
Proof.
  intros Hid Hids r. subst r. rewrite (storeAnalysis_cases a st ids Hid Hids).
  destruct (withinQuota (withAnalysis toISOString a st)); [|by right].
  destruct (withinQuota (withIds _ _)).
  - left. split; [done|]. apply holdsIds_withIds.
  - right. split; [done|]. by apply holdsIds_withAnalysis.
Qed.

Lemma NoDup_latestIds id (ids : list string) :
  NoDup ids → NoDup (latestIds id ids) ∧ (length (latestIds id ids) ≤ 10)%nat.
Proof.
  intros Hnd. unfold latestIds. split.
  - apply NoDup_cons. split.
    + intros Hin. apply (sublist_subseteq _ _ (sublist_take _ 9)) in Hin.
      apply list_elem_of_filter in Hin as [Hne _]. by apply Hne.
    + eapply sublist_NoDup; [|apply sublist_take]. by apply NoDup_filter.
  - cbn [length]. rewrite length_take. lia.
Qed.

Lemma latestIds_subset id ids i : i ∈ latestIds id ids → i = id ∨ i ∈ ids.
Proof.
  unfold latestIds. intros [->|Hi]%elem_of_cons; [by left|]. right.
  apply (sublist_subseteq _ _ (sublist_take _ 9)) in Hi.
  by apply list_elem_of_filter in Hi as [_ Hi].
Qed.

Lemma storeAll_snoc log a st :
  storeAll toISOString withinQuota (log ++ [a]) st
  = (storeAnalysis toISOString withinQuota a
       (storeAll toISOString withinQuota log st)).2.
Proof. unfold storeAll. by rewrite foldl_app. Qed.

(** From the empty storage, after any sequence of calls none of which has
    the id ["ids"], the list holds distinct ids of the calls, and ten at
    most. *)
Lemma storeAll_ids log :
  Forall (λ b, ContractAnalysis.id b ≠ "ids") log →
  ∃ ids, holdsIds ids (storeAll toISOString withinQuota log ∅)
         ∧ NoDup ids ∧ (length ids ≤ 10)%nat
         ∧ ∀ i, i ∈ ids → i ∈ ContractAnalysis.id <$> log.
Proof.
  induction log as [|a log IH] using rev_ind; intros Hlog.
  - exists []. split; [done|]. split; [constructor|]. split; [cbn; lia|].
    by intros i ?%elem_of_nil.
  - apply Forall_app in Hlog as [Hlog [Ha _]%Forall_cons].
    destruct (IH Hlog) as (ids & Hids & Hnd & Hlen & Hsub).
    rewrite storeAll_snoc.
    destruct (NoDup_latestIds (ContractAnalysis.id a) ids Hnd) as [Hnd' Hlen'].
    destruct (storeAnalysis_ids a _ ids Ha Hids) as [[_ Hids']|[_ Hids']].
    + eexists. split; [exact Hids'|]. split; [done|]. split; [done|].
      intros i [->|Hi]%latestIds_subset; rewrite fmap_app, elem_of_app.
      * right. cbn. by left.
      * left. by apply Hsub.
    + exists ids. split; [done|]. split; [done|]. split; [done|].
      intros i Hi. rewrite fmap_app, elem_of_app. left. by apply Hsub.
Qed.

(** When the item of the list holds an object once the analysis is
    written, the call throws and leaves the storage there. *)
Lemma storeAnalysis_list_is_object b st members :
  getItem "analysis-ids" (withAnalysis toISOString b st)
  = Some (JSONText (JObject members)) →
  storeAnalysis toISOString withinQuota b st
  = if withinQuota (withAnalysis toISOString b st)
    then (ThrewTypeError, withAnalysis toISOString b st)
    else (ThrewQuotaExceededError, st).
Proof.
  intros Hitem. destruct (withinQuota (withAnalysis toISOString b st)) eqn:Hfits;
    [|by apply storeAnalysis_over_quota].
  unfold storeAnalysis, setItem. fold (withAnalysis toISOString b st).
  by rewrite Hfits, Hitem.
Qed.

Lemma storeAnalysis_lookup_other a st k :
  k ≠ "analysis-" +:+ ContractAnalysis.id a → k ≠ "analysis-ids" →
  getItem k (storeAnalysis toISOString withinQuota a st).2 = getItem k st.
Proof.
  intros Hk Hlist. pose proof (storeAnalysis_storage a st) as Hst. cbv zeta in Hst.
  destruct (withinQuota (withAnalysis toISOString a st)); [|by rewrite Hst].
  destruct Hst as [->|(x & -> & _)].
  - by apply withAnalysis_other.
  - rewrite written_other by done. by apply withAnalysis_other.
Qed.

Lemma storeAnalysis_keeps_keys a st k :
  is_Some (getItem k st) →
  is_Some (getItem k (storeAnalysis toISOString withinQuota a st).2).
Proof.
  intros Hk. pose proof (storeAnalysis_storage a st) as Hst. cbv zeta in Hst.
  destruct (withinQuota (withAnalysis toISOString a st)); [|by rewrite Hst].
  destruct Hst as [->|(x & -> & _)].
  - by apply written_keeps.
  - by do 2 apply written_keeps.
Qed.

Lemma storeAnalysis_writes_item a st :
  withinQuota (withAnalysis toISOString a st) = true →
  is_Some (getItem ("analysis-" +:+ ContractAnalysis.id a)
             (storeAnalysis toISOString withinQuota a st).2).
Proof.
  intros Hfits. pose proof (storeAnalysis_storage a st) as Hst. cbv zeta in Hst.
  rewrite Hfits in Hst.
  assert (is_Some (getItem ("analysis-" +:+ ContractAnalysis.id a)
                     (withAnalysis toISOString a st))) as Hitem.
  { rewrite withAnalysis_item. destruct (stringify_analysis a) as [members ->]. by eexists. }
  destruct Hst as [->|(x & -> & _)]; [done|]. by apply written_keeps.
Qed.

Lemma storeAll_keeps_keys log st k :
  is_Some (getItem k st) →
  is_Some (getItem k (storeAll toISOString withinQuota log st)).
Proof.
  revert st. induction log as [|a log IH]; intros st Hk; [done|].
  apply IH. by apply storeAnalysis_keeps_keys.
Qed.

End StoreAnalysisFacts.

(** C8, as stated, fails: the round trip of the sample analysis, which is
    valid, is not the sample analysis, whatever [toISOString] is: its
    [analysisDate] comes back as a string, not as the [Date] it was. *)
Lemma JSON_round_trip_loses_Date :
  validate (ContractAnalysis.toValue exampleAnalysis)
    = z.Valid (ContractAnalysis.toValue exampleAnalysis) ∧
  get "analysisDate" (ContractAnalysis.toValue exampleAnalysis)
    = VDate (Some 1700000000000%Z) ∧
  (get "analysisDate" <$>
     roundTrip exampleToISOString (ContractAnalysis.toValue exampleAnalysis))
    = Some (VStr "2023-11-14T22:13:20.000Z") ∧
  ¬ ∃ toISOString,
      roundTrip toISOString (ContractAnalysis.toValue exampleAnalysis)
      = Some (ContractAnalysis.toValue exampleAnalysis).
Proof.
  split; [vm_compute; reflexivity|]. split; [vm_compute; reflexivity|].
  split; [vm_compute; reflexivity|].
  intros [toISOString Hsame]. vm_compute in Hsame. discriminate Hsame.
Qed.

(** C8, amended: for every valid [ContractAnalysis] record whose clause
    indices are finite, serializing it to JSON and parsing it back (as
    [storeAnalysis] and [useStoredAnalysis] do) recovers every field equal
    to the original, enum values and numeric scores and confidence
    included, except [analysisDate]: the [Date] comes back as the string
    that [toISOString] gives for it.  So does the storage, whatever its
    quota and its items: when the analysis is within the quota, reading it
    back gives that record; when it is not, [storeAnalysis] throws and
    leaves the storage as it was. *)
Theorem JSON_round_trip_of_analysis (toISOString : Z → string) a :
  validate (ContractAnalysis.toValue a) = z.Valid (ContractAnalysis.toValue a) →
  forallb spanFinite (ContractAnalysis.clauses a) = true →
  ∃ t, ContractAnalysis.analysisDate a = Some t ∧
       roundTrip toISOString (ContractAnalysis.toValue a)
       = Some (ContractAnalysis.toValueWith (VStr (toISOString t)) a) ∧
       (ContractAnalysis.id a ≠ "" →
        ∀ (withinQuota : gmap string text → bool) st,
          if withinQuota (withAnalysis toISOString a st)
          then useStoredAnalysis (Some (ContractAnalysis.id a))
                 (storeAnalysis toISOString withinQuota a st).2
               = Some (ContractAnalysis.toValueWith (VStr (toISOString t)) a)
          else storeAnalysis toISOString withinQuota a st
               = (ThrewQuotaExceededError, st)).
Proof.
  intros Hok%ContractAnalysis_toValue_accepted Hspans.
  destruct (roundTrip_analysis toISOString a Hok Hspans) as (t & Hdate & Hround).
  exists t. split; [done|]. split; [done|].
  intros Hid withinQuota st.
  destruct (withinQuota (withAnalysis toISOString a st)) eqn:Hfits.
  - by rewrite useStoredAnalysis_storeAnalysis.
  - by apply storeAnalysis_over_quota.
Qed.

(** The round trip of the sample analysis. *)
Lemma JSON_round_trip_of_analysis_witness :
  ∃ t, ContractAnalysis.analysisDate exampleAnalysis = Some t ∧
       roundTrip exampleToISOString (ContractAnalysis.toValue exampleAnalysis)
       = Some (ContractAnalysis.toValueWith (VStr (exampleToISOString t)) exampleAnalysis) ∧
       (ContractAnalysis.id exampleAnalysis ≠ "" →
        ∀ (withinQuota : gmap string text → bool) st,
          if withinQuota (withAnalysis exampleToISOString exampleAnalysis st)
          then useStoredAnalysis (Some (ContractAnalysis.id exampleAnalysis))
                 (storeAnalysis exampleToISOString withinQuota exampleAnalysis st).2
               = Some (ContractAnalysis.toValueWith (VStr (exampleToISOString t))
                         exampleAnalysis)
          else storeAnalysis exampleToISOString withinQuota exampleAnalysis st
               = (ThrewQuotaExceededError, st)).
Proof.
  apply (JSON_round_trip_of_analysis exampleToISOString exampleAnalysis);
    vm_compute; reflexivity.
Defined.

(** C10 at the id ["ids"]: the analysis is stored under the key of the
    list itself, ['analysis-ids'].  When it is within the quota,
    [existingIds.filter] then throws, the item holds the analysis and no
    list (the dashboard reads an object where it expects the array of
    ids), and every later call throws as well: a [TypeError] again, or the
    [QuotaExceededError] of its own analysis, and the list stays lost.
    When it is over the quota, [setItem] throws and the storage is as it
    was. *)
Theorem storeAnalysis_id_ids_breaks_list (toISOString : Z → string)
    (withinQuota : gmap string text → bool)
    (a : ContractAnalysis.t) (st : gmap string text) :
  let r := storeAnalysis toISOString withinQuota (setId "ids" a) st in
  if withinQuota (withAnalysis toISOString (setId "ids" a) st)
  then r.1 = ThrewTypeError
       ∧ (∀ ids, ¬ holdsIds ids r.2)
       ∧ (∃ props, useAnalysisList r.2 = Some (VObj props))
       ∧ (∀ b, let later := storeAnalysis toISOString withinQuota b r.2 in
               later.1 = (if withinQuota (withAnalysis toISOString b r.2)
                          then ThrewTypeError else ThrewQuotaExceededError)
               ∧ ∀ ids, ¬ holdsIds ids later.2)
  else r = (ThrewQuotaExceededError, st).
Proof.
  intros r. destruct (withinQuota (withAnalysis toISOString (setId "ids" a) st)) eqn:Hfits;
    [|by apply storeAnalysis_over_quota].
  assert (∀ st', (∃ members, getItem "analysis-ids" st' = Some (JSONText (JObject members))) →
                 ∀ ids, ¬ holdsIds ids st') as Hno.
  { intros st' [members Hm] ids Hids. unfold holdsIds in Hids. rewrite Hm in Hids.
    discriminate Hids. }
  assert (∃ members, r = (ThrewTypeError, r.2) ∧
                     getItem "analysis-ids" r.2 = Some (JSONText (JObject members)))
    as (members & Hr & Hbroken).
  { destruct (stringify_analysis toISOString (setId "ids" a)) as [members Hmembers].
    assert (getItem "analysis-ids" (withAnalysis toISOString (setId "ids" a) st)
            = Some (JSONText (JObject members))) as Hitem.
    { rewrite <- Hmembers. apply (withAnalysis_item toISOString (setId "ids" a) st). }
    exists members. subst r.
    rewrite (storeAnalysis_list_is_object toISOString withinQuota _ st members Hitem), Hfits.
    done. }
  split; [by rewrite Hr|]. split; [by apply Hno; eauto|]. split.
  - unfold useAnalysisList. rewrite Hbroken. by eexists.
  - intros b later.
    assert (∃ members', getItem "analysis-ids" (withAnalysis toISOString b r.2)
                        = Some (JSONText (JObject members'))) as [members' Hitem].
    { destruct (decide ("analysis-ids" = "analysis-" +:+ ContractAnalysis.id b))
        as [Hkey|Hkey].
      - destruct (stringify_analysis toISOString b) as [members' Hmembers'].
        exists members'. rewrite Hkey, <- Hmembers'. apply withAnalysis_item.
      - exists members. by rewrite withAnalysis_other. }
    subst later.
    rewrite (storeAnalysis_list_is_object toISOString withinQuota b r.2 members' Hitem).
    destruct (withinQuota (withAnalysis toISOString b r.2)).
    + split; [done|]. apply Hno. by exists members'.
    + split; [done|]. apply Hno. by exists members.
Qed.

Example storeAnalysis_id_ids_unlimited :
  let r := storeAnalysis exampleToISOString unlimited (setId "ids" exampleAnalysis) ∅ in
  r.1 = ThrewTypeError
  ∧ (storeAnalysis exampleToISOString unlimited exampleAnalysis r.2).1 = ThrewTypeError
  ∧ storeAnalysis exampleToISOString (atMostItems 0) (setId "ids" exampleAnalysis) ∅
    = (ThrewQuotaExceededError, ∅).
Proof. repeat split; vm_compute; reflexivity. Qed.

(** ** More on [storeAnalysis] *)

Section StorageExtras.
Variable toISOString : Z → string.
Variable withinQuota : gmap string text → bool.

Lemma filter_all {A} (P : A → Prop) `{∀ x, Decision (P x)} (l : list A) :
  Forall P l → filter P l = l.
Proof.
  induction 1 as [|x l Hx _ IH]; [done|]. by rewrite filter_cons_True, IH.
Qed.

Lemma holdsIds_inj ids ids' st : holdsIds ids st → holdsIds ids' st → ids = ids'.
Proof.
  unfold holdsIds. intros -> [= Heq].
  revert ids' Heq. induction ids as [|i ids IH]; intros [|i' ids'] Heq; try done.
  rewrite !fmap_cons in Heq. injection Heq as -> Heq. f_equal. by apply IH.
Qed.

Lemma useAnalysisList_holdsIds ids st :
  holdsIds ids st → useAnalysisList st = Some (VArr (VStr <$> ids)).
Proof.
  unfold holdsIds, useAnalysisList. intros ->. cbn [JSON_parse]. by rewrite build_ids.
Qed.

Lemma latestIds_again id ids : latestIds id (latestIds id ids) = latestIds id ids.
Proof.
  unfold latestIds at 1 3. f_equal. unfold latestIds.
  rewrite filter_cons, decide_False by (by intros []).
  set (others := take 9 (filter (λ s, s ≠ id) ids)).
  assert (filter (λ s, s ≠ id) others = others) as ->.
  { apply filter_all. apply Forall_forall. unfold others. intros x Hx.
    apply (sublist_subseteq _ _ (sublist_take _ 9)) in Hx.
    by apply list_elem_of_filter in Hx as [Hne _]. }
  unfold others. by rewrite take_idemp.
Qed.

(** The items of the list are stored: from the empty storage, after calls
    none of which has the id ["ids"], every id of the list has an item, and
    every item but the list is the text of an object. *)
Lemma storeAll_listed_items log :
  Forall (λ b, ContractAnalysis.id b ≠ "ids") log →
  let st := storeAll toISOString withinQuota log ∅ in
  itemsAreObjects st
  ∧ ∃ ids, holdsIds ids st
           ∧ Forall (λ i, i ≠ "ids" ∧ is_Some (getItem ("analysis-" +:+ i) st)) ids.
Proof.
  induction log as [|a log IH] using rev_ind; intros Hlog st.
  - split; [by intros k t _ ?|]. exists []. by split.
  - apply Forall_app in Hlog as [Hlog [Ha _]%Forall_cons].
    destruct (IH Hlog) as (Hobjects & ids & Hids & Hitems). clear IH.
    subst st. rewrite storeAll_snoc.
    set (before := storeAll toISOString withinQuota log ∅) in *.
    assert ("analysis-" +:+ ContractAnalysis.id a ≠ "analysis-ids") as Hkey
      by (intros Hkey; by apply Ha, analysis_key_is_ids).
    split.
    + intros k t Hk Ht.
      destruct (decide (k = "analysis-" +:+ ContractAnalysis.id a)) as [->|Hother].
      * pose proof (storeAnalysis_storage toISOString withinQuota a before) as Hst.
        cbv zeta in Hst.
        destruct (withinQuota (withAnalysis toISOString a before)).
        -- assert (getItem ("analysis-" +:+ ContractAnalysis.id a)
                     (storeAnalysis toISOString withinQuota a before).2
                   = JSON_stringify toISOString (ContractAnalysis.toValue a)) as Hitem.
           { destruct Hst as [->|(x & -> & _)].
             - apply withAnalysis_item.
             - rewrite written_other by done. apply withAnalysis_item. }
           rewrite Hitem in Ht.
           destruct (stringify_analysis toISOString a) as [members Hm].
           rewrite Hm in Ht. injection Ht as <-. by exists members.
        -- rewrite Hst in Ht. by apply (Hobjects _ _ Hk).
      * rewrite storeAnalysis_lookup_other in Ht by done. by apply (Hobjects _ _ Hk).
    + pose proof (storeAnalysis_cases toISOString withinQuota a before ids Ha Hids) as Hr.
      cbv zeta in Hr.
      destruct (withinQuota (withAnalysis toISOString a before)) eqn:Hfits;
        [destruct (withinQuota (withIds _ _)) eqn:Hfits2|].
      * exists (latestIds (ContractAnalysis.id a) ids). rewrite Hr. cbn [snd].
        split; [apply holdsIds_withIds|].
        apply Forall_forall. intros i [->|Hi]%latestIds_subset.
        -- split; [done|]. unfold withIds. apply written_keeps.
           rewrite withAnalysis_item.
           destruct (stringify_analysis toISOString a) as [members ->]. by eexists.
        -- rewrite Forall_forall in Hitems. destruct (Hitems i Hi) as [Hne Hsome].
           split; [done|]. unfold withIds, withAnalysis. by do 2 apply written_keeps.
      * exists ids. rewrite Hr. cbn [snd].
        split; [by apply holdsIds_withAnalysis|].
        eapply Forall_impl; [exact Hitems|]. intros i [Hne Hsome].
        split; [done|]. unfold withAnalysis. by apply written_keeps.
      * exists ids. rewrite Hr. by split.
Qed.

(** X1: a call with an id other than ["ids"], on a storage whose list holds
    [ids], returns exactly when the analysis and then the new list are
    within the quota; [useAnalysisList] then reads the id followed by the
    first nine of the other ids, in their former order.  Otherwise the
    call throws [QuotaExceededError], and [useAnalysisList] reads the list
    as it was. *)
Theorem storeAnalysis_then_useAnalysisList a st ids :
  ContractAnalysis.id a ≠ "ids" →
  holdsIds ids st →
  let id := ContractAnalysis.id a in
  let r := storeAnalysis toISOString withinQuota a st in
  let st1 := withAnalysis toISOString a st in
  (r.1 = Returned
   ↔ withinQuota st1 = true ∧ withinQuota (withIds (latestIds id ids) st1) = true)
  ∧ (r.1 = Returned →
     useAnalysisList r.2 = Some (VArr (VStr <$> id :: take 9 (filter (λ s, s ≠ id) ids))))
  ∧ (r.1 ≠ Returned →
     r.1 = ThrewQuotaExceededError ∧ useAnalysisList r.2 = Some (VArr (VStr <$> ids))).
Proof.
  intros Hid Hids id r st1. subst r.
  rewrite (storeAnalysis_cases toISOString withinQuota a st ids Hid Hids).
  fold id st1.
  destruct (withinQuota st1) eqn:Hfits;
    [destruct (withinQuota (withIds (latestIds id ids) st1)) eqn:Hfits2|]; cbn [fst snd].
  - split; [done|]. split; [|done]. intros _.
    apply (useAnalysisList_holdsIds (latestIds id ids)), holdsIds_withIds.
  - split; [by split; [|intros [_ ?]]|]. split; [done|]. intros _. split; [done|].
    apply useAnalysisList_holdsIds. by apply holdsIds_withAnalysis.
  - split; [by split; [|intros [? _]]|]. split; [done|]. intros _. split; [done|].
    by apply useAnalysisList_holdsIds.
Qed.

(** X2: from the empty storage, after any sequence of calls none of which
    has the id ["ids"], and whatever the quota lets through, the list holds
    no id twice, holds ten ids at most and holds ids of the calls only; it
    has the id of the last call first when that call returned, and is as it
    was before the last call when that call threw. *)
Theorem storeAll_keeps_idsInvariant log a :
  Forall (λ b, ContractAnalysis.id b ≠ "ids") (log ++ [a]) →
  let before := storeAll toISOString withinQuota log ∅ in
  let after := storeAll toISOString withinQuota (log ++ [a]) ∅ in
  let last := storeAnalysis toISOString withinQuota a before in
  (∃ ids, holdsIds ids after ∧ NoDup ids ∧ (length ids ≤ 10)%nat
          ∧ ∀ i, i ∈ ids → i ∈ ContractAnalysis.id <$> (log ++ [a])%list)
  ∧ (last.1 = Returned → idsInvariant (ContractAnalysis.id a) after)
  ∧ (last.1 ≠ Returned → ∀ ids, holdsIds ids before → holdsIds ids after).
Proof.
  intros Hall before after last.
  split; [apply (storeAll_ids toISOString withinQuota _ Hall)|].
  apply Forall_app in Hall as [Hlog [Ha _]%Forall_cons].
  destruct (storeAll_ids toISOString withinQuota log Hlog) as (ids & Hids & Hnd & _).
  fold before in Hids.
  assert (after = last.2) as -> by apply storeAll_snoc.
  destruct (NoDup_latestIds (ContractAnalysis.id a) ids Hnd) as [Hnd' Hlen'].
  destruct (storeAnalysis_ids toISOString withinQuota a before ids Ha Hids)
    as [[Hret Hafter]|[Hthrew Hafter]]; fold last in Hret || fold last in Hthrew;
    fold last in Hafter.
  - split; [|done]. intros _. unfold idsInvariant. unfold latestIds in *. eauto.
  - split; [by rewrite Hthrew|]. intros _ ids' Hids'.
    by rewrite (holdsIds_inj _ _ _ Hids' Hids).
Qed.

(** X3: a call writes the item of the analysis and the item of the list
    only, and removes nothing: every other item is as it was, and an item
    that existed before the call exists after it, however the call
    completes.  The item of the analysis exists after the call when the
    analysis is within the quota; when it is not, the call throws and the
    storage is as it was. *)
Theorem storeAnalysis_touches_two_items a st k :
  let r := storeAnalysis toISOString withinQuota a st in
  (k ≠ "analysis-" +:+ ContractAnalysis.id a → k ≠ "analysis-ids" →
   getItem k r.2 = getItem k st)
  ∧ (is_Some (getItem k st) → is_Some (getItem k r.2))
  ∧ (if withinQuota (withAnalysis toISOString a st)
     then is_Some (getItem ("analysis-" +:+ ContractAnalysis.id a) r.2)
     else r = (ThrewQuotaExceededError, st)).
Proof.
  intros r. split; [apply storeAnalysis_lookup_other|].
  split; [apply storeAnalysis_keeps_keys|].
  destruct (withinQuota (withAnalysis toISOString a st)) eqn:Hfits.
  - by apply storeAnalysis_writes_item.
  - by apply storeAnalysis_over_quota.
Qed.

(** X4: no call removes an item: after any sequence of calls every item
    that was in the storage is still there, and the item of an analysis
    that was within the quota when it was stored is there, also when its
    id has left the list of ten. *)
Theorem storeAll_never_evicts_items log st :
  (∀ k, is_Some (getItem k st) →
        is_Some (getItem k (storeAll toISOString withinQuota log st)))
  ∧ (∀ earlier a later,
       log = (earlier ++ a :: later)%list →
       withinQuota
         (withAnalysis toISOString a (storeAll toISOString withinQuota earlier st)) = true →
       is_Some (getItem ("analysis-" +:+ ContractAnalysis.id a)
                  (storeAll toISOString withinQuota log st))).
Proof.
  split; [intros k; apply storeAll_keeps_keys|].
  intros earlier a later -> Hfits.
  unfold storeAll. rewrite foldl_app. cbn [foldl].
  apply (storeAll_keeps_keys toISOString withinQuota later).
  by apply storeAnalysis_writes_item.
Qed.

(** X5: from the empty storage, after calls none of which has the id
    ["ids"], and whatever the quota lets through, every id of the list has
    its item in the storage, the text of an object, and
    [useStoredAnalysis] reads that object for every listed id but the
    empty one, for which it gives [null] without reading the storage. *)
Theorem storeAll_list_has_no_dangling_id log ids i :
  Forall (λ b, ContractAnalysis.id b ≠ "ids") log →
  holdsIds ids (storeAll toISOString withinQuota log ∅) →
  i ∈ ids →
  let st := storeAll toISOString withinQuota log ∅ in
  ∃ members,
    getItem ("analysis-" +:+ i) st = Some (JSONText (JObject members))
    ∧ useStoredAnalysis (Some i) st
      = Some (if String.eqb i "" then VNull else build (JObject members)).
Proof.
  intros Hlog Hids Hi st.
  destruct (storeAll_listed_items log Hlog) as (Hobjects & ids' & Hids' & Hitems).
  fold st in Hobjects, Hids', Hitems.
  rewrite (holdsIds_inj _ _ _ Hids Hids') in Hi.
  rewrite Forall_forall in Hitems. destruct (Hitems i Hi) as [Hne [t Ht]].
  destruct (Hobjects ("analysis-" +:+ i) t) as [members ->]; [|done|].
  { intros Hkey. by apply Hne, analysis_key_is_ids. }
  exists members. split; [done|]. unfold useStoredAnalysis. rewrite Ht.
  by destruct i.
Qed.

(** X6: storing an analysis a second time changes nothing: for an id other
    than ["ids"] and a storage whose list holds strings, the second call
    completes as the first and leaves the storage of the first, whatever
    the quota. *)
Theorem storeAnalysis_twice a st ids :
  ContractAnalysis.id a ≠ "ids" →
  holdsIds ids st →
  storeAnalysis toISOString withinQuota a (storeAnalysis toISOString withinQuota a st).2
  = storeAnalysis toISOString withinQuota a st.
Proof.
  intros Hid Hids.
  set (id := ContractAnalysis.id a).
  set (st1 := withAnalysis toISOString a st).
  set (st2 := withIds (latestIds id ids) st1).
  assert ("analysis-" +:+ id ≠ "analysis-ids") as Hkey
    by (intros Hkey; by apply Hid, analysis_key_is_ids).
  assert (withAnalysis toISOString a st1 = st1) as Hst1.
  { unfold st1, withAnalysis, written. apply insert_insert_eq. }
  assert (withAnalysis toISOString a st2 = st2) as Hst2.
  { unfold withAnalysis, written. apply insert_id.
    fold (getItem ("analysis-" +:+ ContractAnalysis.id a) st2).
    unfold st2, withIds. rewrite written_other by done.
    unfold st1. rewrite withAnalysis_item.
    by destruct (stringify_analysis toISOString a) as [members ->]. }
  assert (∀ l, withIds l st2 = withIds l st1) as Hlist.
  { intros l. unfold st2, withIds, written. apply insert_insert_eq. }
  rewrite (storeAnalysis_cases toISOString withinQuota a st ids Hid Hids).
  fold id st1 st2.
  destruct (withinQuota st1) eqn:Hfits1;
    [destruct (withinQuota st2) eqn:Hfits2|]; cbn [snd].
  - rewrite (storeAnalysis_cases toISOString withinQuota a st2 (latestIds id ids) Hid);
      [|apply holdsIds_withIds].
    fold id. rewrite Hst2, latestIds_again, Hlist. fold st2. by rewrite Hfits2.
  - rewrite (storeAnalysis_cases toISOString withinQuota a st1 ids Hid);
      [|by apply holdsIds_withAnalysis].
    fold id. rewrite Hst1. fold st2. by rewrite Hfits1, Hfits2.
  - rewrite (storeAnalysis_cases toISOString withinQuota a st ids Hid Hids).
    fold id st1. by rewrite Hfits1.
Qed.

End StorageExtras.

Lemma exampleAnalysis_id_not_ids : ContractAnalysis.id exampleAnalysis ≠ "ids".
Proof. discriminate. Qed.

Lemma holdsIds_empty : holdsIds [] (∅ : gmap string text).
Proof. reflexivity. Qed.

Lemma holdsIds_exampleStorage : holdsIds ["b2"; "a1"] exampleStorage.
Proof. reflexivity. Qed.

(** The sample analysis stored again, in a storage that lists it second
    and may hold three items: the call returns and the list has it
    first. *)
Lemma storeAnalysis_then_useAnalysisList_witness :
  let r := storeAnalysis exampleToISOString (atMostItems 3) exampleAnalysis exampleStorage in
  let st1 := withAnalysis exampleToISOString exampleAnalysis exampleStorage in
  (r.1 = Returned
   ↔ atMostItems 3 st1 = true
     ∧ atMostItems 3 (withIds (latestIds "a1" ["b2"; "a1"]) st1) = true)
  ∧ (r.1 = Returned →
     useAnalysisList r.2 = Some (VArr (VStr <$> ["a1"; "b2"])))
  ∧ (r.1 ≠ Returned →
     r.1 = ThrewQuotaExceededError
     ∧ useAnalysisList r.2 = Some (VArr (VStr <$> ["b2"; "a1"]))).
Proof.
  exact (storeAnalysis_then_useAnalysisList exampleToISOString (atMostItems 3)
           exampleAnalysis exampleStorage ["b2"; "a1"]
           exampleAnalysis_id_not_ids holdsIds_exampleStorage).
Defined.

Example storeAnalysis_quota_examples :
  storeAnalysis exampleToISOString (atMostItems 3) exampleAnalysis exampleStorage
  = (Returned,
     withIds ["a1"; "b2"] (withAnalysis exampleToISOString exampleAnalysis exampleStorage))
  ∧ storeAnalysis exampleToISOString (atMostItems 1)
      (setId "c3" exampleAnalysis) exampleStorage
    = (ThrewQuotaExceededError, exampleStorage)
  ∧ storeAnalysis exampleToISOString (atMostItems 1) exampleAnalysis ∅
    = (ThrewQuotaExceededError, withAnalysis exampleToISOString exampleAnalysis ∅).
Proof.
  split_and!.
  - rewrite (storeAnalysis_cases _ _ _ _ ["b2"; "a1"]
               exampleAnalysis_id_not_ids holdsIds_exampleStorage).
    reflexivity.
  - apply storeAnalysis_over_quota. reflexivity.
  - rewrite (storeAnalysis_cases _ _ _ _ [] exampleAnalysis_id_not_ids holdsIds_empty).
    reflexivity.
Qed.

Lemma storeAll_keeps_idsInvariant_witness :
  let before := storeAll exampleToISOString (atMostItems 3) [setId "b2" exampleAnalysis] ∅ in
  let after :=
    storeAll exampleToISOString (atMostItems 3)
      ([setId "b2" exampleAnalysis] ++ [exampleAnalysis])%list ∅ in
  let last := storeAnalysis exampleToISOString (atMostItems 3) exampleAnalysis before in
  (∃ ids, holdsIds ids after ∧ NoDup ids ∧ (length ids ≤ 10)%nat
          ∧ ∀ i, i ∈ ids →
                 i ∈ ContractAnalysis.id <$> ([setId "b2" exampleAnalysis] ++ [exampleAnalysis])%list)
  ∧ (last.1 = Returned → idsInvariant "a1" after)
  ∧ (last.1 ≠ Returned → ∀ ids, holdsIds ids before → holdsIds ids after).
Proof.
  apply (storeAll_keeps_idsInvariant exampleToISOString (atMostItems 3)
           [setId "b2" exampleAnalysis] exampleAnalysis).
  repeat constructor; discriminate.
Defined.

Lemma storeAll_list_has_no_dangling_id_witness :
  let st := storeAll exampleToISOString unlimited [exampleAnalysis] ∅ in
  ∃ members,
    getItem "analysis-a1" st = Some (JSONText (JObject members))
    ∧ useStoredAnalysis (Some "a1") st = Some (build (JObject members)).
Proof.
  apply (storeAll_list_has_no_dangling_id exampleToISOString unlimited
           [exampleAnalysis] ["a1"] "a1").
  - repeat constructor; discriminate.
  - reflexivity.
  - apply list_elem_of_here.
Defined.

Lemma storeAnalysis_twice_witness :
  storeAnalysis exampleToISOString (atMostItems 3) exampleAnalysis
    (storeAnalysis exampleToISOString (atMostItems 3) exampleAnalysis exampleStorage).2
  = storeAnalysis exampleToISOString (atMostItems 3) exampleAnalysis exampleStorage.
Proof.
  exact (storeAnalysis_twice exampleToISOString (atMostItems 3) exampleAnalysis
           exampleStorage ["b2"; "a1"]
           exampleAnalysis_id_not_ids holdsIds_exampleStorage).
Defined.

(** ** More on the record built by [analyzeContract] *)

(** X7: for a response of the type [GeminiAnalysisResponse],
    [analyzeContract] returns the record made of the fresh id, the title,
    the contract text, the fields of the response and the time of the call;
    nothing is checked on the way, and the record conforms to the schema
    exactly when the risk score of the response, the risk score of each of
    its clauses and the five scores of its risk breakdown are in [0,100],
    its confidence is in [0,1] and the indices of its clauses are not
    [NaN]. *)
Theorem analyzeContract_return_of_response uuid now title contractText
    (r : GeminiAnalysisResponse.t) :
  let a := analysisOfResponse uuid now title contractText r in
  let record := analyzeContract_return uuid now title contractText
                  (GeminiAnalysisResponse.toValue r) in
  record = ContractAnalysis.toValue a
  ∧ ((∃ accepted, validate record = z.Valid accepted)
     ↔ inRange 100 (GeminiAnalysisResponse.riskScore r) = true
       ∧ Forall (λ c, inRange 100 (Clause.riskScore c) = true
                      ∧ notNaN (Clause.startIndex c) = true
                      ∧ notNaN (Clause.endIndex c) = true)
           (GeminiAnalysisResponse.clauses r)
       ∧ breakdownOk (GeminiAnalysisResponse.riskBreakdown r) = true
       ∧ inRange 1 (GeminiAnalysisResponse.confidence r) = true)
  ∧ ((∃ accepted, validate record = z.Valid accepted) → validate record = z.Valid record)
  ∧ ((∃ accepted, validate record = z.Valid accepted) ↔ analysisOk a = true).
Proof.
  intros a record.
  assert (record = ContractAnalysis.toValue a) as -> by reflexivity.
  assert ((∃ accepted, validate (ContractAnalysis.toValue a) = z.Valid accepted)
          ↔ analysisOk a = true) as Hiff.
  { split.
    - intros [accepted Haccepted]. by eapply ContractAnalysis_toValue_accepted.
    - intros Hok. eexists. by apply ContractAnalysis_toValue_Valid. }
  split; [done|]. split; [|split; [|done]].
  - rewrite Hiff. unfold analysisOk, a. cbn -[forallb bool_decide].
    rewrite !andb_true_iff, bool_decide_eq_true.
    assert (forallb clauseOk (GeminiAnalysisResponse.clauses r) = true
            ↔ Forall (λ c, inRange 100 (Clause.riskScore c) = true
                           ∧ notNaN (Clause.startIndex c) = true
                           ∧ notNaN (Clause.endIndex c) = true)
                (GeminiAnalysisResponse.clauses r)) as ->.
    { induction (GeminiAnalysisResponse.clauses r) as [|c cs IH].
      - split; [by constructor|done].
      - cbn [forallb]. rewrite andb_true_iff, Forall_cons, IH. unfold clauseOk.
        rewrite !andb_true_iff. tauto. }
    split; [tauto|]. intros (? & ? & ? & ?). by repeat split; eauto.
  - intros Hacc%Hiff. by apply ContractAnalysis_toValue_Valid.
Qed.

Example analyzeContract_return_confidence_out_of_range :
  ∃ issues,
    validate (analyzeContract_return "id" 0 "Title" "Text"
                (GeminiAnalysisResponse.toValue
                   {| GeminiAnalysisResponse.riskScore := Finite 40;
                      GeminiAnalysisResponse.clauses := [];
                      GeminiAnalysisResponse.keyIssues := [];
                      GeminiAnalysisResponse.missingProtections := [];
                      GeminiAnalysisResponse.riskBreakdown :=
                        ContractAnalysis.riskBreakdown exampleAnalysis;
                      GeminiAnalysisResponse.plainLanguageSummary := "";
                      GeminiAnalysisResponse.confidence := Finite 7 |}))
    = z.Invalid issues.
Proof. eexists. vm_compute. reflexivity. Qed.

(** X8: every property of the response, [analysisDate] apart, reaches the
    record as it is: a title, a content or an id of the response replaces
    the one [analyzeContract] was called with, and a property that no
    schema knows stays in the record; a property the response lacks is the
    one of [{ id, title, content }], if any. *)
Theorem analyzeContract_return_copies_response uuid now title contractText
    analysisData k :
  NoDup (ownProps analysisData).*1 →
  k ≠ "analysisDate" →
  get k (analyzeContract_return uuid now title contractText analysisData)
  = default
      (getProp k [("id", VStr uuid); ("title", VStr title); ("content", VStr contractText)])
      (lookupProp k (ownProps analysisData)).
Proof.
  intros Hnd Hk. unfold analyzeContract_return. cbn [get].
  rewrite getProp_setProp_ne by done. by apply getProp_spread.
Qed.

(** The sample response: its content replaces the contract text, its
    out-of-range score and its unknown property are in the record. *)
Lemma analyzeContract_return_copies_response_witness :
  get "content" (analyzeContract_return "u1" 0 "Loan" "This loan agreement..." exampleResponse)
  = default
      (getProp "content"
         [("id", VStr "u1"); ("title", VStr "Loan");
          ("content", VStr "This loan agreement...")])
      (lookupProp "content" (ownProps exampleResponse)).
Proof.
  apply (analyzeContract_return_copies_response "u1" 0 "Loan" "This loan agreement..."
           exampleResponse "content").
  - apply (bool_decide_eq_true_1 _). vm_compute. reflexivity.
  - discriminate.
Defined.

Example analyzeContract_return_exampleResponse :
  analyzeContract_return "u1" 0 "Loan" "This loan agreement..." exampleResponse
  = VObj [("id", VStr "u1"); ("title", VStr "Untitled"); ("content", VStr "(omitted)");
          ("riskScore", VNum (Finite 250)); ("note", VStr "draft");
          ("analysisDate", VDate (Some 0%Z))].
Proof. vm_compute. reflexivity. Qed.

(** ** More on the classifier *)

Section ClassifierFacts.
Import Regex.

Lemma append_assoc (a b c : string) : (a +:+ b) +:+ c = a +:+ b +:+ c.
Proof.
  induction a as [|x a IH]; [done|].
  change (String x ((a +:+ b) +:+ c) = String x (a +:+ b +:+ c)). by rewrite IH.
Qed.

Lemma append_empty_r (a : string) : a +:+ "" = a.
Proof.
  induction a as [|x a IH]; [done|].
  change (String x (a +:+ "") = String x a). by rewrite IH.
Qed.

Lemma lastChar_append prev a b :
  lastChar prev (a +:+ b) = lastChar (lastChar prev a) b.
Proof.
  revert prev. induction a as [|c a IH]; intros prev; [done|].
  change (lastChar (Some c) (a +:+ b) = lastChar (lastChar (Some c) a) b). apply IH.
Qed.

(** A group matches exactly when one of its terms does. *)
Lemma matches_exists alts s :
  matches alts s = true ↔ ∃ kw, kw ∈ alts ∧ matches [kw] s = true.
Proof.
  rewrite matches_spec. split.
  - intros (pre & kw & post & Hs & Hin & Hb & He). exists kw. split; [done|].
    apply matches_spec. exists pre, kw, post. by rewrite list_elem_of_singleton.
  - intros (kw & Hin & (pre & kw' & post & Hs & ->%list_elem_of_singleton & Hb & He)%matches_spec).
    by exists pre, kw, post.
Qed.

Lemma wordAt_append_word a b : wordAt a = true → wordAt (a +:+ b) = true.
Proof. by destruct a. Qed.

(** Where a term made of two parts joined by a space matches, its second
    part matches too when it starts with a word character. *)
Lemma matches_second_part a b s :
  wordAt b = true →
  matches [a +:+ " " +:+ b] s = true → matches [b] s = true.
Proof.
  intros Hb. rewrite !matches_spec.
  intros (pre & kw & post & -> & ->%list_elem_of_singleton & Hstart & Hend).
  exists (pre +:+ a +:+ " "), b, post.
  split; [by rewrite !append_assoc|]. split; [apply list_elem_of_here|]. split.
  - rewrite !lastChar_append. cbn [lastChar]. unfold atBoundary. cbn [wordBefore from_option].
    by rewrite (wordAt_append_word b post Hb).
  - by rewrite !lastChar_append in *.
Qed.

End ClassifierFacts.

Lemma intellectual_property_is_property s :
  Regex.matches ["intellectual property"] s = true →
  Regex.matches realEstateTerms s = true.
Proof.
  intros Hip. apply matches_exists. exists "property".
  split; [unfold realEstateTerms; rewrite !elem_of_cons; tauto|].
  by apply (matches_second_part "intellectual" "property").
Qed.

(** X9: the technology term "intellectual property" never decides: a text
    in which it matches is classified as finance or as real_estate, whose
    term "property" matches there and is tested before; so whenever the
    result is technology, a technology term other than "intellectual
    property" matches. *)
Theorem detectContractDomain_intellectual_property (toLowerCase : string → string)
    text title :
  let lowered := toLowerCase (text +:+ " " +:+ title) in
  let result := detectContractDomain toLowerCase text title in
  (Regex.matches ["intellectual property"] lowered = true →
   result = "finance" ∨ result = "real_estate")
  ∧ (result = "technology" →
     Regex.matches (filter (λ t, t ≠ "intellectual property") technologyTerms) lowered
     = true).
Proof.
  intros lowered result.
  assert (Regex.matches ["intellectual property"] lowered = true →
          result = "finance" ∨ result = "real_estate") as Hip.
  { intros Hre%intellectual_property_is_property.
    subst result. unfold detectContractDomain. fold lowered. rewrite Hre.
    destruct (Regex.matches financeTerms lowered); auto. }
  split; [exact Hip|].
  intros Htech.
  assert (Regex.matches technologyTerms lowered = true) as Hterm.
  { revert Htech. subst result. unfold detectContractDomain. fold lowered.
    repeat (destruct (Regex.matches _ lowered); try done). }
  apply matches_exists in Hterm as (kw & Hkw & Hmatch).
  apply matches_exists. exists kw. split; [|done].
  apply list_elem_of_filter. split; [|done].
  intros ->. destruct (Hip Hmatch) as [Hr|Hr]; rewrite Hr in Htech; discriminate.
Qed.

(** X10: the vendor term "materials" never decides either, as it is a
    construction term too and construction is tested before: whenever the
    result is vendor, a vendor term other than "materials" matches. *)
Theorem detectContractDomain_vendor_materials (toLowerCase : string → string)
    text title :
  let lowered := toLowerCase (text +:+ " " +:+ title) in
  detectContractDomain toLowerCase text title = "vendor" →
  Regex.matches (filter (λ t, t ≠ "materials") vendorTerms) lowered = true.
Proof.
  intros lowered. unfold detectContractDomain. fold lowered.
  destruct (Regex.matches financeTerms lowered); [done|].
  destruct (Regex.matches realEstateTerms lowered); [done|].
  destruct (Regex.matches insuranceTerms lowered); [done|].
  destruct (Regex.matches employmentTerms lowered); [done|].
  destruct (Regex.matches technologyTerms lowered); [done|].
  destruct (Regex.matches healthcareTerms lowered); [done|].
  destruct (Regex.matches constructionTerms lowered) eqn:Hconstruction; [done|].
  destruct (Regex.matches vendorTerms lowered) eqn:Hvendor;
    [|by destruct (Regex.matches professionalTerms lowered)].
  intros _.
  apply matches_exists in Hvendor as (kw & Hkw & Hmatch).
  apply matches_exists. exists kw. split; [|done].
  apply list_elem_of_filter. split; [|done].
  intros ->.
  assert (Regex.matches constructionTerms lowered = true) as Hc; [|congruence].
  apply matches_exists. exists "materials". split; [|done].
  unfold constructionTerms. rewrite !elem_of_cons. tauto.
Qed.

(** A supply contract with no construction term. *)
Lemma detectContractDomain_vendor_materials_witness :
  Regex.matches (filter (λ t, t ≠ "materials") vendorTerms)
    (toLowerCaseLatin1 ("The Supplier ships the goods." +:+ " " +:+ "Order")) = true.
Proof.
  apply (detectContractDomain_vendor_materials toLowerCaseLatin1
           "The Supplier ships the goods." "Order").
  vm_compute. reflexivity.
Defined.

(** The demo of the dashboard, a consulting agreement with an
    "INTELLECTUAL PROPERTY" section, is classified as real_estate. *)
Example detectContractDomain_demoContract :
  detectContractDomain toLowerCaseLatin1 demoContract
    "Demo Professional Consulting Agreement" = "real_estate".
Proof. vm_compute. reflexivity. Qed.

Section TextAndTitle.
Import Regex.

Lemma toLowerCaseLatin1_append a b :
  toLowerCaseLatin1 (a +:+ b) = toLowerCaseLatin1 a +:+ toLowerCaseLatin1 b.
Proof.
  induction a as [|c a IH]; [done|].
  change (String (lowerCodeUnit c) (toLowerCaseLatin1 (a +:+ b))
          = String (lowerCodeUnit c) (toLowerCaseLatin1 a +:+ toLowerCaseLatin1 b)).
  by rewrite IH.
Qed.

Lemma wordAt_append_rest a rest : wordAt rest = false → wordAt (a +:+ rest) = wordAt a.
Proof. by destruct a. Qed.

Lemma wordBefore_lastChar prev pre :
  wordBefore prev = false →
  wordBefore (lastChar prev pre) = wordBefore (lastChar None pre).
Proof. by destruct pre. Qed.

Lemma wordBefore_after_space prev a m :
  wordBefore (lastChar prev (a +:+ " " +:+ m)) = wordBefore (lastChar None m).
Proof.
  rewrite lastChar_append.
  change (lastChar (lastChar prev a) (" " +:+ m)) with (lastChar (Some " "%char) m).
  by apply wordBefore_lastChar.
Qed.

(** A match in [a] is a match in [a] followed by a text that starts with
    no word character. *)
Lemma matches_left alts a rest :
  wordAt rest = false → matches alts a = true → matches alts (a +:+ rest) = true.
Proof.
  intros Hrest. rewrite !matches_spec.
  intros (pre & kw & post & -> & Hin & Hstart & Hend).
  exists pre, kw, (post +:+ rest).
  split; [by rewrite !append_assoc|]. split; [done|]. split.
  - revert Hstart. unfold atBoundary.
    by rewrite <- append_assoc, (wordAt_append_rest (kw +:+ post) rest Hrest).
  - revert Hend. unfold atBoundary. by rewrite (wordAt_append_rest post rest Hrest).
Qed.

(** A match in [b] is a match in [b] preceded by a text that ends with no
    word character. *)
Lemma matches_right alts a b :
  wordBefore (lastChar None a) = false →
  matches alts b = true → matches alts (a +:+ b) = true.
Proof.
  intros Ha. rewrite !matches_spec.
  intros (pre & kw & post & -> & Hin & Hstart & Hend).
  exists (a +:+ pre), kw, post.
  split; [by rewrite !append_assoc|]. split; [done|]. split.
  - revert Hstart. unfold atBoundary.
    by rewrite lastChar_append, (wordBefore_lastChar _ pre Ha).
  - revert Hend. unfold atBoundary.
    by rewrite append_assoc, (lastChar_append None a),
      (wordBefore_lastChar _ (pre +:+ kw) Ha).
Qed.

(** A term without a space at the front of [a], a space, [b]: the term
    lies in [a]. *)
Lemma oneWord_prefix kw post a b :
  hasSpace kw = false →
  kw +:+ post = a +:+ " " +:+ b →
  ∃ m, a = kw +:+ m ∧ post = m +:+ " " +:+ b.
Proof.
  revert a. induction kw as [|c kw IH]; intros a Hkw Heq.
  - exists a. by split.
  - cbn [hasSpace] in Hkw. apply orb_false_iff in Hkw as [Hc Hkw].
    destruct a as [|x a].
    + injection Heq as -> _. done.
    + injection Heq as -> Heq. destruct (IH a Hkw Heq) as (m & -> & ->).
      by exists m.
Qed.

(** A term of one word in [a], a space, [b] lies in [a] or in [b]. *)
Lemma oneWord_split pre kw post a b :
  oneWord kw →
  pre +:+ kw +:+ post = a +:+ " " +:+ b →
  (∃ m, a = pre +:+ kw +:+ m ∧ post = m +:+ " " +:+ b)
  ∨ (∃ m, pre = a +:+ " " +:+ m ∧ b = m +:+ kw +:+ post).
Proof.
  intros [Hne Hkw]. revert pre. induction a as [|x a IH]; intros pre Heq.
  - destruct pre as [|c pre].
    + destruct kw as [|c kw]; [done|]. injection Heq as -> _. done.
    + injection Heq as -> Heq. right. by exists pre.
  - destruct pre as [|c pre].
    + left. destruct (oneWord_prefix kw post (String x a) b Hkw Heq) as (m & Ha & Hpost).
      by exists m.
    + injection Heq as -> Heq. destruct (IH pre Heq) as [(m & -> & ->)|(m & -> & ->)].
      * left. by exists m.
      * right. by exists m.
Qed.

Lemma matches_one_side alts a b :
  Forall oneWord alts →
  matches alts (a +:+ " " +:+ b) = true →
  matches alts a = true ∨ matches alts b = true.
Proof.
  intros Halts. rewrite !matches_spec.
  intros (pre & kw & post & Heq & Hin & Hstart & Hend).
  rewrite Forall_forall in Halts.
  destruct (oneWord_split pre kw post a b (Halts kw Hin) (eq_sym Heq))
    as [(m & -> & ->)|(m & -> & ->)].
  - left. exists pre, kw, m. split; [done|]. split; [done|]. split.
    + revert Hstart. unfold atBoundary.
      by rewrite <- append_assoc, (wordAt_append_rest (kw +:+ m) (" " +:+ b)).
    + revert Hend. unfold atBoundary. by rewrite (wordAt_append_rest m (" " +:+ b)).
  - right. exists m, kw, post. split; [done|]. split; [done|]. split.
    + revert Hstart. unfold atBoundary. by rewrite wordBefore_after_space.
    + revert Hend. unfold atBoundary.
      by rewrite !append_assoc, wordBefore_after_space.
Qed.

End TextAndTitle.

(** X11: the text and the title are searched as two texts apart. With the
    lower-casing of the strings of the model, a group that matches in the
    text alone or in the title alone matches for the classifier, so a
    finance term in either gives finance; and a group whose terms are
    single words matches for the classifier only if it matches in the text
    or in the title: the space between them keeps a word from forming
    across the border. *)
Theorem detectContractDomain_text_and_title text title :
  let lowered := toLowerCaseLatin1 (text +:+ " " +:+ title) in
  (∀ alts,
      Regex.matches alts (toLowerCaseLatin1 text) = true
      ∨ Regex.matches alts (toLowerCaseLatin1 title) = true →
      Regex.matches alts lowered = true)
  ∧ (Regex.matches financeTerms (toLowerCaseLatin1 text) = true
     ∨ Regex.matches financeTerms (toLowerCaseLatin1 title) = true →
     detectContractDomain toLowerCaseLatin1 text title = "finance")
  ∧ (∀ alts,
        Forall oneWord alts →
        Regex.matches alts lowered = true →
        Regex.matches alts (toLowerCaseLatin1 text) = true
        ∨ Regex.matches alts (toLowerCaseLatin1 title) = true).
Proof.
  intros lowered.
  assert (lowered = toLowerCaseLatin1 text +:+ " " +:+ toLowerCaseLatin1 title) as Hlowered
    by (subst lowered; by rewrite !toLowerCaseLatin1_append).
  assert (∀ alts,
      Regex.matches alts (toLowerCaseLatin1 text) = true
      ∨ Regex.matches alts (toLowerCaseLatin1 title) = true →
      Regex.matches alts lowered = true) as Hparts.
  { intros alts [Htext|Htitle]; rewrite Hlowered.
    - by apply matches_left.
    - rewrite <- append_assoc. apply matches_right; [|done].
      by rewrite lastChar_append. }
  split; [exact Hparts|]. split.
  - intros Hfin%Hparts. unfold detectContractDomain. fold lowered. by rewrite Hfin.
  - intros alts Halts. rewrite Hlowered. by apply matches_one_side.
Qed.

Example detectContractDomain_term_across_the_border :
  detectContractDomain toLowerCaseLatin1 "Units of the hedge" "fund" = "finance" ∧
  detectContractDomain toLowerCaseLatin1 "Build" "ing" = "general".
Proof. split; vm_compute; reflexivity. Qed.

(** ** File processing *)

Lemma splitOn_not_nil sep s : splitOn sep s ≠ [].
Proof. destruct s as [|c s]; cbn; [done|]. destruct (Ascii.eqb c sep); [done|]. by destruct (splitOn sep s). Qed.

Lemma last_cons_not_nil {A} (x : A) l : l ≠ [] → last (x :: l) = last l.
Proof. by destruct l. Qed.

Lemma splitOn_shape sep s :
  ∃ piece pieces,
    splitOn sep s = piece :: pieces
    ∧ hasChar sep piece = false
    ∧ (pieces = [] → s = piece)
    ∧ (pieces ≠ [] →
       ∃ e stem, last pieces = Some e ∧ hasChar sep e = false
                 ∧ s = stem +:+ String sep e).
Proof.
  induction s as [|c s (p & ps & Hs & Hp & Hnil & Hcons)].
  - by exists "", [].
  - cbn [splitOn]. rewrite Hs. destruct (Ascii.eqb c sep) eqn:Hc.
    + apply Ascii.eqb_eq in Hc as ->.
      exists "", (p :: ps). split_and!; [done..|]. intros _.
      destruct ps as [|q ps].
      * exists p, "". by rewrite (Hnil eq_refl).
      * destruct Hcons as (e & stem & He & Hno & ->); [done|].
        exists e, (String sep stem). by rewrite last_cons_not_nil.
    + exists (String c p), ps. split_and!; [done|by cbn; rewrite Hc|..].
      * intros Hps. by rewrite (Hnil Hps).
      * intros Hps. destruct (Hcons Hps) as (e & stem & He & Hno & ->).
        by exists e, (String c stem).
Qed.

Lemma last_splitOn sep s :
  ∃ e, last (splitOn sep s) = Some e ∧ hasChar sep e = false
       ∧ (s = e ∨ ∃ stem, s = stem +:+ String sep e).
Proof.
  destruct (splitOn_shape sep s) as (p & ps & -> & Hp & Hnil & Hcons).
  destruct ps as [|q ps].
  - exists p. split_and!; [done..|]. left. by apply Hnil.
  - destruct Hcons as (e & stem & He & Hno & ->); [done|].
    exists e. rewrite last_cons_not_nil by done. eauto.
Qed.

Lemma hasChar_append c a b : hasChar c (a +:+ b) = hasChar c a || hasChar c b.
Proof.
  induction a as [|x a IH]; [done|].
  change (Ascii.eqb x c || hasChar c (a +:+ b)
          = Ascii.eqb x c || hasChar c a || hasChar c b).
  rewrite IH. by destruct (Ascii.eqb x c).
Qed.

Lemma last_splitOn_unique sep s e stem :
  hasChar sep e = false →
  s = stem +:+ String sep e →
  last (splitOn sep s) = Some e.
Proof.
  intros He ->. induction stem as [|c stem IH].
  - change (last (splitOn sep (String sep e)) = Some e). cbn [splitOn].
    rewrite Ascii.eqb_refl.
    destruct (splitOn_shape sep e) as (p & ps & Hs & Hp & Hnil & Hcons).
    rewrite Hs. destruct ps as [|q ps].
    + by rewrite (Hnil eq_refl).
    + destruct Hcons as (e' & stem' & _ & _ & Heq); [done|].
      rewrite Heq, hasChar_append in He. cbn in He. rewrite Ascii.eqb_refl in He.
      by destruct (hasChar sep stem').
  - change (last (splitOn sep (String c (stem +:+ String sep e))) = Some e).
    cbn [splitOn]. destruct (Ascii.eqb c sep).
    + rewrite last_cons_not_nil by apply splitOn_not_nil. done.
    + destruct (splitOn sep (stem +:+ String sep e)) as [|p ps] eqn:Hs;
        [by destruct (splitOn_not_nil sep (stem +:+ String sep e))|].
      destruct ps as [|q ps]; [|done].
      exfalso. destruct (splitOn_shape sep (stem +:+ String sep e))
        as (p' & ps' & Hs' & Hp' & Hnil & _).
      rewrite Hs in Hs'. injection Hs' as <- <-.
      rewrite <- (Hnil eq_refl), hasChar_append in Hp'. cbn in Hp'.
      rewrite Ascii.eqb_refl in Hp'. by destruct (hasChar sep stem).
Qed.

Lemma last_splitOn_whole sep s :
  hasChar sep s = false → last (splitOn sep s) = Some s.
Proof.
  intros Hs. destruct (last_splitOn sep s) as (e & He & Hno & [->| [stem ->]]); [done|].
  rewrite hasChar_append in Hs. cbn in Hs. rewrite Ascii.eqb_refl in Hs.
  by destruct (hasChar sep stem).
Qed.

Lemma splitWhiteSpace_head s :
  ∃ piece pieces, splitWhiteSpace s = piece :: pieces
                  ∧ (piece = "" ↔ startsWord s = false).
Proof.
  induction s as [|c s (p & ps & Hs & Hp)].
  - by exists "", [].
  - cbn [splitWhiteSpace startsWord]. rewrite Hs. destruct (isWhiteSpace c) eqn:Hc.
    + destruct (startsWithWhiteSpace s) eqn:Hw.
      * exists p, ps. split; [done|]. split; [done|]. intros _. apply Hp.
        destruct s; [done|]. cbn in Hw |- *. by rewrite Hw.
      * by exists "", (p :: ps).
    + exists (String c p), ps. split; [done|]. by split.
Qed.

Lemma countWords_cons c s :
  countWords (String c s)
  = if isWhiteSpace c then countWords s
    else if startsWord s then countWords s else S (countWords s).
Proof.
  unfold countWords. cbn [splitWhiteSpace].
  destruct (splitWhiteSpace_head s) as (p & ps & Hs & Hp). rewrite Hs.
  destruct (isWhiteSpace c) eqn:Hc.
  - destruct (startsWithWhiteSpace s); [done|].
    rewrite filter_cons_False; [done|]. cbn. lia.
  - rewrite filter_cons_True by (cbn; lia).
    destruct (startsWord s) eqn:Hw.
    + rewrite filter_cons_True; [done|].
      destruct p; [|cbn; lia]. destruct Hp as [Hp _]. by specialize (Hp eq_refl).
    + destruct Hp as [_ Hp]. rewrite (Hp eq_refl).
      rewrite filter_cons_False; [done|]. cbn. lia.
Qed.

Lemma countWords_empty : countWords "" = 0.
Proof. done. Qed.

Lemma countWords_zero s : countWords s = 0 ↔ isBlank s = true.
Proof.
  induction s as [|c s IH]; [done|].
  rewrite countWords_cons. cbn [isBlank]. destruct (isWhiteSpace c) eqn:Hc; [done|].
  cbn [andb]. destruct (startsWord s) eqn:Hw; [|done].
  split; [|done]. intros H0. apply IH in H0.
  destruct s as [|x s]; [done|]. cbn in Hw, H0. by destruct (isWhiteSpace x).
Qed.

Lemma isBlank_append a b : isBlank (a +:+ b) = isBlank a && isBlank b.
Proof.
  induction a as [|x a IH]; [done|].
  change (isWhiteSpace x && isBlank (a +:+ b) = isWhiteSpace x && isBlank a && isBlank b).
  rewrite IH. by destruct (isWhiteSpace x).
Qed.

Lemma countWords_append_space a c b :
  isWhiteSpace c = true →
  countWords (a +:+ String c b) = countWords a + countWords b.
Proof.
  intros Hc. induction a as [|x a IH].
  - change (countWords (String c b) = countWords b). by rewrite countWords_cons, Hc.
  - change (countWords (String x (a +:+ String c b)) = countWords (String x a) + countWords b).
    rewrite !countWords_cons, IH.
    assert (startsWord (a +:+ String c b) = startsWord a) as ->.
    { destruct a; [|done]. change (negb (isWhiteSpace c) = false). by rewrite Hc. }
    destruct (isWhiteSpace x), (startsWord a); lia.
Qed.

Lemma trimEnd_cons c s : isWhiteSpace c = false → trimEnd (String c s) ≠ "".
Proof. intros Hc. cbn. destruct (trimEnd s); by rewrite ?Hc. Qed.

Lemma trimStart_blank s :
  if isBlank s then trimStart s = ""
  else ∃ c rest, trimStart s = String c rest ∧ isWhiteSpace c = false.
Proof.
  induction s as [|c s IH]; [done|].
  cbn. destruct (isWhiteSpace c) eqn:Hc; [done|]. by exists c, s.
Qed.

Lemma trim_length_zero s : (String.length (trim s) =? 0)%nat = isBlank s.
Proof.
  unfold trim. pose proof (trimStart_blank s) as H. destruct (isBlank s).
  - by rewrite H.
  - destruct H as (c & rest & -> & Hc). pose proof (trimEnd_cons c rest Hc).
    by destruct (trimEnd (String c rest)).
Qed.

Lemma isBlank_concat sep l x :
  x ∈ l → isBlank x = false → isBlank (String.concat sep l) = false.
Proof.
  induction l as [|y l IH]; [by intros ?%elem_of_nil|].
  intros Hin Hx. cbn [String.concat]. destruct l as [|y' l].
  - apply list_elem_of_singleton in Hin as ->. done.
  - change (isBlank (y +:+ sep +:+ String.concat sep (y' :: l)) = false).
    rewrite !isBlank_append. apply elem_of_cons in Hin as [<-|Hin].
    + by rewrite Hx.
    + rewrite (IH Hin Hx). by rewrite !andb_false_r.
Qed.

Lemma isBlank_concat_empty l :
  isBlank (String.concat "" l) = forallb isBlank l.
Proof.
  induction l as [|y l IH]; [done|].
  cbn [String.concat forallb]. destruct l as [|y' l].
  - cbn. by rewrite andb_true_r.
  - change (isBlank (y +:+ "" +:+ String.concat "" (y' :: l))
            = isBlank y && forallb isBlank (y' :: l)).
    rewrite !isBlank_append, IH. done.
Qed.

Lemma forallb_false_elem {A} (f : A → bool) l :
  forallb f l = false → ∃ x, x ∈ l ∧ f x = false.
Proof.
  induction l as [|y l IH]; [done|]. cbn. destruct (f y) eqn:Hy.
  - intros (x & Hx & Hf)%IH. exists x. split; [by right|done].
  - intros _. exists y. split; [by left|done].
Qed.

Lemma forallb_true_elem {A} (f : A → bool) l x :
  forallb f l = true → x ∈ l → f x = true.
Proof.
  induction l as [|y l IH]; [by intros _ ?%elem_of_nil|]. cbn.
  intros [Hy Hl]%andb_true_iff [->|Hin]%elem_of_cons; [done|]. by apply IH.
Qed.

Lemma pageText_failed_not_blank i : isBlank (pageText i None) = false.
Proof. done. Qed.

Lemma processPDF_Document pages :
  let textContent := imap (λ i page, pageText (S i) page) pages in
  processPDF (Document pages)
  = if forallb isBlank textContent then inr PdfProcessingFailed
    else inl (String.concat (lf +:+ lf) textContent, length pages).
Proof.
  intros textContent. unfold processPDF, processPDF_try. fold textContent.
  rewrite trim_length_zero, isBlank_concat_empty.
  by destruct (forallb isBlank textContent).
Qed.

Lemma processPDF_content_not_blank doc content pageCount :
  processPDF doc = inl (content, pageCount) → isBlank content = false.
Proof.
  destruct doc as [message|pages].
  - unfold processPDF. cbn. by destruct message as [m|]; [destruct (includes "worker" m)|].
  - rewrite processPDF_Document. cbv zeta.
    destruct (forallb isBlank _) eqn:Hall; [done|]. intros [= <- <-].
    apply forallb_false_elem in Hall as (x & Hx & Hb).
    by apply (isBlank_concat _ _ x Hx).
Qed.

Section FileProcessingFacts.

Variable toLowerCase : string → string.

Lemma processFile_pdf pdfjs mammoth file :
  fileExtension toLowerCase (File.name file) = Some "pdf" →
  processFile toLowerCase pdfjs mammoth file
  = match processPDF pdfjs with
    | inl (content, pageCount) =>
        inl {| ProcessedFile.content := content;
               ProcessedFile.filename := File.name file;
               ProcessedFile.fileType := Pdf;
               ProcessedFile.pageCount := Some pageCount;
               ProcessedFile.wordCount := countWords content |}
    | inr _ => inr PdfProcessingIssues
    end.
Proof.
  intros Hext. unfold processFile. rewrite Hext.
  change (String.eqb "pdf" "") with false. change (String.eqb "pdf" "pdf") with true.
  change (existsb (String.eqb "pdf") ["pdf"; "docx"]) with true.
  cbn [orb negb].
  destruct (processPDF pdfjs) as [[content pageCount]|e] eqn:Hpdf; [|done].
  apply processPDF_content_not_blank in Hpdf.
  destruct (countWords content =? 0)%nat eqn:Hw; [|done].
  apply Nat.eqb_eq, countWords_zero in Hw. congruence.
Qed.

Lemma processFile_docx pdfjs mammoth file :
  fileExtension toLowerCase (File.name file) = Some "docx" →
  processFile toLowerCase pdfjs mammoth file
  = match mammoth with
    | inl content =>
        if isBlank content then inr (NoReadableText Docx)
        else inl {| ProcessedFile.content := content;
                    ProcessedFile.filename := File.name file;
                    ProcessedFile.fileType := Docx;
                    ProcessedFile.pageCount := None;
                    ProcessedFile.wordCount := countWords content |}
    | inr thrown => inr (ExtractionError thrown)
    end.
Proof.
  intros Hext. unfold processFile. rewrite Hext.
  change (String.eqb "docx" "") with false. change (String.eqb "docx" "pdf") with false.
  change (existsb (String.eqb "docx") ["pdf"; "docx"]) with true.
  cbn [orb negb].
  destruct mammoth as [content|thrown]; [|done].
  pose proof (countWords_zero content) as Hz.
  destruct (countWords content =? 0)%nat eqn:Hw.
  - apply Nat.eqb_eq in Hw. apply Hz in Hw. by rewrite Hw.
  - destruct (isBlank content); [|done]. apply Nat.eqb_neq in Hw. by destruct Hw, Hz as [_ ->].
Qed.

Lemma processFile_unsupported pdfjs mammoth file :
  fileExtension toLowerCase (File.name file) ≠ Some "pdf" →
  fileExtension toLowerCase (File.name file) ≠ Some "docx" →
  processFile toLowerCase pdfjs mammoth file = inr UnsupportedFileType.
Proof.
  intros Hpdf Hdocx. unfold processFile.
  destruct (fileExtension toLowerCase (File.name file)) as [ext|]; [|done].
  cbn [existsb]. destruct (String.eqb_spec ext "pdf") as [->|_]; [done|].
  destruct (String.eqb_spec ext "docx") as [->|_]; [done|].
  by rewrite orb_true_r.
Qed.

Lemma fileExtension_cases name :
  fileExtension toLowerCase name = Some "pdf"
  ∨ fileExtension toLowerCase name = Some "docx"
  ∨ (fileExtension toLowerCase name ≠ Some "pdf"
     ∧ fileExtension toLowerCase name ≠ Some "docx").
Proof.
  destruct (decide (fileExtension toLowerCase name = Some "pdf")); [tauto|].
  destruct (decide (fileExtension toLowerCase name = Some "docx")); tauto.
Qed.

Lemma validateFileType_allowed_extension file :
  (fileExtension toLowerCase (File.name file) = Some "pdf"
   ∨ fileExtension toLowerCase (File.name file) = Some "docx") →
  validateFileType toLowerCase file = None.
Proof.
  unfold validateFileType. intros [-> | ->]; cbn; by rewrite andb_false_r.
Qed.

End FileProcessingFacts.

Section FileProcessingTheorems.

Variable toLowerCase : string → string.

Lemma validateFileSize_default file :
  validateFileSize 10 file = None ↔ (File.size file ≤ 10485760)%N.
Proof.
  unfold validateFileSize. change (10 * 1024 * 1024)%N with 10485760%N.
  destruct (N.ltb_spec 10485760 (File.size file)); split; try done; lia.
Qed.

Lemma useFileUpload_too_large pdfjs mammoth file :
  (10485760 < File.size file)%N →
  useFileUpload toLowerCase pdfjs mammoth file = inr (FileSizeExceeded 10).
Proof.
  intros Hsize. unfold useFileUpload, validateFileSize.
  change (10 * 1024 * 1024)%N with 10485760%N.
  by destruct (N.ltb_spec 10485760 (File.size file)); [|lia].
Qed.

Lemma useFileUpload_allowed_extension pdfjs mammoth file :
  (File.size file ≤ 10485760)%N →
  (fileExtension toLowerCase (File.name file) = Some "pdf"
   ∨ fileExtension toLowerCase (File.name file) = Some "docx") →
  useFileUpload toLowerCase pdfjs mammoth file
  = match processFile toLowerCase pdfjs mammoth file with
    | inl processed => inl processed
    | inr e => inr (ProcessingError e)
    end.
Proof.
  intros Hsize Hext. unfold useFileUpload.
  apply validateFileSize_default in Hsize as ->.
  by rewrite (validateFileType_allowed_extension toLowerCase file Hext).
Qed.

Lemma useFileUpload_other_extension pdfjs mammoth file :
  (File.size file ≤ 10485760)%N →
  fileExtension toLowerCase (File.name file) ≠ Some "pdf" →
  fileExtension toLowerCase (File.name file) ≠ Some "docx" →
  useFileUpload toLowerCase pdfjs mammoth file
  = if existsb (String.eqb (File.type file)) allowedTypes
    then inr (ProcessingError UnsupportedFileType)
    else inr InvalidFileType.
Proof.
  intros Hsize Hpdf Hdocx. unfold useFileUpload.
  apply validateFileSize_default in Hsize as ->.
  rewrite (processFile_unsupported toLowerCase pdfjs mammoth file Hpdf Hdocx).
  unfold validateFileType.
  destruct (existsb (String.eqb (File.type file)) allowedTypes); [done|].
  cbn [negb andb].
  destruct (fileExtension toLowerCase (File.name file)) as [ext|]; [|done].
  cbn [default allowedExtensions existsb]. change (id ext) with ext.
  destruct (String.eqb_spec ext "pdf") as [->|_]; [done|].
  destruct (String.eqb_spec ext "docx") as [->|_]; [done|]. done.
Qed.

(** X12. The extension that [processFile] and [validateFileType] compute
    is always there; it is the part of the lower-cased name after its last
    ['.'], and the whole lower-cased name when that has no ['.']. *)
Theorem fileExtension_after_last_dot name :
  let lowered := toLowerCase name in
  (∃ e, fileExtension toLowerCase name = Some e
        ∧ hasChar "." e = false
        ∧ (lowered = e ∨ ∃ stem, lowered = stem +:+ "." +:+ e))
  ∧ (∀ stem e, hasChar "." e = false → lowered = stem +:+ "." +:+ e →
               fileExtension toLowerCase name = Some e)
  ∧ (hasChar "." lowered = false → fileExtension toLowerCase name = Some lowered).
Proof.
  intros lowered. unfold fileExtension. fold lowered. split_and!.
  - apply last_splitOn.
  - intros stem e He Heq. by apply (last_splitOn_unique _ _ _ stem).
  - apply last_splitOn_whole.
Qed.

(** X13. What [useFileUpload] accepts: a file of at most 10 MiB whose
    extension is [pdf] or [docx], whose text was extracted and has a
    character that is not white space; the result has the name of the file,
    the text, its number of words (not zero) and, for a PDF only, the
    number of pages.  The MIME type of the file plays no part. *)
Theorem useFileUpload_accepts_iff pdfjs mammoth file r :
  (useFileUpload toLowerCase pdfjs mammoth file = inl r ↔
   (File.size file ≤ 10485760)%N
   ∧ ProcessedFile.filename r = File.name file
   ∧ ProcessedFile.wordCount r = countWords (ProcessedFile.content r)
   ∧ isBlank (ProcessedFile.content r) = false
   ∧ match ProcessedFile.fileType r with
     | Pdf => fileExtension toLowerCase (File.name file) = Some "pdf"
              ∧ ∃ n, ProcessedFile.pageCount r = Some n
                     ∧ processPDF pdfjs = inl (ProcessedFile.content r, n)
     | Docx => fileExtension toLowerCase (File.name file) = Some "docx"
               ∧ ProcessedFile.pageCount r = None
               ∧ mammoth = inl (ProcessedFile.content r)
     end)
  ∧ (useFileUpload toLowerCase pdfjs mammoth file = inl r →
     0 < ProcessedFile.wordCount r).
Proof.
  assert (useFileUpload toLowerCase pdfjs mammoth file = inl r →
          ProcessedFile.wordCount r = countWords (ProcessedFile.content r)
          ∧ isBlank (ProcessedFile.content r) = false →
          0 < ProcessedFile.wordCount r) as Hpos.
  { intros _ [-> Hb]. pose proof (countWords_zero (ProcessedFile.content r)) as Hz.
    destruct (countWords (ProcessedFile.content r)); [|lia].
    destruct Hz as [Hz _]. rewrite Hz in Hb; done. }
  cut (useFileUpload toLowerCase pdfjs mammoth file = inl r ↔
   (File.size file ≤ 10485760)%N
   ∧ ProcessedFile.filename r = File.name file
   ∧ ProcessedFile.wordCount r = countWords (ProcessedFile.content r)
   ∧ isBlank (ProcessedFile.content r) = false
   ∧ match ProcessedFile.fileType r with
     | Pdf => fileExtension toLowerCase (File.name file) = Some "pdf"
              ∧ ∃ n, ProcessedFile.pageCount r = Some n
                     ∧ processPDF pdfjs = inl (ProcessedFile.content r, n)
     | Docx => fileExtension toLowerCase (File.name file) = Some "docx"
               ∧ ProcessedFile.pageCount r = None
               ∧ mammoth = inl (ProcessedFile.content r)
     end).
  { intros Hiff. split; [done|]. intros H. apply (Hpos H).
    apply Hiff in H. tauto. }
  clear Hpos.
  destruct (N.le_gt_cases (File.size file) 10485760) as [Hsize|Hsize]; cycle 1.
  { rewrite useFileUpload_too_large by done. split; [done|]. intros [? _]. lia. }
  destruct (fileExtension_cases toLowerCase (File.name file)) as [Hext|[Hext|[Hpdf Hdocx]]].
  - rewrite useFileUpload_allowed_extension, processFile_pdf by tauto.
    destruct r as [content filename fileType pageCount wordCount];
      cbn [ProcessedFile.content ProcessedFile.filename ProcessedFile.fileType
           ProcessedFile.pageCount ProcessedFile.wordCount].
    destruct (processPDF pdfjs) as [[content' n]|e] eqn:Hpdf.
    + pose proof (processPDF_content_not_blank _ _ _ Hpdf) as Hb. split.
      * intros [= <- <- <- <- <-]. split_and!; [done..|]. by exists n.
      * intros (_ & -> & -> & _ & H). destruct fileType; [|destruct H; congruence].
        destruct H as (_ & n' & -> & [= <- <-]). done.
    + split; [done|]. intros (_ & _ & _ & _ & H).
      destruct fileType; [|destruct H; congruence]. by destruct H as (_ & n' & _ & ?).
  - rewrite useFileUpload_allowed_extension, processFile_docx by tauto.
    destruct r as [content filename fileType pageCount wordCount];
      cbn [ProcessedFile.content ProcessedFile.filename ProcessedFile.fileType
           ProcessedFile.pageCount ProcessedFile.wordCount].
    destruct mammoth as [content'|thrown].
    + destruct (isBlank content') eqn:Hb.
      * split; [done|]. intros (_ & _ & _ & Hb' & H).
        destruct fileType; [destruct H; congruence|]. destruct H as (_ & _ & [= ->]).
        congruence.
      * split.
        -- by intros [= <- <- <- <- <-].
        -- intros (_ & -> & -> & _ & H). destruct fileType; [destruct H; congruence|].
           by destruct H as (_ & -> & [= ->]).
    + split; [done|]. intros (_ & _ & _ & _ & H).
      destruct fileType; [destruct H; congruence|]. by destruct H as (_ & _ & ?).
  - rewrite useFileUpload_other_extension by done. split.
    + by destruct (existsb _ _).
    + intros (_ & _ & _ & _ & H). destruct (ProcessedFile.fileType r); by destruct H.
Qed.

(** X14. The MIME type of a file changes nothing but the wording of one
    refusal: with another type the upload gives the same result, unless
    the extension is not allowed, where a type that is not allowed gives
    the error of [validateFileType] and an allowed one that of
    [processFile]. *)
Theorem useFileUpload_type_changes_refusal_only pdfjs mammoth file type :
  let refusals : list (ProcessedFile.t + uploadError) :=
    [inr InvalidFileType; inr (ProcessingError UnsupportedFileType)] in
  let before := useFileUpload toLowerCase pdfjs mammoth file in
  let after := useFileUpload toLowerCase pdfjs mammoth (setType type file) in
  after = before ∨ (before ∈ refusals ∧ after ∈ refusals).
Proof.
  intros refusals before after. subst before after.
  destruct (N.le_gt_cases (File.size file) 10485760) as [Hsize|Hsize]; cycle 1.
  { left. by rewrite !useFileUpload_too_large. }
  destruct (fileExtension_cases toLowerCase (File.name file)) as [Hext|[Hext|[Hpdf Hdocx]]].
  - left. rewrite !useFileUpload_allowed_extension by (cbn; tauto).
    by rewrite !processFile_pdf.
  - left. rewrite !useFileUpload_allowed_extension by (cbn; tauto).
    by rewrite !processFile_docx.
  - right. rewrite !useFileUpload_other_extension by done. subst refusals.
    split; destruct (existsb _ _); rewrite !elem_of_cons; tauto.
Qed.

(** X15. For a PDF, whatever [processPDF] throws reaches the caller of
    [processFile] as the one error of line 35, and the error of line 44 for
    a file without words never arises: a PDF that [processPDF] returns has
    a word. *)
Theorem processFile_pdf_errors pdfjs mammoth file :
  processFile toLowerCase pdfjs mammoth file ≠ inr (NoReadableText Pdf)
  ∧ (fileExtension toLowerCase (File.name file) = Some "pdf" →
     (∀ e, processPDF pdfjs = inr e →
           processFile toLowerCase pdfjs mammoth file = inr PdfProcessingIssues)
     ∧ (∀ content n, processPDF pdfjs = inl (content, n) →
           ∃ r, processFile toLowerCase pdfjs mammoth file = inl r
                ∧ ProcessedFile.content r = content
                ∧ ProcessedFile.pageCount r = Some n
                ∧ 0 < ProcessedFile.wordCount r)).
Proof.
  split.
  - destruct (fileExtension_cases toLowerCase (File.name file)) as [Hext|[Hext|[Hpdf Hdocx]]].
    + rewrite processFile_pdf by done. by destruct (processPDF pdfjs) as [[??]|?].
    + rewrite processFile_docx by done.
      destruct mammoth; [|done]. by destruct (isBlank _).
    + by rewrite processFile_unsupported.
  - intros Hext. rewrite processFile_pdf by done. split.
    + by intros e ->.
    + intros content n Hpdf. rewrite Hpdf. eexists. split; [done|]. cbn.
      split_and!; [done..|].
      apply processPDF_content_not_blank in Hpdf.
      pose proof (countWords_zero content) as Hz.
      destruct (countWords content); [|lia]. destruct Hz as [Hz _].
      rewrite Hz in Hpdf; done.
Qed.

End FileProcessingTheorems.

(** X16. A PDF document is refused by [processPDF] only when every page
    gave its text and all of it is white space, and then with the message
    on corruption, not the one thrown at line 94; one page whose text could
    not be read is enough for the document to be returned, the place holder
    of the page being text. *)
Theorem processPDF_pages pages :
  let textContent := imap (λ i page, pageText (S i) page) pages in
  (None ∈ pages →
   processPDF (Document pages)
   = inl (String.concat (lf +:+ lf) textContent, length pages))
  ∧ (∀ e, processPDF (Document pages) = inr e →
     e = PdfProcessingFailed
     ∧ Forall (λ page, ∃ items, page = Some items
                 ∧ isBlank (String.concat " " (omap id items)) = true) pages).
Proof.
  intros textContent. rewrite processPDF_Document. fold textContent.
  destruct (forallb isBlank textContent) eqn:Hall; split.
  - intros Hin. exfalso. apply list_elem_of_lookup in Hin as [i Hi].
    assert (textContent !! i = Some (pageText (S i) None)) as Hti.
    { subst textContent. by rewrite list_lookup_imap, Hi. }
    pose proof (forallb_true_elem _ _ _ Hall (list_elem_of_lookup_2 _ _ _ Hti)) as Hb.
    by rewrite pageText_failed_not_blank in Hb.
  - intros e [= <-]. split; [done|]. apply Forall_lookup. intros i page Hi.
    assert (textContent !! i = Some (pageText (S i) page)) as Hti.
    { subst textContent. by rewrite list_lookup_imap, Hi. }
    pose proof (forallb_true_elem _ _ _ Hall (list_elem_of_lookup_2 _ _ _ Hti)) as Hb.
    destruct page as [items|]; [by exists items|]. by rewrite pageText_failed_not_blank in Hb.
  - done.
  - done.
Qed.

(** X17. The number of words of [processFile]: none exactly for a text of
    white space only, one for a word, and the sum of the two counts for two
    texts with a white space character between them. *)
Theorem countWords_words :
  (∀ s, countWords s = 0 ↔ isBlank s = true)
  ∧ (∀ w, isWord w = true → countWords w = 1)
  ∧ (∀ a c b, isWhiteSpace c = true →
              countWords (a +:+ String c b) = countWords a + countWords b).
Proof.
  split_and!.
  - apply countWords_zero.
  - intros w. unfold isWord. destruct w as [|c w]; [done|]. cbn [String.eqb negb andb].
    revert c. induction w as [|x w IH]; intros c.
    + cbn [noWhiteSpace]. rewrite countWords_cons.
      destruct (isWhiteSpace c); [done|]. done.
    + intros H. cbn [noWhiteSpace] in H. rewrite countWords_cons.
      destruct (isWhiteSpace c); [done|]. cbn [negb andb] in H.
      rewrite (IH x H). cbn [startsWord]. cbn [noWhiteSpace] in H.
      by destruct (isWhiteSpace x).
  - apply countWords_append_space.
Qed.

Example useFileUpload_examplePdf :
  fileExtension toLowerCaseLatin1 (File.name examplePdfFile) = Some "pdf"
  ∧ useFileUpload toLowerCaseLatin1 examplePdf (inr "") examplePdfFile
    = inl {| ProcessedFile.content :=
               "Lease agreement" +:+ lf +:+ lf +:+
               "[Page 2 content could not be extracted]" +:+ lf +:+ lf;
             ProcessedFile.filename := "Lease.Final.PDF";
             ProcessedFile.fileType := Pdf;
             ProcessedFile.pageCount := Some 3;
             ProcessedFile.wordCount := 9 |}
  ∧ useFileUpload toLowerCaseLatin1 (Document [Some [Some " "]; Some []]) (inr "")
      examplePdfFile
    = inr (ProcessingError PdfProcessingIssues)
  ∧ useFileUpload toLowerCaseLatin1 examplePdf (inl "Some text") (setType "text/plain"
      {| File.name := "notes.txt"; File.type := ""; File.size := 10 |})
    = inr InvalidFileType
  ∧ useFileUpload toLowerCaseLatin1 examplePdf (inl "Some text") (setType "application/pdf"
      {| File.name := "notes.txt"; File.type := ""; File.size := 10 |})
    = inr (ProcessingError UnsupportedFileType)
  ∧ (∃ r, useFileUpload toLowerCaseLatin1 examplePdf (inl "Some text")
            {| File.name := "DOCX"; File.type := ""; File.size := 10485760 |} = inl r).
Proof. split_and!; [vm_compute; reflexivity..|]. eexists. vm_compute. reflexivity. Qed.

(** ** The title of an uploaded file *)

Lemma isExtensionTail_append a b :
  isExtensionTail (a +:+ b) = isExtensionTail a && isExtensionTail b.
Proof.
  induction a as [|x a IH]; [done|].
  change (negb (Ascii.eqb x "/") && negb (Ascii.eqb x ".") && isExtensionTail (a +:+ b)
          = negb (Ascii.eqb x "/") && negb (Ascii.eqb x ".") && isExtensionTail a
            && isExtensionTail b).
  rewrite IH. by destruct (Ascii.eqb x "/"), (Ascii.eqb x ".").
Qed.

Lemma titleOfFilename_strip stem e :
  e ≠ "" → isExtensionTail e = true →
  titleOfFilename (stem +:+ "." +:+ e) = stem.
Proof.
  intros He Htail. induction stem as [|c stem IH].
  - change (titleOfFilename (String "." e) = ""). cbn [titleOfFilename].
    rewrite Htail. destruct (String.eqb_spec e ""); [done|]. done.
  - change (titleOfFilename (String c (stem +:+ "." +:+ e)) = String c stem).
    cbn [titleOfFilename]. rewrite IH, isExtensionTail_append.
    change (isExtensionTail ("." +:+ e)) with false.
    by rewrite !andb_false_r.
Qed.

Lemma titleOfFilename_keep name :
  (∀ stem e, name = stem +:+ "." +:+ e → e = "" ∨ isExtensionTail e = false) →
  titleOfFilename name = name.
Proof.
  induction name as [|c name IH]; [done|]. intros Hno. cbn [titleOfFilename].
  rewrite IH.
  - destruct (Ascii.eqb_spec c ".") as [->|_]; [|done].
    destruct (Hno "" name eq_refl) as [->| ->]; [done|]. by rewrite andb_false_r.
  - intros stem e ->. apply (Hno (String c stem) e eq_refl).
Qed.

Lemma titleOfFilename_no_dot name :
  hasChar "." name = false → titleOfFilename name = name.
Proof.
  intros Hno. apply titleOfFilename_keep. intros stem e ->.
  rewrite hasChar_append in Hno. change (hasChar "." ("." +:+ e)) with true in Hno.
  by rewrite orb_true_r in Hno.
Qed.

Lemma lowerCodeUnit_dot_slash c :
  Ascii.eqb (lowerCodeUnit c) "." = Ascii.eqb c "."
  ∧ Ascii.eqb (lowerCodeUnit c) "/" = Ascii.eqb c "/".
Proof. by destruct c as [[] [] [] [] [] [] [] []]. Qed.

Lemma toLowerCaseLatin1_hasChar_dot s :
  hasChar "." (toLowerCaseLatin1 s) = hasChar "." s.
Proof.
  induction s as [|c s IH]; [done|]. cbn [toLowerCaseLatin1 hasChar].
  by rewrite IH, (proj1 (lowerCodeUnit_dot_slash c)).
Qed.

Lemma toLowerCaseLatin1_isExtensionTail s :
  isExtensionTail (toLowerCaseLatin1 s) = isExtensionTail s.
Proof.
  induction s as [|c s IH]; [done|]. cbn [toLowerCaseLatin1 isExtensionTail].
  by rewrite IH, (proj1 (lowerCodeUnit_dot_slash c)), (proj2 (lowerCodeUnit_dot_slash c)).
Qed.

Lemma toLowerCaseLatin1_split s a b :
  toLowerCaseLatin1 s = a +:+ b →
  ∃ s1 s2, s = s1 +:+ s2 ∧ toLowerCaseLatin1 s1 = a ∧ toLowerCaseLatin1 s2 = b.
Proof.
  revert s. induction a as [|x a IH]; intros s Heq.
  - by exists "", s.
  - destruct s as [|c s]; [done|].
    change (String (lowerCodeUnit c) (toLowerCaseLatin1 s) = String x (a +:+ b)) in Heq.
    injection Heq as Hx Hrest. destruct (IH s Hrest) as (s1 & s2 & -> & <- & <-).
    exists (String c s1), s2. by rewrite <- Hx.
Qed.

Lemma useFileUpload_inl_extension toLowerCase pdfjs mammoth file r :
  useFileUpload toLowerCase pdfjs mammoth file = inl r →
  ProcessedFile.filename r = File.name file
  ∧ fileExtension toLowerCase (File.name file)
    = Some (fileTypeName (ProcessedFile.fileType r)).
Proof.
  destruct (N.le_gt_cases (File.size file) 10485760) as [Hsize|Hsize]; cycle 1.
  { by rewrite useFileUpload_too_large. }
  destruct (fileExtension_cases toLowerCase (File.name file)) as [Hext|[Hext|[Hpdf Hdocx]]].
  - rewrite useFileUpload_allowed_extension, processFile_pdf by tauto.
    destruct (processPDF pdfjs) as [[content n]|e]; [|done]. by intros [= <-].
  - rewrite useFileUpload_allowed_extension, processFile_docx by tauto.
    destruct mammoth as [content|thrown]; [|done].
    destruct (isBlank content); [done|]. by intros [= <-].
  - rewrite useFileUpload_other_extension by done. by destruct (existsb _ _).
Qed.

(** X18. The title that the upload dialog makes of a file name: the name
    without its ending, when it ends with a ['.'] and then one or more
    characters other than ['.'] and ['/']; the name itself when it has no
    such ending. *)
Theorem titleOfFilename_ending :
  (∀ stem e, e ≠ "" → isExtensionTail e = true →
             titleOfFilename (stem +:+ "." +:+ e) = stem)
  ∧ (∀ name,
       (∀ stem e, name = stem +:+ "." +:+ e → e = "" ∨ isExtensionTail e = false) →
       titleOfFilename name = name).
Proof. split; [apply titleOfFilename_strip | apply titleOfFilename_keep]. Qed.

(** X19. For a file that [useFileUpload] accepted (with the lower-casing
    of Latin-1), the title given to [analyzeContract] is the name of the
    file without the ['.'] and the extension that made it a PDF or a DOCX;
    when the name has no ['.'], so that the whole name is the extension,
    the title is the whole name. *)
Theorem titleOfFilename_of_upload pdfjs mammoth file r :
  useFileUpload toLowerCaseLatin1 pdfjs mammoth file = inl r →
  let title := titleOfFilename (ProcessedFile.filename r) in
  let extension := fileTypeName (ProcessedFile.fileType r) in
  (∃ e, File.name file = title +:+ "." +:+ e ∧ toLowerCaseLatin1 e = extension)
  ∨ (title = File.name file ∧ toLowerCaseLatin1 (File.name file) = extension).
Proof.
  intros (Hname & Hext)%useFileUpload_inl_extension title extension.
  subst title. rewrite Hname. fold extension in Hext.
  assert (extension ≠ "" ∧ isExtensionTail extension = true) as [Hne Htail].
  { subst extension. by destruct (ProcessedFile.fileType r). }
  unfold fileExtension in Hext.
  destruct (last_splitOn "." (toLowerCaseLatin1 (File.name file)))
    as (e & He & Hno & [Hwhole | [stem Hsplit]]);
    rewrite He in Hext; injection Hext as ->.
  - right. split; [|done]. apply titleOfFilename_no_dot.
    by rewrite <- toLowerCaseLatin1_hasChar_dot, Hwhole.
  - left. apply toLowerCaseLatin1_split in Hsplit as (s1 & s2 & Hs & Hs1 & Hs2).
    destruct s2 as [|d e]; [done|].
    change (String (lowerCodeUnit d) (toLowerCaseLatin1 e) = String "." extension) in Hs2.
    injection Hs2 as Hd He'.
    assert (d = "."%char) as ->.
    { apply Ascii.eqb_eq. rewrite <- (proj1 (lowerCodeUnit_dot_slash d)), Hd. done. }
    exists e. split; [|done]. rewrite Hs.
    change (s1 +:+ String "." e) with (s1 +:+ "." +:+ e).
    rewrite titleOfFilename_strip; [done| |].
    + intros ->. by rewrite <- He' in Hne.
    + by rewrite <- toLowerCaseLatin1_isExtensionTail, He'.
Qed.

Lemma titleOfFilename_of_upload_witness :
  (∃ e, File.name examplePdfFile = "Lease.Final" +:+ "." +:+ e
        ∧ toLowerCaseLatin1 e = "pdf")
  ∨ ("Lease.Final" = File.name examplePdfFile
     ∧ toLowerCaseLatin1 (File.name examplePdfFile) = "pdf").
Proof.
  apply (titleOfFilename_of_upload examplePdf (inr "") examplePdfFile
           {| ProcessedFile.content :=
                "Lease agreement" +:+ lf +:+ lf +:+
                "[Page 2 content could not be extracted]" +:+ lf +:+ lf;
              ProcessedFile.filename := "Lease.Final.PDF";
              ProcessedFile.fileType := Pdf;
              ProcessedFile.pageCount := Some 3;
              ProcessedFile.wordCount := 9 |}).
  vm_compute. reflexivity.
Defined.

Example titleOfFilename_examples :
  titleOfFilename "Lease.Final.PDF" = "Lease.Final"
  ∧ titleOfFilename ".pdf" = ""
  ∧ titleOfFilename "pdf" = "pdf"
  ∧ titleOfFilename "contract." = "contract."
  ∧ titleOfFilename "v1.2/readme" = "v1.2/readme".
Proof. by vm_compute. Qed.

(** ** Sorting *)

Lemma insertBy_perm {A} (comparator : A → A → comparison) x l :
  insertBy comparator x l ≡ₚ x :: l.
Proof.
  induction l as [|y l IH]; [done|]. cbn.
  destruct (comparator x y); [done..|]. by rewrite IH, Permutation_swap.
Qed.

Lemma sortBy_perm {A} (comparator : A → A → comparison) l :
  sortBy comparator l ≡ₚ l.
Proof.
  induction l as [|x l IH]; [done|].
  change (sortBy comparator (x :: l)) with (insertBy comparator x (sortBy comparator l)).
  by rewrite insertBy_perm, IH.
Qed.

Lemma insertBy_middle {A} (comparator : A → A → comparison) x l1 l2 :
  Forall (λ y, comparator x y = Gt) l1 →
  Forall (λ y, comparator x y ≠ Gt) l2 →
  insertBy comparator x (l1 ++ l2)%list = (l1 ++ x :: l2)%list.
Proof.
  intros H1 H2. induction H1 as [|y l1 Hy _ IH]; cbn.
  - destruct H2 as [|y l2 Hy _]; [done|]. cbn. by destruct (comparator x y).
  - by rewrite Hy, IH.
Qed.

Lemma sortBy_strictly_sorted {A} (comparator : A → A → comparison) l sorted :
  (∀ a b, comparator a b = Lt → comparator b a = Gt) →
  StronglySorted (λ a b, comparator a b = Lt) sorted →
  l ≡ₚ sorted →
  sortBy comparator l = sorted.
Proof.
  intros Hanti. revert sorted. induction l as [|x l IH]; intros sorted Hsorted Hperm.
  - by apply Permutation_nil in Hperm.
  - assert (x ∈ sorted) as Hin by (rewrite <- Hperm; left).
    apply list_elem_of_split in Hin as (l1 & l2 & ->).
    apply Permutation_cons_app_inv in Hperm.
    apply StronglySorted_app in Hsorted as (Hcross & H1 & H2).
    apply StronglySorted_cons in H2 as [Hx H2].
    change (sortBy comparator (x :: l)) with (insertBy comparator x (sortBy comparator l)).
    rewrite (IH (l1 ++ l2)%list); [|apply StronglySorted_app; split_and!; [|done..]|done].
    + apply insertBy_middle.
      * apply Forall_forall. intros y Hy. apply Hanti, Hcross; [done|left].
      * eapply Forall_impl; [exact Hx|]. intros y Hy. cbn in Hy. congruence.
    + intros y z Hy Hz. apply Hcross; [done|by right].
Qed.

Lemma minusSign_Lt_Gt a b : minusSign a b = Lt → minusSign b a = Gt.
Proof.
  destruct a as [|s|p], b as [|t|q]; cbn; try done.
  - by destruct s, t.
  - by destruct s.
  - by destruct t.
  - intros H. by rewrite <- Qcompare_antisym, H.
Qed.

Lemma minusSign_integers (a b : Z) :
  minusSign (Finite (inject_Z a)) (Finite (inject_Z b)) = (a ?= b)%Z.
Proof. cbn. unfold Qcompare. cbn. by rewrite !Z.mul_1_r. Qed.

(** ** The contract viewer *)

Lemma length_append a b :
  String.length (a +:+ b) = String.length a + String.length b.
Proof.
  induction a as [|x a IH]; [done|].
  change (S (String.length (a +:+ b)) = S (String.length a + String.length b)).
  by rewrite IH.
Qed.

Lemma substring_all s : String.substring 0 (String.length s) s = s.
Proof. induction s as [|x s IH]; [done|]. cbn. by rewrite IH. Qed.

Lemma substring_append_start a b :
  String.substring 0 (String.length a) (a +:+ b) = a.
Proof.
  induction a as [|x a IH]; [by destruct b|].
  change (String x (String.substring 0 (String.length a) (a +:+ b)) = String x a).
  by rewrite IH.
Qed.

Lemma substring_append_skip a b n m :
  String.substring (String.length a + n) m (a +:+ b) = String.substring n m b.
Proof. induction a as [|x a IH]; [done|]. exact IH. Qed.

Lemma toIndex_integer (a offset : Z) len :
  toIndex (plusOffset (Finite (inject_Z a)) offset) len
  = Z.to_nat (Z.min (Z.max (a + offset) 0) (Z.of_nat len)).
Proof. cbn. by rewrite !Z.mul_1_r, Z.quot_1_r. Qed.

Lemma toIndex_zero len : toIndex (Finite 0) len = 0.
Proof. unfold toIndex. change (Qnum 0 ÷ Z.pos (Qden 0))%Z with 0%Z. lia. Qed.

Lemma spans_length before gap text rest :
  String.length (before +:+ gap +:+ text +:+ rest)
  = String.length before + String.length gap + String.length text + String.length rest.
Proof. rewrite !length_append. lia. Qed.

Lemma spans_index before gap text rest pos n :
  (pos ≤ n)%nat → (n ≤ pos + String.length gap + String.length text)%nat →
  toIndex
    (plusOffset (Finite (inject_Z (Z.of_nat n)))
       (Z.of_nat (String.length before) - Z.of_nat pos))
    (String.length (before +:+ gap +:+ text +:+ rest))
  = String.length before + (n - pos).
Proof. intros ??. rewrite toIndex_integer, spans_length. lia. Qed.

Lemma spans_before before gap text rest pos :
  substring (before +:+ gap +:+ text +:+ rest) (Finite 0)
    (plusOffset (Finite (inject_Z (Z.of_nat (pos + String.length gap))))
       (Z.of_nat (String.length before) - Z.of_nat pos))
  = before +:+ gap.
Proof.
  unfold substring. rewrite toIndex_zero, spans_index by lia.
  rewrite Nat.min_0_l, Nat.max_0_l, Nat.sub_0_r.
  replace (pos + String.length gap - pos) with (String.length gap) by lia.
  rewrite <- length_append, <- append_assoc.
  apply substring_append_start.
Qed.

Lemma spans_clause before gap text rest pos :
  substring (before +:+ gap +:+ text +:+ rest)
    (plusOffset (Finite (inject_Z (Z.of_nat (pos + String.length gap))))
       (Z.of_nat (String.length before) - Z.of_nat pos))
    (plusOffset
       (Finite (inject_Z (Z.of_nat (pos + String.length gap + String.length text))))
       (Z.of_nat (String.length before) - Z.of_nat pos))
  = text.
Proof.
  unfold substring. rewrite !spans_index by lia.
  replace ((String.length before + (pos + String.length gap - pos))
           `min` (String.length before
                  + (pos + String.length gap + String.length text - pos)))
    with (String.length before + (String.length gap + 0)) by lia.
  replace ((String.length before + (pos + String.length gap - pos))
           `max` (String.length before
                  + (pos + String.length gap + String.length text - pos))
           - (String.length before + (String.length gap + 0)))
    with (String.length text) by lia.
  rewrite !substring_append_skip. apply substring_append_start.
Qed.

Lemma spans_after before gap text rest pos :
  substringFrom (before +:+ gap +:+ text +:+ rest)
    (plusOffset
       (Finite (inject_Z (Z.of_nat (pos + String.length gap + String.length text))))
       (Z.of_nat (String.length before) - Z.of_nat pos))
  = rest.
Proof.
  unfold substringFrom. rewrite spans_index by lia. rewrite spans_length.
  replace (String.length before + String.length gap + String.length text
           + String.length rest
           - (String.length before
              + (pos + String.length gap + String.length text - pos)))
    with (String.length rest) by lia.
  replace (String.length before + (pos + String.length gap + String.length text - pos))
    with (String.length before + (String.length gap + (String.length text + 0))) by lia.
  rewrite !substring_append_skip. apply substring_all.
Qed.

Lemma highlightClause_segment selectedClause before gap clause text rest pos :
  Clause.startIndex clause = Finite (inject_Z (Z.of_nat (pos + String.length gap))) →
  Clause.endIndex clause
  = Finite (inject_Z (Z.of_nat (pos + String.length gap + String.length text))) →
  let wrapped := wrapClause selectedClause clause text in
  highlightClause selectedClause
    (before +:+ gap +:+ text +:+ rest, (Z.of_nat (String.length before) - Z.of_nat pos)%Z)
    clause
  = ((before +:+ gap +:+ wrapped) +:+ rest,
     (Z.of_nat (String.length (before +:+ gap +:+ wrapped))
      - Z.of_nat (pos + String.length gap + String.length text))%Z).
Proof.
  intros Hstart Hend wrapped. unfold highlightClause. rewrite Hstart, Hend.
  rewrite spans_before, spans_clause, spans_after. fold wrapped. f_equal.
  - by rewrite !append_assoc.
  - rewrite !length_append. lia.
Qed.

Lemma highlight_segments selectedClause segments rest before pos :
  placed pos segments →
  (foldl (highlightClause selectedClause)
     (before +:+ plainText segments rest,
      (Z.of_nat (String.length before) - Z.of_nat pos)%Z)
     ((λ seg : segment, seg.1.2) <$> segments)).1
  = before +:+ markedText selectedClause segments rest.
Proof.
  revert before pos. induction segments as [|[[gap clause] text] segments IH];
    intros before pos Hplaced; [done|].
  destruct Hplaced as (_ & Hstart & Hend & Hplaced).
  cbn [fmap list_fmap foldl plainText markedText fst snd].
  rewrite highlightClause_segment by done.
  rewrite (IH _ _ Hplaced). by rewrite !append_assoc.
Qed.

Lemma placed_starts pos segments :
  placed pos segments →
  Forall (λ clause, ∃ n, (pos ≤ n)%nat
            ∧ Clause.startIndex clause = Finite (inject_Z (Z.of_nat n)))
    ((λ seg : segment, seg.1.2) <$> segments).
Proof.
  revert pos. induction segments as [|[[gap clause] text] segments IH];
    intros pos Hplaced; [by constructor|].
  destruct Hplaced as (_ & Hstart & _ & Hplaced). constructor.
  - exists (pos + String.length gap). split; [lia|done].
  - eapply Forall_impl; [apply (IH _ Hplaced)|].
    intros c (n & Hn & Hc). exists n. split; [cbn in Hn; lia|done].
Qed.

Lemma placed_sorted pos segments :
  placed pos segments →
  StronglySorted
    (λ a b, minusSign (Clause.startIndex a) (Clause.startIndex b) = Lt)
    ((λ seg : segment, seg.1.2) <$> segments).
Proof.
  revert pos. induction segments as [|[[gap clause] text] segments IH];
    intros pos Hplaced; [by constructor|].
  pose proof Hplaced as (Htext & Hstart & _ & Hrest).
  cbn [fmap list_fmap fst snd]. constructor; [by apply (IH _ Hrest)|].
  eapply Forall_impl; [apply (placed_starts _ _ Hrest)|].
  intros c (n & Hn & Hc). cbn [fst snd]. rewrite Hstart, Hc, minusSign_integers.
  apply Z.compare_lt_iff. destruct text; [done|]. cbn in Hn. lia.
Qed.

(** X20. Clauses whose spans are not empty, lie in the text and do not
    overlap are each wrapped, in any order that the analysis lists them,
    around exactly the text of their span: the text outside the spans is
    unchanged, and a span that is wrapped later is not displaced by the
    markup put in before it. *)
Theorem highlightedContent_marks_spans segments rest clauses selectedClause :
  placed 0 segments →
  clauses ≡ₚ (λ seg : segment, seg.1.2) <$> segments →
  highlightedContent (plainText segments rest) clauses selectedClause
  = markedText selectedClause segments rest.
Proof.
  intros Hplaced Hperm. unfold highlightedContent.
  rewrite (sortBy_strictly_sorted _ clauses _
             (λ a b, minusSign_Lt_Gt _ _) (placed_sorted _ _ Hplaced) Hperm).
  apply (highlight_segments selectedClause segments rest "" 0 Hplaced).
Qed.

Lemma highlightedContent_marks_spans_witness :
  highlightedContent "Pay in 90 days. Terminate at will. End."
    [clauseAt 16 34 "c2"; clauseAt 0 15 "c1"] (Some "c2")
  = wrapClause (Some "c2") (clauseAt 0 15 "c1") "Pay in 90 days." +:+ " " +:+
    wrapClause (Some "c2") (clauseAt 16 34 "c2") "Terminate at will." +:+ " End.".
Proof.
  apply (highlightedContent_marks_spans exampleSegments " End."
           [clauseAt 16 34 "c2"; clauseAt 0 15 "c1"] (Some "c2")).
  - cbn. repeat split; done.
  - apply perm_swap.
Defined.

(** X21. A clause whose span is reversed, the start after the end (which
    the schema lets through), is wrapped around the text between the two
    indices, and that text is there three times: before the wrapped
    clause, in it and after it. *)
Theorem highlightedContent_reversed_span a b c clause selectedClause :
  Clause.startIndex clause
  = Finite (inject_Z (Z.of_nat (String.length a + String.length b))) →
  Clause.endIndex clause = Finite (inject_Z (Z.of_nat (String.length a))) →
  highlightedContent (a +:+ b +:+ c) [clause] selectedClause
  = (a +:+ b) +:+ wrapClause selectedClause clause b +:+ (b +:+ c).
Proof.
  intros Hstart Hend. unfold highlightedContent.
  change (sortBy _ [clause]) with [clause]. cbn [foldl fst]. unfold highlightClause.
  rewrite Hstart, Hend. cbn [fst].
  assert (String.length (a +:+ b +:+ c)
          = String.length a + String.length b + String.length c) as Hlen
    by (rewrite !length_append; lia).
  assert (toIndex (plusOffset (Finite (inject_Z
             (Z.of_nat (String.length a + String.length b)))) 0)
            (String.length (a +:+ b +:+ c))
          = String.length a + String.length b) as Hs
    by (rewrite toIndex_integer, Hlen; lia).
  assert (toIndex (plusOffset (Finite (inject_Z (Z.of_nat (String.length a)))) 0)
            (String.length (a +:+ b +:+ c))
          = String.length a) as He
    by (rewrite toIndex_integer, Hlen; lia).
  unfold substring, substringFrom. rewrite toIndex_zero, Hs, He, Hlen.
  rewrite Nat.min_0_l, Nat.max_0_l, Nat.sub_0_r.
  replace ((String.length a + String.length b) `min` String.length a)
    with (String.length a + 0) by lia.
  replace ((String.length a + String.length b) `max` String.length a
           - (String.length a + 0))
    with (String.length b) by lia.
  replace (String.length a + String.length b + String.length c - String.length a)
    with (String.length (b +:+ c)) by (rewrite length_append; lia).
  rewrite <- (length_append a b) at 1. rewrite <- (append_assoc a b c) at 1.
  rewrite substring_append_start, substring_append_skip, substring_append_start.
  rewrite <- (Nat.add_0_r (String.length a)) at 1.
  by rewrite substring_append_skip, substring_all.
Qed.

Lemma highlightedContent_reversed_span_witness :
  highlightedContent ("0123" +:+ "4567" +:+ "89abcdefghij") [clauseAt 8 4 "c1"] None
  = ("0123" +:+ "4567") +:+ wrapClause None (clauseAt 8 4 "c1") "4567"
    +:+ ("4567" +:+ "89abcdefghij").
Proof.
  apply (highlightedContent_reversed_span "0123" "4567" "89abcdefghij"
           (clauseAt 8 4 "c1") None); reflexivity.
Defined.

Example highlightedContent_overlapping_spans :
  highlightedContent "0123456789abcdefghij"
    [clauseAt 0 10 "c1"; clauseAt 5 15 "c2"] None
  = String.substring 0 234 (wrapClause None (clauseAt 0 10 "c1") "0123456789")
    +:+ wrapClause None (clauseAt 5 15 "c2") "span>abcde" +:+ "fghij".
Proof. by vm_compute. Qed.

Section SortBy.

Context {A : Type} (comparator : A → A → comparison) (P : A → Prop).

Hypothesis comparator_asym : ∀ x y, comparator x y = Gt → comparator y x ≠ Gt.
Hypothesis comparator_trans : ∀ x y z, P x → P y → P z →
  comparator x y ≠ Gt → comparator y z ≠ Gt → comparator x z ≠ Gt.
Hypothesis comparator_ties : ∀ x y z, P x → P y → P z →
  comparator x z = Eq → comparator y z = Eq → comparator x y ≠ Gt.

Lemma insertBy_sorted x l :
  P x → Forall P l →
  StronglySorted (λ a b, comparator a b ≠ Gt) l →
  StronglySorted (λ a b, comparator a b ≠ Gt) (insertBy comparator x l).
Proof using comparator_asym comparator_trans.
  intros Hx HP Hl. induction Hl as [|y l Hl IH Hy]; cbn.
  - repeat constructor.
  - apply Forall_cons in HP as [HPy HP]. destruct (comparator x y) eqn:Hxy.
    + constructor; [by constructor|]. constructor; [congruence|].
      rewrite Forall_forall in Hy, HP |- *. intros z Hz.
      apply (comparator_trans x y z); auto. congruence.
    + constructor; [by constructor|]. constructor; [congruence|].
      rewrite Forall_forall in Hy, HP |- *. intros z Hz.
      apply (comparator_trans x y z); auto. congruence.
    + constructor; [by apply IH|].
      rewrite insertBy_perm. constructor; [by apply comparator_asym|done].
Qed.

Lemma sortBy_sorted l :
  Forall P l → StronglySorted (λ a b, comparator a b ≠ Gt) (sortBy comparator l).
Proof using comparator_asym comparator_trans.
  induction 1 as [|x l Hx Hl IH]; [constructor|].
  change (sortBy comparator (x :: l)) with (insertBy comparator x (sortBy comparator l)).
  apply insertBy_sorted; [done| |done]. by rewrite sortBy_perm.
Qed.

Lemma insertBy_stable c x l :
  P c → P x → Forall P l →
  filter (λ y, comparator y c = Eq) (insertBy comparator x l)
  = filter (λ y, comparator y c = Eq) (x :: l).
Proof using comparator_ties.
  intros Hc Hx HP. induction HP as [|y l Hy HP IH]; [done|]. cbn [insertBy].
  destruct (comparator x y) eqn:Hxy; [done..|].
  rewrite filter_cons, IH, !filter_cons.
  destruct (decide (comparator y c = Eq)) as [Hyc|]; [|done].
  destruct (decide (comparator x c = Eq)) as [Hxc|]; [|done].
  by destruct (comparator_ties x y c Hx Hy Hc Hxc Hyc).
Qed.

Lemma sortBy_stable c l :
  P c → Forall P l →
  filter (λ y, comparator y c = Eq) (sortBy comparator l)
  = filter (λ y, comparator y c = Eq) l.
Proof using comparator_ties.
  intros Hc. induction 1 as [|x l Hx Hl IH]; [done|].
  change (sortBy comparator (x :: l)) with (insertBy comparator x (sortBy comparator l)).
  rewrite insertBy_stable; [|done..|by rewrite sortBy_perm].
  by rewrite !filter_cons, IH.
Qed.

End SortBy.

Lemma minusSign_asym a b : minusSign a b = Gt → minusSign b a ≠ Gt.
Proof.
  destruct a as [|s|p], b as [|t|q]; cbn; try done.
  - by destruct s, t.
  - by destruct s.
  - by destruct t.
  - intros H. by rewrite <- Qcompare_antisym, H.
Qed.

Lemma minusSign_trans a b c :
  notNaN a = true → notNaN b = true → notNaN c = true →
  minusSign a b ≠ Gt → minusSign b c ≠ Gt → minusSign a c ≠ Gt.
Proof.
  destruct a as [|s|p], b as [|t|q], c as [|u|r]; cbn; try done;
    try (by destruct s, t, u); try (by destruct s, t); try (by destruct s, u);
    try (by destruct t, u); try (by destruct s); try (by destruct t);
    try (by destruct u).
  intros _ _ _. rewrite <- !Qle_alt. apply Qle_trans.
Qed.

Lemma minusSign_ties a b c :
  notNaN a = true → notNaN b = true → notNaN c = true →
  minusSign c a = Eq → minusSign c b = Eq → minusSign b a ≠ Gt.
Proof.
  destruct a as [|s|p], b as [|t|q], c as [|u|r]; cbn; try done;
    try (by destruct s, t, u); try (by destruct s, t); try (by destruct s, u);
    try (by destruct t, u); try (by destruct s); try (by destruct t);
    try (by destruct u).
  intros _ _ _. rewrite <- !Qeq_alt, <- Qle_alt. intros <- <-. apply Qle_refl.
Qed.

(** X22. The clause explorer lists every clause once, the highest risk
    score first, and clauses of equal score in the order of the analysis,
    when no score is NaN. *)
Theorem explorerClauses_sorted clauses :
  Forall (λ c, notNaN (Clause.riskScore c) = true) clauses →
  explorerClauses clauses ≡ₚ clauses
  ∧ StronglySorted
      (λ a b, minusSign (Clause.riskScore b) (Clause.riskScore a) ≠ Gt)
      (explorerClauses clauses)
  ∧ ∀ c, notNaN (Clause.riskScore c) = true →
         filter (λ x, minusSign (Clause.riskScore c) (Clause.riskScore x) = Eq)
           (explorerClauses clauses)
         = filter (λ x, minusSign (Clause.riskScore c) (Clause.riskScore x) = Eq)
             clauses.
Proof.
  intros Hscores. split_and!.
  - apply sortBy_perm.
  - apply (sortBy_sorted _ (λ c, notNaN (Clause.riskScore c) = true)); [..|done].
    + intros x y. apply minusSign_asym.
    + intros x y z Hx Hy Hz Hxy Hyz. by apply (minusSign_trans _ (Clause.riskScore y)).
  - intros c Hc.
    apply (sortBy_stable
             (λ a b, minusSign (Clause.riskScore b) (Clause.riskScore a))
             (λ c, notNaN (Clause.riskScore c) = true)); [|done..].
    intros x y z Hx Hy Hz Hxz Hyz. by apply (minusSign_ties _ _ (Clause.riskScore z)).
Qed.

Lemma explorerClauses_sorted_witness :
  explorerClauses exampleScoredClauses ≡ₚ exampleScoredClauses
  ∧ StronglySorted
      (λ a b, minusSign (Clause.riskScore b) (Clause.riskScore a) ≠ Gt)
      (explorerClauses exampleScoredClauses)
  ∧ ∀ c, notNaN (Clause.riskScore c) = true →
         filter (λ x, minusSign (Clause.riskScore c) (Clause.riskScore x) = Eq)
           (explorerClauses exampleScoredClauses)
         = filter (λ x, minusSign (Clause.riskScore c) (Clause.riskScore x) = Eq)
             exampleScoredClauses.
Proof. apply (explorerClauses_sorted exampleScoredClauses). repeat constructor. Defined.

Example explorerClauses_example :
  explorerClauses exampleScoredClauses
  = [scoredClause (Finite 80) "b"; scoredClause (Finite 55) "d";
     scoredClause (Finite 10) "a"; scoredClause (Finite 10) "c"].
Proof. reflexivity. Qed.

(** ** The API key and the errors of the analysis *)

Lemma getAI_settled fetched later :
  getAI later (getAI fetched initialModule).2
  = (fetched, (getAI fetched initialModule).2).
Proof. by destruct fetched. Qed.

Lemma getAIs_settled fetched later :
  getAIs (getAI fetched initialModule).2 later = replicate (length later) fetched.
Proof.
  induction later as [|f later IH]; [done|].
  cbn [getAIs]. rewrite getAI_settled. cbn [length replicate]. by rewrite IH.
Qed.

(** X23. The answer of the first [getAI] is final: every later call gives
    the instance of the first key, or fails with the message of the first
    failure, whatever the configuration request would give by then. *)
Theorem getAI_first_answer_is_final fetched later :
  getAIs initialModule (fetched :: later) = replicate (S (length later)) fetched.
Proof.
  cbn [getAIs replicate].
  pose proof (getAIs_settled fetched later) as Hlater.
  destruct (getAI fetched initialModule) as [result m] eqn:Hfirst.
  cbn [snd] in Hlater. rewrite Hlater. f_equal.
  by destruct fetched; injection Hfirst as <- _.
Qed.

Lemma includes_API_key_Failed message :
  includes "API key" ("Failed to analyze contract: " +:+ message)
  = includes "API key" message.
Proof. reflexivity. Qed.

(** X24. What the upload dialog shows when the analysis failed: the advice
    on the key in Replit Secrets whenever the message of the error has
    [500] or [API key] in it, whatever the error was; otherwise the
    message after [Failed to analyze contract: ]. *)
Theorem uploadToast_of_analysis_error error :
  uploadToast (ErrorWith (analyzeContract_catch error))
  = match error with
    | ErrorWith message =>
        if includes "500" message || includes "API key" message then replitAdvice
        else "Failed to analyze contract: " +:+ message
    | NotAnError _ => "Failed to analyze contract: Unknown error"
    end.
Proof.
  destruct error as [message|asString]; [|reflexivity].
  unfold analyzeContract_catch, uploadToast.
  destruct (includes "500" message); [reflexivity|].
  rewrite includes_API_key_Failed. cbn [orb]. reflexivity.
Qed.

Lemma fetchApiKey_no_key key buildTimeKey :
  toBoolean key = false →
  from_option toBoolean false buildTimeKey = false →
  fetchApiKey (ConfigJson key) buildTimeKey
  = inr ("Config API error: Gemini API key not found in configuration" +:+
         ". On Vercel ensure you deploy the repository root so /api functions (api/config) are available, or set VITE_GEMINI_API_KEY at build time.").
Proof.
  intros Hkey Hbuild. unfold fetchApiKey, fetchApiKey_try. rewrite Hkey.
  destruct buildTimeKey as [k|]; [|done]. cbn in Hbuild. by rewrite Hbuild.
Qed.

Lemma analysisToasts_settled message calls syntaxError uuid now contractText title :
  analysisToasts (getAI (inr message) initialModule).2 calls syntaxError uuid now
    contractText title
  = replicate (length calls)
      (Some (uploadToast (ErrorWith (analyzeContract_catch (ErrorWith message))))).
Proof.
  induction calls as [|[fetched generated] calls IH]; [done|].
  cbn [analysisToasts]. unfold analyzeContract. rewrite getAI_settled.
  cbn [length replicate]. by rewrite IH.
Qed.

(** X25. When the configuration has no key and the build has none, the
    first analysis and every later one of the session fail, and the upload
    dialog shows the advice on Replit Secrets each time, even when the
    configuration request would by then give a key. *)
Theorem analysisToasts_without_key key buildTimeKey generated calls
    syntaxError uuid now contractText title :
  toBoolean key = false →
  from_option toBoolean false buildTimeKey = false →
  analysisToasts initialModule
    ((fetchApiKey (ConfigJson key) buildTimeKey, generated) :: calls)
    syntaxError uuid now contractText title
  = replicate (S (length calls)) (Some replitAdvice).
Proof.
  intros Hkey Hbuild. rewrite (fetchApiKey_no_key _ _ Hkey Hbuild).
  cbn [analysisToasts]. unfold analyzeContract at 1.
  pose proof (analysisToasts_settled
    ("Config API error: Gemini API key not found in configuration" +:+
     ". On Vercel ensure you deploy the repository root so /api functions (api/config) are available, or set VITE_GEMINI_API_KEY at build time.")
    calls syntaxError uuid now contractText title) as Hlater.
  destruct (getAI _ initialModule) as [result m] eqn:Hfirst.
  cbn [snd] in Hlater. rewrite Hlater. injection Hfirst as <- _.
  reflexivity.
Qed.

Lemma analysisToasts_without_key_witness :
  analysisToasts initialModule
    [(fetchApiKey (ConfigJson (VStr "")) None, inl None);
     (fetchApiKey (ConfigJson (VStr "key")) None, inl None)]
    "Unexpected end of JSON input" "id" 0 "Text" "Title"
  = [Some replitAdvice; Some replitAdvice].
Proof.
  apply (analysisToasts_without_key (VStr "") None (inl None)
           [(fetchApiKey (ConfigJson (VStr "key")) None, inl None)]);
    reflexivity.
Defined.

Lemma prefix_append a b : String.prefix a (a +:+ b) = true.
Proof.
  induction a as [|x a IH]; [by destruct b|].
  change (String.prefix (String x a) (String x (a +:+ b)) = true). cbn.
  by destruct (ascii_dec x x).
Qed.

(** X26. [fetchApiKey] gives a key exactly when the configuration has one
    that is not falsy or the build has one; the key of the configuration
    comes first; the key it gives is never empty or otherwise falsy; and
    the message of its failure begins with [Config API error: ]. *)
Theorem fetchApiKey_key outcome buildTimeKey :
  let configKey :=
    match outcome with
    | ConfigJson key => if toBoolean key then Some key else None
    | _ => None
    end in
  let buildKey :=
    match buildTimeKey with
    | Some key => if toBoolean key then Some key else None
    | None => None
    end in
  match fetchApiKey outcome buildTimeKey with
  | inl key => toBoolean key = true
               ∧ Some key = from_option Some buildKey configKey
  | inr message => configKey = None ∧ buildKey = None
                   ∧ String.prefix "Config API error: " message = true
  end.
Proof.
  unfold fetchApiKey, fetchApiKey_try.
  destruct outcome as [error|status statusText|key]; cbv zeta;
    [| |destruct (toBoolean key) eqn:Hkey; [done|]];
    (destruct buildTimeKey as [k|]; [destruct (toBoolean k) eqn:Hk|]);
    repeat split; try reflexivity; try done; apply prefix_append.
Qed.

(** ** Risk levels of the prompt and colours of the risk summary *)

Lemma scoreColor_integer (score : Z) :
  scoreColor (Finite (inject_Z score))
  = if (70 <=? score)%Z then Red else if (40 <=? score)%Z then Yellow else Green.
Proof.
  unfold scoreColor, num_ge, num_lt, notNaN. cbn [andb]. rewrite !negb_involutive.
  unfold Qle_bool. cbn [Qnum Qden inject_Z]. by rewrite !Z.mul_1_r.
Qed.

Lemma scoreColor_and_thresholds t (score : Z) :
  (0 ≤ low t ∧ low t < 39 ∧ 40 ≤ medium t ∧ medium t < 69)%Z →
  (0 ≤ score ≤ 100)%Z →
  ∃ level,
    assignedLevels t score = [level]
    ∧ scoreColor (Finite (inject_Z score))
      = (if bool_decide (low t < score < 40)%Z then Green
         else if bool_decide (medium t < score < 70)%Z then Yellow
         else levelColor level)
    ∧ ((low t < score < 40)%Z → level = Medium)
    ∧ ((medium t < score < 70)%Z → level = High)
    ∧ (low t < 39 ∧ medium t < 69)%Z.
Proof.
  intros Ht Hscore. rewrite scoreColor_integer.
  unfold assignedLevels, riskLevelAssignment.
  rewrite !filter_cons, filter_nil; cbn [fst snd].
  destruct (decide (score ≤ low t)%Z) as [Hlow|Hlow].
  - exists Low. repeat (case_decide || case_bool_decide); try lia.
    destruct (Z.leb_spec 70 score), (Z.leb_spec 40 score); try lia.
    split_and!; try done; try lia; intros; lia.
  - destruct (decide (score ≤ medium t)%Z) as [Hmedium|Hmedium].
    + exists Medium. repeat (case_decide || case_bool_decide); try lia;
        destruct (Z.leb_spec 70 score), (Z.leb_spec 40 score); try lia;
        split_and!; try done; try lia; intros; lia.
    + exists High. repeat (case_decide || case_bool_decide); try lia;
        destruct (Z.leb_spec 70 score), (Z.leb_spec 40 score); try lia;
        split_and!; try done; try lia; intros; lia.
Qed.

(** X27. For each of the ten domains the three ranges of the prompt cover
    the scores from 0 to 100 without overlap, but the risk summary colours
    a score by the fixed bounds 40 and 70, which are above the bounds of
    every domain: a score between the medium bound and 70 is High Risk for
    the prompt and drawn yellow, one between the low bound and 40 is
    Medium Risk and drawn green; elsewhere the colour is the one of the
    level.  Neither range is empty in any domain. *)
Theorem scoreColor_and_assigned_level d c (score : Z) :
  resolve (tagName d) = Some c →
  (0 ≤ score ≤ 100)%Z →
  let t := riskThresholds c in
  ∃ level,
    assignedLevels t score = [level]
    ∧ scoreColor (Finite (inject_Z score))
      = (if bool_decide (low t < score < 40)%Z then Green
         else if bool_decide (medium t < score < 70)%Z then Yellow
         else levelColor level)
    ∧ ((low t < score < 40)%Z → level = Medium)
    ∧ ((medium t < score < 70)%Z → level = High)
    ∧ (low t < 39 ∧ medium t < 69)%Z.
Proof.
  intros Hc Hscore t. subst t. apply scoreColor_and_thresholds; [|done].
  destruct d; vm_compute in Hc; injection Hc as <-;
    cbn [riskThresholds low medium]; lia.
Qed.

Lemma scoreColor_and_assigned_level_witness :
  ∃ level,
    assignedLevels {| low := 30; medium := 60; high := 80 |} 65 = [level]
    ∧ scoreColor (Finite (inject_Z 65))
      = (if bool_decide (30 < 65 < 40)%Z then Green
         else if bool_decide (60 < 65 < 70)%Z then Yellow
         else levelColor level)
    ∧ ((30 < 65 < 40)%Z → level = Medium)
    ∧ ((60 < 65 < 70)%Z → level = High)
    ∧ (30 < 39 ∧ 60 < 69)%Z.
Proof.
  apply (scoreColor_and_assigned_level finance
           {| baseRisk := "medium-high";
              penaltyMultiplier := 1.2%Q;
              riskThresholds := {| low := 30; medium := 60; high := 80 |};
              description := "Finance contracts require careful attention to regulatory compliance and financial exposure, while recognizing standard industry practices." |}
           65); [reflexivity|lia].
Defined.

(** ** The exported report *)

Lemma exportData_analysis a :
  exportData (ContractAnalysis.toValue a)
  = Some (VObj [("contractTitle", VStr (ContractAnalysis.title a));
                ("analysisDate", get "analysisDate" (ContractAnalysis.toValue a));
                ("riskScore", VNum (ContractAnalysis.riskScore a));
                ("confidence", VNum (ContractAnalysis.confidence a));
                ("riskBreakdown", get "riskBreakdown" (ContractAnalysis.toValue a));
                ("keyIssues", get "keyIssues" (ContractAnalysis.toValue a));
                ("missingProtections",
                 get "missingProtections" (ContractAnalysis.toValue a));
                ("plainLanguageSummary",
                 VStr (ContractAnalysis.plainLanguageSummary a));
                ("clauses",
                 VArr ((λ c, VObj [("title", VStr (Clause.title c));
                                   ("content", VStr (Clause.content c));
                                   ("riskLevel", VStr (riskLevelName (Clause.riskLevel c)));
                                   ("riskScore", VNum (Clause.riskScore c));
                                   ("explanation", VStr (Clause.explanation c));
                                   ("suggestions", VArr (VStr <$> Clause.suggestions c))])
                         <$> ContractAnalysis.clauses a))]).
Proof.
  unfold exportData.
  change (get "clauses" (ContractAnalysis.toValue a))
    with (VArr (Clause.toValue <$> ContractAnalysis.clauses a)).
  cbv beta iota.
  assert (mapM exportClause (Clause.toValue <$> ContractAnalysis.clauses a)
          = Some ((λ c, VObj [("title", VStr (Clause.title c));
                              ("content", VStr (Clause.content c));
                              ("riskLevel", VStr (riskLevelName (Clause.riskLevel c)));
                              ("riskScore", VNum (Clause.riskScore c));
                              ("explanation", VStr (Clause.explanation c));
                              ("suggestions", VArr (VStr <$> Clause.suggestions c))])
                    <$> ContractAnalysis.clauses a)) as ->; [|done].
  induction (ContractAnalysis.clauses a) as [|c cs IH]; [done|].
  cbn [fmap list_fmap mapM]. cbn [fmap list_fmap] in IH. rewrite IH. done.
Qed.

(** X28. The report that the dashboard exports is not a contract analysis
    for the schema: whatever the analysis, [contractAnalysisSchema] rejects
    the exported object, which has no [id], [title] or [content]; and for
    an analysis of the inferred type the export is made, with the clauses
    in their order, each without its [id] and its span. *)
Theorem exportData_is_not_an_analysis :
  (∀ analysis exported,
     exportData analysis = Some exported →
     ∃ issues, validate exported = z.Invalid issues
               ∧ z.Issue [z.Key "id"] z.invalid_type ∈ issues
               ∧ z.Issue [z.Key "title"] z.invalid_type ∈ issues
               ∧ z.Issue [z.Key "content"] z.invalid_type ∈ issues)
  ∧ (∀ a, ∃ exported,
       exportData (ContractAnalysis.toValue a) = Some exported
       ∧ get "contractTitle" exported = VStr (ContractAnalysis.title a)
       ∧ ∃ clauses, get "clauses" exported = VArr clauses
           ∧ length clauses = length (ContractAnalysis.clauses a)
           ∧ ∀ i c, clauses !! i = Some c →
               get "id" c = VUndefined ∧ get "startIndex" c = VUndefined
               ∧ get "endIndex" c = VUndefined
               ∧ get "title" c = from_option (λ x, VStr (Clause.title x)) VUndefined
                                   (ContractAnalysis.clauses a !! i)).
Proof.
  split.
  - intros analysis exported Hexport. unfold exportData in Hexport.
    destruct (get "clauses" analysis) as [| | | | | |clauses|]; try done.
    destruct (mapM exportClause clauses) as [cs|]; [|done].
    injection Hexport as <-.
    set (props := [("contractTitle", _); _; _; _; _; _; _; _; _]).
    assert (∀ i k, (i, k) ∈ [(0, "id"); (1, "title"); (2, "content")] →
              z.Issue [z.Key k] z.invalid_type ∈ z.issuesOf (validate (VObj props)))
      as Hissue.
    { intros i k Hin. unfold validate, contractAnalysisSchema.
      rewrite !elem_of_cons, elem_of_nil in Hin.
      destruct Hin as [[= -> ->]|[[= -> ->]|[[= -> ->]|[]]]].
      - apply (object_field_issue _ [] props 0 "id" z.string_); [done|]. cbn. by left.
      - apply (object_field_issue _ [] props 1 "title" z.string_); [done|]. cbn. by left.
      - apply (object_field_issue _ [] props 2 "content" z.string_); [done|]. cbn. by left. }
    destruct (issuesOf_Invalid _ _ (Hissue 0 "id" ltac:(by left)))
      as (issues & Hinvalid & Hid).
    exists issues. split; [done|]. split; [done|].
    pose proof (Hissue 1 "title" ltac:(right; by left)) as Htitle.
    pose proof (Hissue 2 "content" ltac:(right; right; by left)) as Hcontent.
    rewrite Hinvalid in Htitle, Hcontent. done.
  - intros a. eexists. split; [apply exportData_analysis|].
    split; [done|]. eexists. split; [reflexivity|].
    split; [by rewrite length_fmap|].
    intros i c. rewrite list_lookup_fmap.
    destruct (ContractAnalysis.clauses a !! i) as [x|]; [|done].
    by intros [= <-].
Qed.

(** ** From the reply of the model to the storage *)

(** X29. The reply of the model chooses the key of the storage: a reply of
    the shape of [GeminiAnalysisResponse] that also has an [id] makes
    [analyzeContract] return an analysis with that id, not the fresh one;
    with the id ["ids"] the upload dialog then stores the analysis over the
    list of ids, and [storeAnalysis] throws, leaving no list (or, when the
    analysis is over the quota, throws and leaves the storage as it
    was). *)
Theorem reply_id_reaches_storage (toISOString : Z → string)
    (withinQuota : gmap string text → bool) uuid now title contractText
    (r : GeminiAnalysisResponse.t) id (st : gmap string text) :
  let reply := VObj (ownProps (GeminiAnalysisResponse.toValue r) ++ [("id", VStr id)])%list in
  let a := setId id (analysisOfResponse uuid now title contractText r) in
  analyzeContract_return uuid now title contractText reply = ContractAnalysis.toValue a
  ∧ (id = "ids" →
     let stored := storeAnalysis toISOString withinQuota a st in
     if withinQuota (withAnalysis toISOString a st)
     then stored.1 = ThrewTypeError ∧ ∀ ids, ¬ holdsIds ids stored.2
     else stored = (ThrewQuotaExceededError, st)).
Proof.
  intros reply a. split; [reflexivity|]. intros -> stored.
  destruct (stringify_analysis toISOString a) as [members Hmembers].
  assert (getItem "analysis-ids" (withAnalysis toISOString a st)
          = Some (JSONText (JObject members))) as Hitem.
  { rewrite <- Hmembers. apply (withAnalysis_item toISOString a st). }
  subst stored.
  rewrite (storeAnalysis_list_is_object toISOString withinQuota a st members Hitem).
  destruct (withinQuota (withAnalysis toISOString a st)); [|done].
  split; [done|]. intros ids Hids. unfold holdsIds in Hids. cbn [snd] in Hids.
  rewrite Hitem in Hids. discriminate Hids.
Qed.

(** ** The name of the exported file *)

Lemma replaceNonAlphaNumeric_length s :
  String.length (replaceNonAlphaNumeric s) = String.length s.
Proof. induction s as [|c s IH]; [done|]. cbn. by rewrite IH. Qed.

Lemma replaceNonAlphaNumeric_chars s c :
  hasChar c (replaceNonAlphaNumeric s) = true → isAlphaNumeric c = true ∨ c = "_"%char.
Proof.
  induction s as [|x s IH]; [done|]. cbn [replaceNonAlphaNumeric hasChar].
  intros [Hc|Hc]%orb_true_iff; [|by apply IH].
  apply Ascii.eqb_eq in Hc as <-. destruct (isAlphaNumeric x) eqn:Hx; [by left|by right].
Qed.

Lemma replaceNonAlphaNumeric_get s n :
  String.get n (replaceNonAlphaNumeric s)
  = (λ c, if isAlphaNumeric c then c else "_"%char) <$> String.get n s.
Proof.
  revert n. induction s as [|x s IH]; intros n; [done|].
  cbn [replaceNonAlphaNumeric String.get]. destruct n as [|n]; [done|]. apply IH.
Qed.

Lemma replaceNonAlphaNumeric_kept s :
  (∀ c, hasChar c s = true → isAlphaNumeric c = true) → replaceNonAlphaNumeric s = s.
Proof.
  induction s as [|x s IH]; [done|]. intros Hall. cbn [replaceNonAlphaNumeric].
  rewrite (Hall x) by (cbn; by rewrite Ascii.eqb_refl). rewrite IH; [done|].
  intros c Hc. apply Hall. cbn. rewrite Hc. by destruct (Ascii.eqb x c).
Qed.

(** X30. The name of the exported file is the title, character by
    character, with every letter and digit kept in its place and every
    other character replaced by an underscore (so that no dot, space or
    path separator is left), followed by [_analysis.json]; a title of
    letters and digits is kept as it is. *)
Theorem exportFilename_safe title :
  ∃ body,
    exportFilename title = body +:+ "_analysis.json"
    ∧ String.length body = String.length title
    ∧ (∀ n, String.get n body
            = (λ c, if isAlphaNumeric c then c else "_"%char) <$> String.get n title)
    ∧ (∀ c, hasChar c body = true → isAlphaNumeric c = true ∨ c = "_"%char)
    ∧ ((∀ c, hasChar c title = true → isAlphaNumeric c = true) → body = title).
Proof.
  exists (replaceNonAlphaNumeric title). split_and!.
  - done.
  - apply replaceNonAlphaNumeric_length.
  - apply replaceNonAlphaNumeric_get.
  - apply replaceNonAlphaNumeric_chars.
  - apply replaceNonAlphaNumeric_kept.
Qed.

Example exportFilename_examples :
  exportFilename "Lease (final) v1.2" = "Lease__final__v1_2_analysis.json"
  ∧ exportFilename "../a b" = exportFilename "___a.b"
  ∧ exportFilename "" = "_analysis.json".
Proof. by vm_compute. Qed.
